(** * Advanced Base Converter: a shallow embedding of [bin_dec_converter.py]

    The converters of the tool, its input helpers and its colour schemes
    are embedded function by function.

    - A Python [int] is a [Z]; [%] and [//] are [Z.modulo] and [Z.div]
      (both floor towards minus infinity, as Python does), [&], [>>] and
      [<<] are [Z.land], [Z.shiftr] and [Z.shiftl].
    - A Python [str] is the list of its code points.
    - A Python [float] is an IEEE 754 binary64 value, [spec_float] with
      [prec = 53] and [emax = 1024].
    - A call either returns, raises, or exhausts the fuel of a [while]
      loop; every entry point hands its loop enough fuel, which the
      totality lemmas below establish.
    - A local variable that may be unbound when it is read is an
      [option]; reading [None] raises [UnboundLocalError].
    - The input helpers run on a console: the lines still to be typed
      and the characters written so far; the two globals of the colour
      scheme are a record that [toggle_color_scheme] takes and gives
      back. *)

From Stdlib Require Import Ascii String.
From Stdlib Require Import Decimal DecimalString DecimalPos DecimalZ.
From Stdlib Require Import SpecFloat.
From Stdlib Require Import ZArith Zpower Bool Lia List.
Import ListNotations.

Local Open Scope Z_scope.
Local Open Scope list_scope.

(** ** Python values *)

Definition char := Z.
Definition str := list char.

Definition ch (a : ascii) : char := Z.of_N (N_of_ascii a).
Definition lit (s : string) : str := map ch (list_ascii_of_string s).
Arguments ch a%_char.
Arguments lit s%_string.

Inductive exn : Type :=
| ValueError (msg : str)
| UnboundLocalError (var : str)
| IndexError
| ZeroDivisionError
| OverflowError
| TypeError.

Inductive outcome (A : Type) : Type :=
| Return (a : A)
| Raise (e : exn)
| OutOfFuel.
Arguments Return {A} a.
Arguments Raise {A} e.
Arguments OutOfFuel {A}.

Definition bind {A B : Type} (c : outcome A) (k : A -> outcome B) : outcome B :=
  match c with
  | Return a => k a
  | Raise e => Raise e
  | OutOfFuel => OutOfFuel
  end.

Notation "x <- c ;; k" := (bind c (fun x => k))
  (at level 61, c at next level, right associativity).
Notation "' p <- c ;; k" := (bind c (fun x => let 'p := x in k))
  (at level 61, p pattern, c at next level, right associativity).

(** The result of a converter called with or without [show_steps]:
    the bare value, or the value together with its list of steps. *)
Inductive ret (A : Type) : Type :=
| Plain (a : A)
| WithSteps (a : A) (steps : list str).
Arguments Plain {A} a.
Arguments WithSteps {A} a steps.

Definition value {A : Type} (r : ret A) : A :=
  match r with Plain a => a | WithSteps a _ => a end.

(** [yields show_steps c v]: the call [c] returns the value [v], in the
    shape that [show_steps] asks for. *)
Definition yields {A : Type} (show_steps : bool) (c : outcome (ret A)) (v : A) : Prop :=
  match c with
  | Return (WithSteps a _) => show_steps = true /\ a = v
  | Return (Plain a) => show_steps = false /\ a = v
  | _ => False
  end.

(** ** Builtins *)

(** Reading a local variable. *)
Definition load {A : Type} (name : str) (v : option A) : outcome A :=
  match v with Some a => Return a | None => Raise (UnboundLocalError name) end.

Definition py_mod (a b : Z) : outcome Z :=
  if b =? 0 then Raise ZeroDivisionError else Return (a mod b).

Definition py_floordiv (a b : Z) : outcome Z :=
  if b =? 0 then Raise ZeroDivisionError else Return (a / b).

Definition len {A : Type} (s : list A) : Z := Z.of_nat (length s).

(** [s[i]], with Python's negative indices. *)
Definition getitem (s : str) (i : Z) : outcome char :=
  let j := if i <? 0 then i + len s else i in
  if (0 <=? j) && (j <? len s) then Return (nth (Z.to_nat j) s 0)
  else Raise IndexError.

(** [s[:n]] for a non-negative [n]. *)
Definition slice_to (s : str) (n : Z) : str := firstn (Z.to_nat n) s.

Fixpoint index_from (s : str) (c : char) (i : Z) : outcome Z :=
  match s with
  | [] => Raise (ValueError (lit "substring not found"))
  | x :: t => if x =? c then Return i else index_from t c (i + 1)
  end.

(** [s.index(c)] for a one-character [c]. *)
Definition str_index (s : str) (c : char) : outcome Z := index_from s c 0.

Fixpoint startswith (s prefix : str) {struct prefix} : bool :=
  match prefix, s with
  | [], _ => true
  | p :: prefix', x :: s' => (x =? p) && startswith s' prefix'
  | _ :: _, [] => false
  end.

(** [abs(n).bit_length()], which is also [n.bit_length()]. *)
Definition bit_length (n : Z) : Z :=
  if n =? 0 then 0 else Z.log2 (Z.abs n) + 1.

(** The decimal numeral of an integer. *)
Definition str_of_int (n : Z) : str :=
  lit (NilZero.string_of_int (Z.to_int n)).

(** The limit CPython, from 3.11 on, sets to the decimal digits of an
    [int] it turns into a string: [sys.get_int_max_str_digits()], which
    the program leaves at its default. *)
Definition int_max_str_digits : Z := 4300.

Definition digits_limit_error : exn :=
  ValueError (lit "Exceeds the limit (4300 digits) for integer string conversion; use sys.set_int_max_str_digits() to increase the limit").

(** The integers whose numeral, the sign apart, keeps within the limit. *)
Definition formattable (n : Z) : bool :=
  len (str_of_int (Z.abs n)) <=? int_max_str_digits.

(** [str(n)] and [f"{n}"] for an integer: its decimal numeral, or the
    [ValueError] of the limit. *)
Definition format_int (n : Z) : outcome str :=
  if formattable n then Return (str_of_int n) else Raise digits_limit_error.

Definition spaces (n : nat) : str := repeat (ch " ") n.

(** [f"{n:w}"] for an integer: right-aligned in a field of width [w]. *)
Definition format_int_w (w : nat) (n : Z) : outcome str :=
  s <- format_int n ;; Return (spaces (w - length s) ++ s).

(** [f"{s:w}"] for a string: left-aligned in a field of width [w]. *)
Definition fmt_str (w : nat) (s : str) : str :=
  s ++ spaces (w - length s).

(** The digits of a positive [n] in base [b], least significant first:
    the positional numeral that the builtins [bin] and [hex] print, and
    against which the converters are measured. *)
Fixpoint digits_le (fuel : nat) (b n : Z) : list Z :=
  match fuel with
  | O => []
  | S fuel' => if n <=? 0 then [] else n mod b :: digits_le fuel' b (n / b)
  end.

Definition digit_char (alphabet : str) (d : Z) : char := nth (Z.to_nat d) alphabet 0.

(** The numeral of a non-negative [n] in base [b], most significant
    digit first, written with [alphabet]. *)
Definition numeral (alphabet : str) (b n : Z) : str :=
  if n <=? 0 then lit "0"
  else map (digit_char alphabet) (rev (digits_le (Z.to_nat (bit_length n)) b n)).

Definition sign_of (n : Z) : str := if n <? 0 then lit "-" else [].

(** [bin(n)] and [hex(n)]. *)
Definition py_bin (n : Z) : str :=
  sign_of n ++ lit "0b" ++ numeral (lit "01") 2 (Z.abs n).

Definition py_hex (n : Z) : str :=
  sign_of n ++ lit "0x" ++ numeral (lit "0123456789abcdef") 16 (Z.abs n).

(** [chr(i)] and [ord(c)].  CPython builds a one-character string for
    every code point of the range, the surrogates included. *)
Definition chr (i : Z) : outcome str :=
  if (0 <=? i) && (i <=? 1114111) then Return [i]
  else Raise (ValueError (lit "chr() arg not in range(0x110000)")).

Definition ord (c : str) : outcome Z :=
  match c with
  | [x] => Return x
  | _ => Raise TypeError
  end.

(** [int(c)] for a one-character string [c]; of the decimal digits of
    Unicode only the ASCII ones are covered, the only ones that pass
    the checks made before the calls below. *)
Definition int_of_digit (c : char) : outcome Z :=
  if (ch "0" <=? c) && (c <=? ch "9") then Return (c - ch "0")
  else Raise (ValueError (lit "invalid literal for int() with base 10")).

(** Case mapping of one code point, [str.upper] and [str.lower] being
    its extension to strings.  The ASCII range is exact.  Outside it the
    code points whose image meets the ASCII range are listed; the others
    are left where they are, which a test against ASCII text cannot tell
    apart from their real images. *)
Definition upper_char (c : char) : str :=
  if (ch "a" <=? c) && (c <=? ch "z") then [c - 32]
  else if c =? 223 then lit "SS"
  else if c =? 305 then lit "I"
  else if c =? 329 then [700; ch "N"]
  else if c =? 383 then lit "S"
  else if c =? 496 then [ch "J"; 780]
  else if c =? 7830 then [ch "H"; 817]
  else if c =? 7831 then [ch "T"; 776]
  else if c =? 7832 then [ch "W"; 778]
  else if c =? 7833 then [ch "Y"; 778]
  else if c =? 7834 then [ch "A"; 702]
  else if c =? 64256 then lit "FF"
  else if c =? 64257 then lit "FI"
  else if c =? 64258 then lit "FL"
  else if c =? 64259 then lit "FFI"
  else if c =? 64260 then lit "FFL"
  else if c =? 64261 then lit "ST"
  else if c =? 64262 then lit "ST"
  else [c].

Definition lower_char (c : char) : str :=
  if (ch "A" <=? c) && (c <=? ch "Z") then [c + 32]
  else if c =? 304 then [ch "i"; 775]
  else if c =? 8490 then lit "k"
  else [c].

Definition upper (s : str) : str := flat_map upper_char s.
Definition lower (s : str) : str := flat_map lower_char s.

(** The code points [str.isspace] accepts, which [str.strip] removes. *)
Definition is_space (c : char) : bool :=
  ((9 <=? c) && (c <=? 13)) || ((28 <=? c) && (c <=? 32))
  || (c =? 133) || (c =? 160) || (c =? 5760)
  || ((8192 <=? c) && (c <=? 8202))
  || (c =? 8232) || (c =? 8233) || (c =? 8239) || (c =? 8287) || (c =? 12288).

Fixpoint lstrip (s : str) : str :=
  match s with
  | c :: t => if is_space c then lstrip t else s
  | [] => []
  end.

Definition rstrip (s : str) : str := rev (lstrip (rev s)).
Definition strip (s : str) : str := rstrip (lstrip s).

(** ** Regular expressions, as far as the patterns of the source go *)

Inductive citem : Type :=
| One (c : char)
| Range (lo hi : char).

Inductive regex : Type :=
| Eps
| Class (items : list citem)
| Cat (r1 r2 : regex)
| Opt (r : regex)
| Star (r : regex)
| Plus (r : regex).

Definition in_item (c : char) (i : citem) : bool :=
  match i with
  | One x => c =? x
  | Range lo hi => (lo <=? c) && (c <=? hi)
  end.

Definition in_class (items : list citem) (c : char) : bool :=
  existsb (in_item c) items.

Fixpoint nullable (r : regex) : bool :=
  match r with
  | Eps => true
  | Class _ => false
  | Cat r1 r2 => nullable r1 && nullable r2
  | Opt _ => true
  | Star _ => true
  | Plus r => nullable r
  end.

(** The residual of [r] after reading [c]; alternatives are kept in a
    list so that the syntax needs no binary choice. *)
Fixpoint residuals (r : regex) (c : char) : list regex :=
  match r with
  | Eps => []
  | Class items => if in_class items c then [Eps] else []
  | Cat r1 r2 =>
      map (fun d => Cat d r2) (residuals r1 c)
      ++ (if nullable r1 then residuals r2 c else [])
  | Opt r => residuals r c
  | Star r => map (fun d => Cat d (Star r)) (residuals r c)
  | Plus r => map (fun d => Cat d (Star r)) (residuals r c)
  end.

Fixpoint matches (rs : list regex) (s : str) : bool :=
  match s with
  | [] => existsb nullable rs
  | c :: t => matches (flat_map (fun r => residuals r c) rs) t
  end.

(** [re.fullmatch(r, s)] seen as a truth value. *)
Definition fullmatch (r : regex) (s : str) : bool := matches [r] s.

(** ** Constants *)

Definition HEX_DIGITS : str := lit "0123456789ABCDEF".
Definition BASE_DIGITS : str := lit "0123456789ABCDEF".
Definition MAX_BASE : Z := 16.
Definition MIN_BASE : Z := 2.

(** ** Control flow *)

(** [while cond: body], on the tuple of the variables the loop updates. *)
Fixpoint while {S : Type} (fuel : nat) (cond : S -> bool)
    (body : S -> outcome S) (s : S) : outcome S :=
  if cond s then
    match fuel with
    | O => OutOfFuel
    | Datatypes.S fuel' => s' <- body s ;; while fuel' cond body s'
    end
  else Return s.

(** [for x in items: body]. *)
Fixpoint for_each {X S : Type} (items : list X) (body : X -> S -> outcome S)
    (s : S) : outcome S :=
  match items with
  | [] => Return s
  | x :: rest => s' <- body x s ;; for_each rest body s'
  end.

Fixpoint enumerate_from {X : Type} (i : Z) (l : list X) : list (Z * X) :=
  match l with
  | [] => []
  | x :: t => (i, x) :: enumerate_from (i + 1) t
  end.

Definition enumerate {X : Type} (l : list X) : list (Z * X) := enumerate_from 0 l.

(** The iterations a loop that shortens its counter by at least one bit
    per round can need. *)
Definition fuel_for (n : Z) : nat := Z.to_nat (bit_length n).

(** * 1. Low-level converters *)

(** ** General base conversion *)

(** The error of the base; its two constants have one and two digits,
    far below the limit of [format_int]. *)
Definition base_error : exn :=
  ValueError (lit "Base must be between " ++ str_of_int MIN_BASE
              ++ lit " and " ++ str_of_int MAX_BASE).

(** One line of the table of [dec_to_base]. *)
Definition dec_to_base_row (step_num working_n base remainder : Z) (digit : char) : outcome str :=
  c1 <- format_int_w 4 step_num ;;
  c2 <- format_int_w 7 working_n ;;
  c3 <- format_int_w 15 base ;;
  c4 <- format_int_w 9 remainder ;;
  Return (c1 ++ lit " | " ++ c2 ++ lit " | " ++ c3 ++ lit " | " ++ c4 ++ lit " | " ++ [digit]).

Definition dec_to_base_body (base : Z) (show_steps : bool)
    (s : Z * option Z * list char * list str) : outcome (Z * option Z * list char * list str) :=
  let '(working_n, step_num, digits, steps) := s in
  remainder <- py_mod working_n base ;;
  digit <- getitem BASE_DIGITS remainder ;;
  steps <- (if show_steps then
              sn <- load (lit "step_num") step_num ;;
              row <- dec_to_base_row sn working_n base remainder digit ;;
              Return (steps ++ [row])
            else Return steps) ;;
  let digits := digits ++ [digit] in
  working_n <- py_floordiv working_n base ;;
  sn <- load (lit "step_num") step_num ;;
  let step_num := Some (sn + (if show_steps then 1 else 0)) in
  Return (working_n, step_num, digits, steps).

Definition dec_to_base (n base : Z) (show_steps : bool) : outcome (ret str) :=
  let steps : list str := [] in
  let original_n := n in
  if n =? 0 then
    if show_steps then
      fb <- format_int base ;;
      let steps := steps ++ [lit "0 in decimal is 0 in base " ++ fb] in
      Return (WithSteps (lit "0") steps)
    else Return (Plain (lit "0"))
  else if negb ((MIN_BASE <=? base) && (base <=? MAX_BASE)) then Raise base_error
  else
    let is_negative := n <? 0 in
    '(n, steps) <-
      (if is_negative then
         fn <- format_int original_n ;;
         let steps := steps ++ [lit "Converting negative number: " ++ fn] in
         let n := Z.abs n in
         fn <- format_int n ;;
         Return (n, steps ++ [lit "Taking absolute value: " ++ fn])
       else Return (n, steps)) ;;
    let digits : list char := [] in
    let working_n := n in
    '(steps, step_num) <-
      (if show_steps then
         fb <- format_int base ;;
         fn <- format_int working_n ;;
         Return (steps ++ [lit "Starting decimal to base " ++ fb
                             ++ lit " conversion of " ++ fn ++ lit ":";
                           lit "Step | Decimal | Divided by Base | Remainder | Digit";
                           lit "---- | ------- | --------------- | --------- | -----"],
                 Some 1)
       else Return (steps, None)) ;;
    '(_, _, digits, steps) <-
      while (fuel_for working_n) (fun '(working_n, _, _, _) => negb (working_n =? 0))
        (dec_to_base_body base show_steps) (working_n, step_num, digits, steps) ;;
    let result := rev digits in
    let final_result := if is_negative then lit "-" ++ result else result in
    if show_steps then
      let steps := steps ++ [lit "Reading remainders from bottom to top: " ++ result] in
      let steps :=
        if is_negative then steps ++ [lit "Adding negative sign: " ++ final_result]
        else steps in
      fn <- format_int original_n ;;
      fb <- format_int base ;;
      let steps := steps ++ [lit "Final result: " ++ fn
                               ++ lit " in decimal = " ++ final_result
                               ++ lit " in base " ++ fb] in
      Return (WithSteps final_result steps)
    else Return (Plain final_result).

(** One line of the table of [base_to_dec]. *)
Definition base_to_dec_row (i : Z) (digit : char) (digit_value position_value : Z) : outcome str :=
  c1 <- format_int_w 8 i ;;
  c3 <- format_int_w 11 digit_value ;;
  c4 <- format_int_w 38 position_value ;;
  Return (c1 ++ lit " | " ++ fmt_str 5 [digit] ++ lit " | " ++ c3 ++ lit " | " ++ c4).

Definition base_to_dec_body (base : Z) (show_steps : bool) (x : Z * char)
    (s : Z * list str) : outcome (Z * list str) :=
  let '(i, digit) := x in
  let '(decimal_value, steps) := s in
  digit_value <- str_index BASE_DIGITS digit ;;
  let position_value := digit_value * base ^ i in
  let decimal_value := decimal_value + position_value in
  steps <- (if show_steps then
              row <- base_to_dec_row i digit digit_value position_value ;;
              Return (steps ++ [row])
            else Return steps) ;;
  Return (decimal_value, steps).

Definition base_to_dec (number_str : str) (base : Z) (show_steps : bool) : outcome (ret Z) :=
  let steps : list str := [] in
  let original_str := number_str in
  if negb ((MIN_BASE <=? base) && (base <=? MAX_BASE)) then Raise base_error
  else
    let is_negative := startswith number_str (lit "-") in
    let '(number_str, steps) :=
      if is_negative then
        let steps := steps ++ [lit "Converting negative number: " ++ original_str] in
        let number_str := tl number_str in
        (number_str, steps ++ [lit "Removing negative sign for conversion: " ++ number_str])
      else (number_str, steps) in
    let valid_chars := slice_to BASE_DIGITS base in
    if negb (fullmatch (Plus (Class (map One valid_chars))) (upper number_str)) then
      fb <- format_int base ;;
      Raise (ValueError (lit "Invalid number for base " ++ fb))
    else
      steps <- (if show_steps then
                  fb <- format_int base ;;
                  fb' <- format_int base ;;
                  Return (steps ++ [lit "Starting base " ++ fb
                                      ++ lit " to decimal conversion of " ++ number_str ++ lit ":";
                                    lit "Position | Digit | Digit Value | Value = Digit Value " ++ [215]
                                      ++ lit " " ++ fb' ++ lit "^Position";
                                    lit "-------- | ----- | ----------- | -----------------------------------------"])
                else Return steps) ;;
      let decimal_value := 0 in
      '(decimal_value, steps) <-
        for_each (enumerate (rev (upper number_str)))
          (base_to_dec_body base show_steps) (decimal_value, steps) ;;
      '(decimal_value, steps) <-
        (if is_negative then
           let decimal_value := - decimal_value in
           if show_steps then
             fv <- format_int decimal_value ;;
             Return (decimal_value, steps ++ [lit "Applying negative sign: " ++ fv])
           else Return (decimal_value, steps)
         else Return (decimal_value, steps)) ;;
      if show_steps then
        fb <- format_int base ;;
        fv <- format_int decimal_value ;;
        let steps := steps ++ [lit "Final result: " ++ original_str ++ lit " in base "
                                 ++ fb ++ lit " = " ++ fv
                                 ++ lit " in decimal"] in
        Return (WithSteps decimal_value steps)
      else Return (Plain decimal_value).

(** ** Floating-point conversion *)

Definition float := spec_float.

Definition prec : Z := 53.
Definition emax : Z := 1024.

Definition fzero : float := S754_zero false.

(** The float nearest to [m * 2^e], ties to even. *)
Definition mkfloat (m e : Z) : float := binary_normalize prec emax m e false.

(** The conversion of the integer operand of a mixed operation, and
    [float(n)]: rounds to nearest, and refuses what does not fit. *)
Definition float_of_int (n : Z) : outcome float :=
  match mkfloat n 0 with
  | S754_infinity _ => Raise OverflowError
  | f => Return f
  end.

(** [int(x)]: truncation towards zero. *)
Definition int_of_float (x : float) : outcome Z :=
  match x with
  | S754_nan => Raise (ValueError (lit "cannot convert float NaN to integer"))
  | S754_infinity _ => Raise OverflowError
  | S754_zero _ => Return 0
  | S754_finite s m e => Return (cond_Zopp s (Z.shiftl (Zpos m) e))
  end.

Definition float_sub_int (x : float) (n : Z) : outcome float :=
  y <- float_of_int n ;; Return (SFsub prec emax x y).

Definition float_mul_int (x : float) (n : Z) : outcome float :=
  y <- float_of_int n ;; Return (SFmul prec emax x y).

Definition float_div_int (x : float) (n : Z) : outcome float :=
  y <- float_of_int n ;;
  match y with
  | S754_zero _ => Raise ZeroDivisionError
  | _ => Return (SFdiv prec emax x y)
  end.

(** The two renderings of a float the steps use: [f"{x}"], and
    [f"{x:w.pf}"] with its width [w] and its [p] decimals.  The steps of
    [dec_to_base_float] are built over any such pair. *)
Record float_printer : Type := {
  repr_float : float -> str;
  fixed : nat -> nat -> float -> str
}.

Section FloatConversion.

Variable P : float_printer.

(** One line of the table of [dec_to_base_float]; its second column is
    [working_frac / base], computed when the line is written. *)
Definition dec_to_base_float_row (step_num : Z) (base : Z)
    (working_frac : float) (int_digit : Z) : outcome str :=
  c1 <- format_int_w 4 step_num ;;
  before <- float_div_int working_frac base ;;
  c3 <- format_int_w 20 base ;;
  c5 <- format_int_w 12 int_digit ;;
  Return (c1 ++ lit " | " ++ fixed P 10 6 before ++ lit " | "
          ++ c3 ++ lit " | " ++ fixed P 9 6 working_frac ++ lit " | " ++ c5).

(** The [for _ in range(precision)] loop, [rounds] being the rounds
    still to run; the [break] is the early [Return]. *)
Fixpoint dec_to_base_float_for (rounds : nat) (base : Z) (show_steps : bool)
    (working_frac : float) (step_num : option Z) (frac_result : list char)
    (steps : list str) : outcome (list char * list str) :=
  match rounds with
  | O => Return (frac_result, steps)
  | S rounds' =>
      working_frac <- float_mul_int working_frac base ;;
      int_digit <- int_of_float working_frac ;;
      digit <- getitem BASE_DIGITS int_digit ;;
      let frac_result := frac_result ++ [digit] in
      '(steps, step_num) <-
        (if show_steps then
           sn <- load (lit "step_num") step_num ;;
           row <- dec_to_base_float_row sn base working_frac int_digit ;;
           Return (steps ++ [row], Some (sn + 1))
         else Return (steps, step_num)) ;;
      working_frac <- float_sub_int working_frac int_digit ;;
      if SFeqb working_frac fzero then Return (frac_result, steps)
      else dec_to_base_float_for rounds' base show_steps working_frac step_num
             frac_result steps
  end.

Definition dec_to_base_float (decimal : float) (base precision : Z)
    (show_steps : bool) : outcome (ret str) :=
  let steps : list str := [] in
  let original_decimal := decimal in
  if SFeqb decimal fzero then
    if show_steps then
      fb <- format_int base ;;
      let steps := steps ++ [lit "0.0 in decimal is 0.0 in base " ++ fb] in
      Return (WithSteps (lit "0.0") steps)
    else Return (Plain (lit "0.0"))
  else if negb ((MIN_BASE <=? base) && (base <=? MAX_BASE)) then Raise base_error
  else
    let is_negative := SFltb decimal fzero in
    let '(decimal, steps) :=
      if is_negative then
        let steps := steps ++ [lit "Converting negative number: "
                                 ++ repr_float P original_decimal] in
        let decimal := SFabs decimal in
        (decimal, steps ++ [lit "Taking absolute value: " ++ repr_float P decimal])
      else (decimal, steps) in
    int_part <- int_of_float decimal ;;
    frac_part <- float_sub_int decimal int_part ;;
    r <- dec_to_base int_part base false ;;
    let int_result := value r in
    let frac_result : list char := [] in
    let working_frac := frac_part in
    '(steps, step_num) <-
      (if show_steps then
         fi <- format_int int_part ;;
         Return (steps ++ [lit "Converting integer part " ++ fi ++ lit ": "
                             ++ int_result;
                           lit "Converting fractional part " ++ repr_float P frac_part ++ lit ":";
                           lit "Step | Fractional | Multiplied by Base | Result    | Integer Part";
                           lit "---- | ---------- | ------------------ | --------- | ------------"],
                 Some 1)
       else Return (steps, None)) ;;
    '(frac_result, steps) <-
      dec_to_base_float_for (Z.to_nat precision) base show_steps working_frac
        step_num frac_result steps ;;
    let result :=
      match frac_result with
      | [] => int_result
      | _ :: _ => int_result ++ lit "." ++ frac_result
      end in
    let final_result := if is_negative then lit "-" ++ result else result in
    if show_steps then
      let steps := steps ++ [lit "Combining results: " ++ final_result] in
      let steps :=
        if is_negative then steps ++ [lit "Adding negative sign: " ++ final_result]
        else steps in
      fb <- format_int base ;;
      let steps := steps ++ [lit "Final result: " ++ repr_float P original_decimal
                               ++ lit " in decimal = " ++ final_result
                               ++ lit " in base " ++ fb] in
      Return (WithSteps final_result steps)
    else Return (Plain final_result).

End FloatConversion.

(** ** ASCII and Unicode conversion *)

Definition char_to_ascii (char : str) (show_steps : bool) : outcome (ret Z) :=
  let steps : list str := [] in
  if negb (len char =? 1) then
    Raise (ValueError (lit "Please enter a single character"))
  else
    code_point <- ord char ;;
    if show_steps then
      let steps := steps ++ [lit "Character: '" ++ char ++ lit "'"] in
      fc <- format_int code_point ;;
      let steps := steps ++ [lit "ASCII/Unicode code point: " ++ fc] in
      let steps := steps ++ [lit "Binary representation: " ++ skipn 2 (py_bin code_point)] in
      let steps := steps ++ [lit "Hexadecimal representation: "
                               ++ upper (skipn 2 (py_hex code_point))] in
      Return (WithSteps code_point steps)
    else Return (Plain code_point).

Definition ascii_to_char (code_point : Z) (show_steps : bool) : outcome (ret str) :=
  let steps : list str := [] in
  if negb ((0 <=? code_point) && (code_point <=? 1114111)) then
    Raise (ValueError (lit "Code point must be between 0 and 1114111"))
  else
    char <- match chr code_point with
            | Raise (ValueError _) =>
                fc <- format_int code_point ;;
                Raise (ValueError (lit "Invalid code point: " ++ fc))
            | c => c
            end ;;
    if show_steps then
      fc <- format_int code_point ;;
      let steps := steps ++ [lit "Code point: " ++ fc] in
      let steps := steps ++ [lit "Character: '" ++ char ++ lit "'"] in
      let steps := steps ++ [lit "Binary representation: " ++ skipn 2 (py_bin code_point)] in
      let steps := steps ++ [lit "Hexadecimal representation: "
                               ++ upper (skipn 2 (py_hex code_point))] in
      Return (WithSteps char steps)
    else Return (Plain char).

(** ** Utility functions *)

Definition minus_opt : regex := Opt (Class [One (ch "-")]).

Definition detect_base (number_str : str) : Z :=
  let number_str := strip number_str in
  if startswith (lower number_str) (lit "0b") then 2
  else if startswith (lower number_str) (lit "0o") then 8
  else if startswith (lower number_str) (lit "0x") then 16
  else if fullmatch (Cat minus_opt (Plus (Class [One (ch "0"); One (ch "1")]))) number_str
  then 2
  else if fullmatch (Cat minus_opt (Plus (Class [Range (ch "0") (ch "7")]))) number_str
  then 8
  else if fullmatch (Cat minus_opt (Plus (Class [Range (ch "0") (ch "9")]))) number_str
  then 10
  else if fullmatch (Cat minus_opt (Plus (Class [Range (ch "0") (ch "9");
                                                 Range (ch "A") (ch "F");
                                                 Range (ch "a") (ch "f")]))) number_str
  then 16
  else 0.

(** ** Decimal to binary, octal and hexadecimal *)

(** One line of the table of [dec_to_bin]. *)
Definition dec_to_bin_row (step_num working_n remainder : Z) : outcome str :=
  c1 <- format_int_w 4 step_num ;;
  c2 <- format_int_w 7 working_n ;;
  c4 <- format_int remainder ;;
  Return (c1 ++ lit " | " ++ c2 ++ lit " | 2           | " ++ c4).

Definition dec_to_bin_body (show_steps : bool)
    (s : Z * option Z * list str * list str) : outcome (Z * option Z * list str * list str) :=
  let '(working_n, step_num, bits, steps) := s in
  let remainder := Z.land working_n 1 in
  steps <- (if show_steps then
              sn <- load (lit "step_num") step_num ;;
              row <- dec_to_bin_row sn working_n remainder ;;
              Return (steps ++ [row])
            else Return steps) ;;
  fr <- format_int remainder ;;
  let bits := bits ++ [fr] in
  let working_n := Z.shiftr working_n 1 in
  sn <- load (lit "step_num") step_num ;;
  let step_num := Some (sn + (if show_steps then 1 else 0)) in
  Return (working_n, step_num, bits, steps).

Definition dec_to_bin (n : Z) (show_steps : bool) : outcome (ret str) :=
  let steps : list str := [] in
  let original_n := n in
  if n =? 0 then
    if show_steps then
      let steps := steps ++ [lit "0 in decimal is 0 in binary"] in
      Return (WithSteps (lit "0") steps)
    else Return (Plain (lit "0"))
  else
    let is_negative := n <? 0 in
    '(n, steps) <-
      (if is_negative then
         fn <- format_int original_n ;;
         let steps := steps ++ [lit "Converting negative number: " ++ fn] in
         let bits_needed := bit_length n + 1 in
         fbits <- format_int bits_needed ;;
         let steps := steps ++ [lit "Determined " ++ fbits
                                  ++ lit " bits needed for two's complement representation"] in
         let n := Z.shiftl 1 bits_needed + n in
         fn <- format_int n ;;
         Return (n, steps ++ [lit "Computed two's complement value: " ++ fn])
       else Return (n, steps)) ;;
    let bits : list str := [] in
    let working_n := n in
    '(steps, step_num) <-
      (if show_steps then
         fn <- format_int working_n ;;
         Return (steps ++ [lit "Starting decimal to binary conversion of " ++ fn
                             ++ lit ":";
                           lit "Step | Decimal | Divided by 2 | Remainder";
                           lit "---- | ------- | ------------ | ---------"],
                 Some 1)
       else Return (steps, None)) ;;
    '(_, _, bits, steps) <-
      while (fuel_for working_n) (fun '(working_n, _, _, _) => negb (working_n =? 0))
        (dec_to_bin_body show_steps) (working_n, step_num, bits, steps) ;;
    let result := concat (rev bits) in
    let final_result := if is_negative then lit "-" ++ result else result in
    if show_steps then
      let steps := steps ++ [lit "Reading remainders from bottom to top: " ++ result] in
      let steps :=
        if is_negative then steps ++ [lit "Adding negative sign: " ++ final_result]
        else steps in
      fn <- format_int original_n ;;
      let steps := steps ++ [lit "Final result: " ++ fn
                               ++ lit " in decimal = " ++ final_result
                               ++ lit " in binary"] in
      Return (WithSteps final_result steps)
    else Return (Plain final_result).

(** One line of the table of [dec_to_oct]. *)
Definition dec_to_oct_row (step_num working_n remainder : Z) : outcome str :=
  c1 <- format_int_w 4 step_num ;;
  c2 <- format_int_w 7 working_n ;;
  c4 <- format_int remainder ;;
  Return (c1 ++ lit " | " ++ c2 ++ lit " | 8           | " ++ c4).

Definition dec_to_oct_body (show_steps : bool)
    (s : Z * option Z * list str * list str) : outcome (Z * option Z * list str * list str) :=
  let '(working_n, step_num, chars, steps) := s in
  let remainder := Z.land working_n 7 in
  steps <- (if show_steps then
              sn <- load (lit "step_num") step_num ;;
              row <- dec_to_oct_row sn working_n remainder ;;
              Return (steps ++ [row])
            else Return steps) ;;
  fr <- format_int remainder ;;
  let chars := chars ++ [fr] in
  let working_n := Z.shiftr working_n 3 in
  sn <- load (lit "step_num") step_num ;;
  let step_num := Some (sn + (if show_steps then 1 else 0)) in
  Return (working_n, step_num, chars, steps).

Definition dec_to_oct (n : Z) (show_steps : bool) : outcome (ret str) :=
  let steps : list str := [] in
  let original_n := n in
  if n =? 0 then
    if show_steps then
      let steps := steps ++ [lit "0 in decimal is 0 in octal"] in
      Return (WithSteps (lit "0") steps)
    else Return (Plain (lit "0"))
  else
    let is_negative := n <? 0 in
    '(n, steps) <-
      (if is_negative then
         fn <- format_int original_n ;;
         let steps := steps ++ [lit "Converting negative number: " ++ fn] in
         let n := Z.abs n in
         fn <- format_int n ;;
         Return (n, steps ++ [lit "Taking absolute value: " ++ fn])
       else Return (n, steps)) ;;
    let chars : list str := [] in
    let working_n := n in
    '(steps, step_num) <-
      (if show_steps then
         fn <- format_int working_n ;;
         Return (steps ++ [lit "Starting decimal to octal conversion of " ++ fn
                             ++ lit ":";
                           lit "Step | Decimal | Divided by 8 | Remainder";
                           lit "---- | ------- | ------------ | ---------"],
                 Some 1)
       else Return (steps, None)) ;;
    '(_, _, chars, steps) <-
      while (fuel_for working_n) (fun '(working_n, _, _, _) => negb (working_n =? 0))
        (dec_to_oct_body show_steps) (working_n, step_num, chars, steps) ;;
    let result := concat (rev chars) in
    let final_result := if is_negative then lit "-" ++ result else result in
    if show_steps then
      let steps := steps ++ [lit "Reading remainders from bottom to top: " ++ result] in
      let steps :=
        if is_negative then steps ++ [lit "Adding negative sign: " ++ final_result]
        else steps in
      fn <- format_int original_n ;;
      let steps := steps ++ [lit "Final result: " ++ fn
                               ++ lit " in decimal = " ++ final_result
                               ++ lit " in octal"] in
      Return (WithSteps final_result steps)
    else Return (Plain final_result).

(** One line of the table of [dec_to_hex]. *)
Definition dec_to_hex_row (step_num working_n remainder : Z) (hex_digit : char) : outcome str :=
  c1 <- format_int_w 4 step_num ;;
  c2 <- format_int_w 7 working_n ;;
  c4 <- format_int_w 9 remainder ;;
  Return (c1 ++ lit " | " ++ c2 ++ lit " | 16          | " ++ c4 ++ lit " | " ++ [hex_digit]).

Definition dec_to_hex_body (show_steps : bool)
    (s : Z * option Z * list str * list str) : outcome (Z * option Z * list str * list str) :=
  let '(working_n, step_num, chars, steps) := s in
  let remainder := Z.land working_n 15 in
  hex_digit <- getitem HEX_DIGITS remainder ;;
  steps <- (if show_steps then
              sn <- load (lit "step_num") step_num ;;
              row <- dec_to_hex_row sn working_n remainder hex_digit ;;
              Return (steps ++ [row])
            else Return steps) ;;
  let chars := chars ++ [[hex_digit]] in
  let working_n := Z.shiftr working_n 4 in
  sn <- load (lit "step_num") step_num ;;
  let step_num := Some (sn + (if show_steps then 1 else 0)) in
  Return (working_n, step_num, chars, steps).

Definition dec_to_hex (n : Z) (show_steps : bool) : outcome (ret str) :=
  let steps : list str := [] in
  let original_n := n in
  if n =? 0 then
    if show_steps then
      let steps := steps ++ [lit "0 in decimal is 0 in hexadecimal"] in
      Return (WithSteps (lit "0") steps)
    else Return (Plain (lit "0"))
  else
    let is_negative := n <? 0 in
    '(n, steps) <-
      (if is_negative then
         fn <- format_int original_n ;;
         let steps := steps ++ [lit "Converting negative number: " ++ fn] in
         let n := Z.abs n in
         fn <- format_int n ;;
         Return (n, steps ++ [lit "Taking absolute value: " ++ fn])
       else Return (n, steps)) ;;
    let chars : list str := [] in
    let working_n := n in
    '(steps, step_num) <-
      (if show_steps then
         fn <- format_int working_n ;;
         Return (steps ++ [lit "Starting decimal to hexadecimal conversion of " ++ fn
                             ++ lit ":";
                           lit "Step | Decimal | Divided by 16 | Remainder | Hex Digit";
                           lit "---- | ------- | ------------ | --------- | ---------"],
                 Some 1)
       else Return (steps, None)) ;;
    '(_, _, chars, steps) <-
      while (fuel_for working_n) (fun '(working_n, _, _, _) => negb (working_n =? 0))
        (dec_to_hex_body show_steps) (working_n, step_num, chars, steps) ;;
    let result := concat (rev chars) in
    let final_result := if is_negative then lit "-" ++ result else result in
    if show_steps then
      let steps := steps ++ [lit "Reading remainders from bottom to top: " ++ result] in
      let steps :=
        if is_negative then steps ++ [lit "Adding negative sign: " ++ final_result]
        else steps in
      fn <- format_int original_n ;;
      let steps := steps ++ [lit "Final result: " ++ fn
                               ++ lit " in decimal = " ++ final_result
                               ++ lit " in hexadecimal"] in
      Return (WithSteps final_result steps)
    else Return (Plain final_result).

(** ** Binary, octal and hexadecimal to decimal *)

(** One line of the table of [bin_to_dec]. *)
Definition bin_to_dec_row (i : Z) (digit : char) (position_value : Z) : outcome str :=
  c1 <- format_int_w 8 i ;;
  c3 <- format_int_w 24 position_value ;;
  Return (c1 ++ lit " | " ++ fmt_str 5 [digit] ++ lit " | " ++ c3).

Definition bin_to_dec_body (show_steps : bool) (x : Z * char)
    (s : Z * list str) : outcome (Z * list str) :=
  let '(i, digit) := x in
  let '(decimal_value, steps) := s in
  digit_value <- int_of_digit digit ;;
  let position_value := digit_value * 2 ^ i in
  let decimal_value := decimal_value + position_value in
  steps <- (if show_steps then
              row <- bin_to_dec_row i digit position_value ;;
              Return (steps ++ [row])
            else Return steps) ;;
  Return (decimal_value, steps).

Definition bin_to_dec (bstr : str) (show_steps : bool) : outcome (ret Z) :=
  let steps : list str := [] in
  let original_bstr := bstr in
  let is_negative := startswith bstr (lit "-") in
  let '(bstr, steps) :=
    if is_negative then
      let steps := steps ++ [lit "Converting negative binary number: " ++ original_bstr] in
      let bstr := tl bstr in
      (bstr, steps ++ [lit "Removing negative sign for conversion: " ++ bstr])
    else (bstr, steps) in
  if negb (fullmatch (Plus (Class [One (ch "0"); One (ch "1")])) bstr) then
    Raise (ValueError (lit "Invalid binary number"))
  else
    let steps :=
      if show_steps then
        steps ++ [lit "Starting binary to decimal conversion of " ++ bstr ++ lit ":";
                  lit "Position | Digit | Value = Digit " ++ [215] ++ lit " 2^Position";
                  lit "-------- | ----- | --------------------------"]
      else steps in
    let decimal_value := 0 in
    '(decimal_value, steps) <-
      for_each (enumerate (rev bstr)) (bin_to_dec_body show_steps) (decimal_value, steps) ;;
    '(decimal_value, steps) <-
      (if is_negative then
         let decimal_value := - decimal_value in
         if show_steps then
           fv <- format_int decimal_value ;;
           Return (decimal_value, steps ++ [lit "Applying negative sign: " ++ fv])
         else Return (decimal_value, steps)
       else Return (decimal_value, steps)) ;;
    if show_steps then
      fv <- format_int decimal_value ;;
      let steps := steps ++ [lit "Final result: " ++ original_bstr ++ lit " in binary = "
                               ++ fv ++ lit " in decimal"] in
      Return (WithSteps decimal_value steps)
    else Return (Plain decimal_value).

(** One line of the table of [oct_to_dec]. *)
Definition oct_to_dec_row (i : Z) (digit : char) (position_value : Z) : outcome str :=
  c1 <- format_int_w 8 i ;;
  c3 <- format_int_w 24 position_value ;;
  Return (c1 ++ lit " | " ++ fmt_str 5 [digit] ++ lit " | " ++ c3).

Definition oct_to_dec_body (show_steps : bool) (x : Z * char)
    (s : Z * list str) : outcome (Z * list str) :=
  let '(i, digit) := x in
  let '(decimal_value, steps) := s in
  digit_value <- int_of_digit digit ;;
  let position_value := digit_value * 8 ^ i in
  let decimal_value := decimal_value + position_value in
  steps <- (if show_steps then
              row <- oct_to_dec_row i digit position_value ;;
              Return (steps ++ [row])
            else Return steps) ;;
  Return (decimal_value, steps).

Definition oct_to_dec (ostr : str) (show_steps : bool) : outcome (ret Z) :=
  let steps : list str := [] in
  let original_ostr := ostr in
  let is_negative := startswith ostr (lit "-") in
  let '(ostr, steps) :=
    if is_negative then
      let steps := steps ++ [lit "Converting negative octal number: " ++ original_ostr] in
      let ostr := tl ostr in
      (ostr, steps ++ [lit "Removing negative sign for conversion: " ++ ostr])
    else (ostr, steps) in
  if negb (fullmatch (Plus (Class [Range (ch "0") (ch "7")])) ostr) then
    Raise (ValueError (lit "Invalid octal number"))
  else
    let steps :=
      if show_steps then
        steps ++ [lit "Starting octal to decimal conversion of " ++ ostr ++ lit ":";
                  lit "Position | Digit | Value = Digit " ++ [215] ++ lit " 8^Position";
                  lit "-------- | ----- | --------------------------"]
      else steps in
    let decimal_value := 0 in
    '(decimal_value, steps) <-
      for_each (enumerate (rev ostr)) (oct_to_dec_body show_steps) (decimal_value, steps) ;;
    '(decimal_value, steps) <-
      (if is_negative then
         let decimal_value := - decimal_value in
         if show_steps then
           fv <- format_int decimal_value ;;
           Return (decimal_value, steps ++ [lit "Applying negative sign: " ++ fv])
         else Return (decimal_value, steps)
       else Return (decimal_value, steps)) ;;
    if show_steps then
      fv <- format_int decimal_value ;;
      let steps := steps ++ [lit "Final result: " ++ original_ostr ++ lit " in octal = "
                               ++ fv ++ lit " in decimal"] in
      Return (WithSteps decimal_value steps)
    else Return (Plain decimal_value).

(** One line of the table of [hex_to_dec]. *)
Definition hex_to_dec_row (i : Z) (digit : char) (digit_value position_value : Z) : outcome str :=
  c1 <- format_int_w 8 i ;;
  c3 <- format_int_w 11 digit_value ;;
  c4 <- format_int_w 35 position_value ;;
  Return (c1 ++ lit " | " ++ fmt_str 5 [digit] ++ lit " | " ++ c3 ++ lit " | " ++ c4).

Definition hex_to_dec_body (show_steps : bool) (x : Z * char)
    (s : Z * list str) : outcome (Z * list str) :=
  let '(i, digit) := x in
  let '(decimal_value, steps) := s in
  digit_value <- str_index HEX_DIGITS digit ;;
  let position_value := digit_value * 16 ^ i in
  let decimal_value := decimal_value + position_value in
  steps <- (if show_steps then
              row <- hex_to_dec_row i digit digit_value position_value ;;
              Return (steps ++ [row])
            else Return steps) ;;
  Return (decimal_value, steps).

Definition hex_to_dec (hstr : str) (show_steps : bool) : outcome (ret Z) :=
  let steps : list str := [] in
  let original_hstr := hstr in
  let hstr := upper hstr in
  let is_negative := startswith hstr (lit "-") in
  let '(hstr, steps) :=
    if is_negative then
      let steps := steps ++ [lit "Converting negative hexadecimal number: " ++ original_hstr] in
      let hstr := tl hstr in
      (hstr, steps ++ [lit "Removing negative sign for conversion: " ++ hstr])
    else (hstr, steps) in
  if negb (fullmatch (Plus (Class [Range (ch "0") (ch "9"); Range (ch "A") (ch "F")])) hstr) then
    Raise (ValueError (lit "Invalid hexadecimal number"))
  else
    let steps :=
      if show_steps then
        steps ++ [lit "Starting hexadecimal to decimal conversion of " ++ hstr ++ lit ":";
                  lit "Position | Digit | Digit Value | Value = Digit Value " ++ [215] ++ lit " 16^Position";
                  lit "-------- | ----- | ----------- | -----------------------------------"]
      else steps in
    let decimal_value := 0 in
    '(decimal_value, steps) <-
      for_each (enumerate (rev hstr)) (hex_to_dec_body show_steps) (decimal_value, steps) ;;
    '(decimal_value, steps) <-
      (if is_negative then
         let decimal_value := - decimal_value in
         if show_steps then
           fv <- format_int decimal_value ;;
           Return (decimal_value, steps ++ [lit "Applying negative sign: " ++ fv])
         else Return (decimal_value, steps)
       else Return (decimal_value, steps)) ;;
    if show_steps then
      fv <- format_int decimal_value ;;
      let steps := steps ++ [lit "Final result: " ++ original_hstr ++ lit " in hexadecimal = "
                               ++ fv ++ lit " in decimal"] in
      Return (WithSteps decimal_value steps)
    else Return (Plain decimal_value).

(** ** Cross conversions via decimal *)

(** [value, steps = f(..., show_steps=True)]. *)
Definition unpack {A : Type} (r : ret A) : outcome (A * list str) :=
  match r with
  | WithSteps a st => Return (a, st)
  | Plain _ => Raise TypeError
  end.

Definition rule : str := repeat (ch "=") 50.

Definition bin_to_oct (bstr : str) (show_steps : bool) : outcome (ret str) :=
  if show_steps then
    let steps : list str := [] in
    let steps := steps ++ [lit "Starting binary to octal conversion of " ++ bstr] in
    let steps := steps ++ [lit "Step 1: Convert binary to decimal"] in
    let steps := steps ++ [rule] in
    r <- bin_to_dec bstr true ;;
    '(dec_value, to_dec_steps) <- unpack r ;;
    let steps := steps ++ to_dec_steps in
    let steps := steps ++ [lit ""] in
    let steps := steps ++ [lit "Step 2: Convert decimal to octal"] in
    let steps := steps ++ [rule] in
    r <- dec_to_oct dec_value true ;;
    '(out_value, from_dec_steps) <- unpack r ;;
    let steps := steps ++ from_dec_steps in
    let steps := steps ++ [lit ""] in
    let steps := steps ++ [rule] in
    let steps := steps ++ [lit "Complete conversion: " ++ bstr ++ lit " (binary) = "
                             ++ out_value ++ lit " (octal)"] in
    Return (WithSteps out_value steps)
  else
    r <- bin_to_dec bstr false ;;
    dec_to_oct (value r) false.

Definition bin_to_hex (bstr : str) (show_steps : bool) : outcome (ret str) :=
  if show_steps then
    let steps : list str := [] in
    let steps := steps ++ [lit "Starting binary to hexadecimal conversion of " ++ bstr] in
    let steps := steps ++ [lit "Step 1: Convert binary to decimal"] in
    let steps := steps ++ [rule] in
    r <- bin_to_dec bstr true ;;
    '(dec_value, to_dec_steps) <- unpack r ;;
    let steps := steps ++ to_dec_steps in
    let steps := steps ++ [lit ""] in
    let steps := steps ++ [lit "Step 2: Convert decimal to hexadecimal"] in
    let steps := steps ++ [rule] in
    r <- dec_to_hex dec_value true ;;
    '(out_value, from_dec_steps) <- unpack r ;;
    let steps := steps ++ from_dec_steps in
    let steps := steps ++ [lit ""] in
    let steps := steps ++ [rule] in
    let steps := steps ++ [lit "Complete conversion: " ++ bstr ++ lit " (binary) = "
                             ++ out_value ++ lit " (hexadecimal)"] in
    Return (WithSteps out_value steps)
  else
    r <- bin_to_dec bstr false ;;
    dec_to_hex (value r) false.

Definition oct_to_bin (ostr : str) (show_steps : bool) : outcome (ret str) :=
  if show_steps then
    let steps : list str := [] in
    let steps := steps ++ [lit "Starting octal to binary conversion of " ++ ostr] in
    let steps := steps ++ [lit "Step 1: Convert octal to decimal"] in
    let steps := steps ++ [rule] in
    r <- oct_to_dec ostr true ;;
    '(dec_value, to_dec_steps) <- unpack r ;;
    let steps := steps ++ to_dec_steps in
    let steps := steps ++ [lit ""] in
    let steps := steps ++ [lit "Step 2: Convert decimal to binary"] in
    let steps := steps ++ [rule] in
    r <- dec_to_bin dec_value true ;;
    '(out_value, from_dec_steps) <- unpack r ;;
    let steps := steps ++ from_dec_steps in
    let steps := steps ++ [lit ""] in
    let steps := steps ++ [rule] in
    let steps := steps ++ [lit "Complete conversion: " ++ ostr ++ lit " (octal) = "
                             ++ out_value ++ lit " (binary)"] in
    Return (WithSteps out_value steps)
  else
    r <- oct_to_dec ostr false ;;
    dec_to_bin (value r) false.

Definition oct_to_hex (ostr : str) (show_steps : bool) : outcome (ret str) :=
  if show_steps then
    let steps : list str := [] in
    let steps := steps ++ [lit "Starting octal to hexadecimal conversion of " ++ ostr] in
    let steps := steps ++ [lit "Step 1: Convert octal to decimal"] in
    let steps := steps ++ [rule] in
    r <- oct_to_dec ostr true ;;
    '(dec_value, to_dec_steps) <- unpack r ;;
    let steps := steps ++ to_dec_steps in
    let steps := steps ++ [lit ""] in
    let steps := steps ++ [lit "Step 2: Convert decimal to hexadecimal"] in
    let steps := steps ++ [rule] in
    r <- dec_to_hex dec_value true ;;
    '(out_value, from_dec_steps) <- unpack r ;;
    let steps := steps ++ from_dec_steps in
    let steps := steps ++ [lit ""] in
    let steps := steps ++ [rule] in
    let steps := steps ++ [lit "Complete conversion: " ++ ostr ++ lit " (octal) = "
                             ++ out_value ++ lit " (hexadecimal)"] in
    Return (WithSteps out_value steps)
  else
    r <- oct_to_dec ostr false ;;
    dec_to_hex (value r) false.

Definition hex_to_bin (hstr : str) (show_steps : bool) : outcome (ret str) :=
  if show_steps then
    let steps : list str := [] in
    let steps := steps ++ [lit "Starting hexadecimal to binary conversion of " ++ hstr] in
    let steps := steps ++ [lit "Step 1: Convert hexadecimal to decimal"] in
    let steps := steps ++ [rule] in
    r <- hex_to_dec hstr true ;;
    '(dec_value, to_dec_steps) <- unpack r ;;
    let steps := steps ++ to_dec_steps in
    let steps := steps ++ [lit ""] in
    let steps := steps ++ [lit "Step 2: Convert decimal to binary"] in
    let steps := steps ++ [rule] in
    r <- dec_to_bin dec_value true ;;
    '(out_value, from_dec_steps) <- unpack r ;;
    let steps := steps ++ from_dec_steps in
    let steps := steps ++ [lit ""] in
    let steps := steps ++ [rule] in
    let steps := steps ++ [lit "Complete conversion: " ++ hstr ++ lit " (hexadecimal) = "
                             ++ out_value ++ lit " (binary)"] in
    Return (WithSteps out_value steps)
  else
    r <- hex_to_dec hstr false ;;
    dec_to_bin (value r) false.

Definition hex_to_oct (hstr : str) (show_steps : bool) : outcome (ret str) :=
  if show_steps then
    let steps : list str := [] in
    let steps := steps ++ [lit "Starting hexadecimal to octal conversion of " ++ hstr] in
    let steps := steps ++ [lit "Step 1: Convert hexadecimal to decimal"] in
    let steps := steps ++ [rule] in
    r <- hex_to_dec hstr true ;;
    '(dec_value, to_dec_steps) <- unpack r ;;
    let steps := steps ++ to_dec_steps in
    let steps := steps ++ [lit ""] in
    let steps := steps ++ [lit "Step 2: Convert decimal to octal"] in
    let steps := steps ++ [rule] in
    r <- dec_to_oct dec_value true ;;
    '(out_value, from_dec_steps) <- unpack r ;;
    let steps := steps ++ from_dec_steps in
    let steps := steps ++ [lit ""] in
    let steps := steps ++ [rule] in
    let steps := steps ++ [lit "Complete conversion: " ++ hstr ++ lit " (hexadecimal) = "
                             ++ out_value ++ lit " (octal)"] in
    Return (WithSteps out_value steps)
  else
    r <- hex_to_dec hstr false ;;
    dec_to_oct (value r) false.

(** * 2. UI helpers and colour schemes *)

(** ** The console *)

(** The console: the lines the user still has to type, and the
    characters written so far. *)
Record console : Type := { stdin : list str; stdout : str }.

(** How a call of this part can fail: with an exception of the
    converters, with the [EOFError] of [input] at the end of the input,
    or with the [KeyError] of a subscript. *)
Inductive failure : Type :=
| Exception (e : exn)
| EOFError
| KeyError (key : str).

(** How such a call ends: with a value, with a failure, or, in the
    model only, with a loop that has used up its fuel. *)
Inductive result (A : Type) : Type :=
| Done (a : A)
| Failed (f : failure)
| Starved.
Arguments Done {A} a.
Arguments Failed {A} f.
Arguments Starved {A}.

(** A call that reads and writes: it takes the console and gives it
    back with its result. *)
Definition io (A : Type) : Type := console -> result A * console.

Definition io_ret {A : Type} (a : A) : io A := fun w => (Done a, w).

Definition io_bind {A B : Type} (c : io A) (k : A -> io B) : io B :=
  fun w =>
    match c w with
    | (Done a, w') => k a w'
    | (Failed f, w') => (Failed f, w')
    | (Starved, w') => (Starved, w')
    end.

Notation "x <~ c ;; k" := (io_bind c (fun x => k))
  (at level 61, c at next level, right associativity).

(** A call of a function that does not touch the console. *)
Definition lift {A : Type} (c : outcome A) : io A :=
  fun w =>
    match c with
    | Return a => (Done a, w)
    | Raise e => (Failed (Exception e), w)
    | OutOfFuel => (Starved, w)
    end.

(** [input(prompt)]: writes the prompt, then reads a line, or raises
    [EOFError] when there is none. *)
Definition input (prompt : str) : io str :=
  fun w =>
    let w' := {| stdin := tl (stdin w); stdout := stdout w ++ prompt |} in
    match stdin w with
    | [] => (Failed EOFError, w')
    | line :: _ => (Done line, w')
    end.

(** [print(s)]: writes the string and a line feed. *)
Definition print (s : str) : io unit :=
  fun w => (Done tt, {| stdin := stdin w; stdout := stdout w ++ s ++ [10] |}).

(** [try: body] followed by [except ValueError as e: handler], the
    handler being given [str(e)]. *)
Definition except_ValueError {A : Type} (body : io A) (handler : str -> io A) : io A :=
  fun w =>
    match body w with
    | (Failed (Exception (ValueError msg)), w') => handler msg w'
    | r => r
    end.

(** One round of the loop of [read_number]: [Some s] when the round
    returns [s], [None] when the loop goes on. *)
Definition read_number_round (prompt : str) (validator : str -> outcome bool)
    (error_msg : str) : io (option str) :=
  except_ValueError
    (line <~ input prompt ;;
     let s := strip line in
     ok <~ lift (validator s) ;;
     if ok then io_ret (Some s)
     else lift (Raise (ValueError error_msg)))
    (fun e => _ <~ print ([10007] ++ lit "  " ++ e) ;; io_ret None).

(** The [while True] of [read_number]. *)
Fixpoint read_number_loop (fuel : nat) (prompt : str) (validator : str -> outcome bool)
    (error_msg : str) : io str :=
  match fuel with
  | O => fun w => (Starved, w)
  | S fuel' =>
      r <~ read_number_round prompt validator error_msg ;;
      match r with
      | Some s => io_ret s
      | None => read_number_loop fuel' prompt validator error_msg
      end
  end.

(** Every round of the loop reads a line, so that the lines of the
    input bound the rounds: one more than there are lines is fuel
    enough. *)
Definition read_number (prompt : str) (validator : str -> outcome bool)
    (error_msg : str) : io str :=
  fun w => read_number_loop (S (length (stdin w))) prompt validator error_msg w.

Definition read_bin : io str :=
  read_number (lit "Enter binary: ")
    (fun s => Return (fullmatch (Cat minus_opt (Plus (Class [One (ch "0"); One (ch "1")]))) s))
    (lit "Invalid binary number (use only 0 and 1, optional negative sign)").



(** ** Colour schemes *)


(** A [dict] with string keys, in the order of its insertions. *)
Definition dict (V : Type) : Type := list (str * V).






Module Colors.

Record t : Type := { scheme : str; colors : dict str }.



End Colors.



(** * 3. The notions of the statements *)

(** ** Positional numerals *)

(** The bases the converters accept. *)
Definition valid_base (b : Z) : Prop := MIN_BASE <= b <= MAX_BASE.

(** The value of a list of digits, least significant first. *)
Fixpoint eval_le (b : Z) (ds : list Z) : Z :=
  match ds with
  | [] => 0
  | d :: t => d + b * eval_le b t
  end.

(** Every digit of the list is a digit of base [b]. *)
Definition digits_in (b : Z) (ds : list Z) : Prop := Forall (fun d => 0 <= d < b) ds.

(** The digits of a non-negative [m] in base [b], least significant first. *)
Definition num_digits (b m : Z) : list Z :=
  if m <=? 0 then [0] else digits_le (fuel_for m) b m.

Definition sign_str (negative : bool) : str := if negative then lit "-" else [].

(** The numeral of an integer in sign and magnitude: what the generic,
    the octal and the hexadecimal converter print. *)
Definition signed_numeral (b n : Z) : str :=
  sign_str (n <? 0) ++ map (digit_char BASE_DIGITS) (rev (num_digits b (Z.abs n))).

(** The number whose binary digits [dec_to_bin] prints for a negative [n]. *)
Definition twos_complement (n : Z) : Z := Z.shiftl 1 (bit_length n + 1) + n.

(** The numeral [dec_to_bin] prints: for a negative number, the sign
    and the digits of its two's complement. *)
Definition dec_to_bin_numeral (n : Z) : str :=
  if n <? 0 then lit "-" ++ map (digit_char BASE_DIGITS) (rev (num_digits 2 (twos_complement n)))
  else map (digit_char BASE_DIGITS) (rev (num_digits 2 n)).

(** ** Numerals as strings *)

(** The value of a digit character, where it has one. *)
Definition digit_val (c : char) : Z :=
  match str_index BASE_DIGITS c with Return v => v | _ => 0 end.

(** The characters of [BASE_DIGITS], and the decimal ones among them. *)
Definition is_digit_char (c : char) : Prop :=
  exists d, 0 <= d < 16 /\ c = digit_char BASE_DIGITS d.

Definition is_decimal_char (c : char) : Prop :=
  exists d, 0 <= d < 10 /\ c = digit_char BASE_DIGITS d.

(** A non-empty string all of whose characters are in the class. *)
Definition all_in (items : list citem) (s : str) : bool :=
  match s with
  | [] => false
  | _ :: _ => forallb (in_class items) s
  end.

(** The string without the minus sign it may start with. *)
Definition unsigned_part (s : str) : str :=
  if startswith s (lit "-") then tl s else s.

(** The strings [base_to_dec] accepts in base [b]: those its pattern
    matches once the sign is off and the letters are capitals. *)
Definition valid_numeral (b : Z) (s : str) : bool :=
  all_in (map One (slice_to BASE_DIGITS b)) (upper (unsigned_part s)).

(** The digit characters of base [b], capital and small. *)
Definition numeral_class (b : Z) : list citem :=
  map One (slice_to BASE_DIGITS b) ++ map One (lower (slice_to BASE_DIGITS b)).

(** A numeral of base [b]: digits below [b], at least one, after at
    most one minus sign. *)
Definition is_numeral (b : Z) (s : str) : bool :=
  all_in (numeral_class b) (unsigned_part s).

(** No zero in front of another digit, and no sign on zero. *)
Definition canonical (s : str) : bool :=
  match unsigned_part s with
  | [] => false
  | c :: t =>
      if c =? ch "0" then
        match t with
        | [] => negb (startswith s (lit "-"))
        | _ :: _ => false
        end
      else true
  end.

(** The number a numeral denotes in base [b]: its digits are read in
    either case, after the minus sign it may start with. *)
Definition base_to_dec_value (s : str) (b : Z) : Z :=
  let magnitude := eval_le b (map digit_val (rev (upper (unsigned_part s)))) in
  if startswith s (lit "-") then - magnitude else magnitude.

(** ** The steps *)

(** The lines a digit loop adds to the steps, one per round: round [k]
    works on [n], the next one on [n / b]. *)
Fixpoint rows_of (mk_row : Z -> Z -> str) (f : nat) (b k n : Z) : list str :=
  match f with
  | O => []
  | S f' => if n <=? 0 then [] else mk_row k n :: rows_of mk_row f' b (k + 1) (n / b)
  end.

(** The lines an accumulation loop adds to the steps, one per digit. *)
Fixpoint rows_from (mk_row : Z -> char -> str) (i : Z) (l : list char) : list str :=
  match l with
  | [] => []
  | c :: t => mk_row i c :: rows_from mk_row (i + 1) t
  end.

(** The sum an accumulation loop builds: digit [j] of the list weighs
    [b ^ (i + j)]. *)
Fixpoint weighted_sum (b : Z) (digit_value : char -> Z) (i : Z) (l : list char) : Z :=
  match l with
  | [] => 0
  | c :: t => digit_value c * b ^ i + weighted_sum b digit_value (i + 1) t
  end.

(** The numbers of the line of digit [c] at position [i] are within
    the limit: the position and the value of the digit there. *)
Definition row_within_limit (b i : Z) (c : char) : bool :=
  formattable i && formattable (digit_val c * b ^ i).

(** A numeral can be read with steps: the numbers of all its lines and
    its value are within the limit. *)
Definition traceable (b : Z) (s : str) : bool :=
  forallb (fun x => row_within_limit b (fst x) (snd x))
    (enumerate (rev (upper (unsigned_part s))))
  && formattable (base_to_dec_value s b).

(** The numeral of an integer, right-aligned in a field of width [w]:
    what [format_int_w] returns for an integer within the limit. *)
Definition fmt_int (w : nat) (n : Z) : str :=
  let s := str_of_int n in spaces (w - length s) ++ s.


Definition dec_to_bin_record (k n : Z) : str :=
  fmt_int 4 k ++ lit " | " ++ fmt_int 7 n ++ lit " | 2           | " ++ str_of_int (n mod 2).


Definition dec_to_hex_record (k n : Z) : str :=
  fmt_int 4 k ++ lit " | " ++ fmt_int 7 n ++ lit " | 16          | "
  ++ fmt_int 9 (n mod 16) ++ lit " | " ++ [digit_char HEX_DIGITS (n mod 16)].

Definition base_to_dec_record (b i : Z) (c : char) : str :=
  fmt_int 8 i ++ lit " | " ++ fmt_str 5 [c] ++ lit " | "
  ++ fmt_int 11 (digit_val c) ++ lit " | " ++ fmt_int 38 (digit_val c * b ^ i).

Definition bin_to_dec_record (i : Z) (c : char) : str :=
  fmt_int 8 i ++ lit " | " ++ fmt_str 5 [c] ++ lit " | " ++ fmt_int 24 (digit_val c * 2 ^ i).

Definition oct_to_dec_record (i : Z) (c : char) : str :=
  fmt_int 8 i ++ lit " | " ++ fmt_str 5 [c] ++ lit " | " ++ fmt_int 24 (digit_val c * 8 ^ i).

Definition hex_to_dec_record (i : Z) (c : char) : str :=
  fmt_int 8 i ++ lit " | " ++ fmt_str 5 [c] ++ lit " | "
  ++ fmt_int 11 (digit_val c) ++ lit " | " ++ fmt_int 35 (digit_val c * 16 ^ i).


(** The steps of [base_to_dec s b] for a numeral [s] of base [b]. *)
Definition base_to_dec_trace (s : str) (b : Z) : list str :=
  let negative := startswith s (lit "-") in
  (if negative then
     [lit "Converting negative number: " ++ s;
      lit "Removing negative sign for conversion: " ++ unsigned_part s]
   else [])
  ++ [lit "Starting base " ++ str_of_int b ++ lit " to decimal conversion of "
        ++ unsigned_part s ++ lit ":";
      lit "Position | Digit | Digit Value | Value = Digit Value " ++ [215]
        ++ lit " " ++ str_of_int b ++ lit "^Position";
      lit "-------- | ----- | ----------- | -----------------------------------------"]
  ++ rows_from (base_to_dec_record b) 0 (rev (upper (unsigned_part s)))
  ++ (if negative then [lit "Applying negative sign: " ++ str_of_int (base_to_dec_value s b)]
      else [])
  ++ [lit "Final result: " ++ s ++ lit " in base " ++ str_of_int b ++ lit " = "
        ++ str_of_int (base_to_dec_value s b) ++ lit " in decimal"].




(** ** The cross conversions *)

Inductive fixed_base : Type := Bin | Oct | Hex.

Definition radix (fb : fixed_base) : Z :=
  match fb with Bin => 2 | Oct => 8 | Hex => 16 end.

(** The two legs of a cross conversion. *)
Definition to_dec (fb : fixed_base) : str -> bool -> outcome (ret Z) :=
  match fb with Bin => bin_to_dec | Oct => oct_to_dec | Hex => hex_to_dec end.

Definition from_dec (fb : fixed_base) : Z -> bool -> outcome (ret str) :=
  match fb with Bin => dec_to_bin | Oct => dec_to_oct | Hex => dec_to_hex end.

(** The named converter from one base to another. *)
Definition bridge (b1 b2 : fixed_base) : option (str -> bool -> outcome (ret str)) :=
  match b1, b2 with
  | Bin, Oct => Some bin_to_oct
  | Bin, Hex => Some bin_to_hex
  | Oct, Bin => Some oct_to_bin
  | Oct, Hex => Some oct_to_hex
  | Hex, Bin => Some hex_to_bin
  | Hex, Oct => Some hex_to_oct
  | _, _ => None
  end.


(** ** The sniffer, as the specification words it *)

(** The value of a digit character in either case. *)
Definition digit_value_ci (c : char) : option Z :=
  if (ch "0" <=? c) && (c <=? ch "9") then Some (c - ch "0")
  else if (ch "A" <=? c) && (c <=? ch "F") then Some (c - ch "A" + 10)
  else if (ch "a" <=? c) && (c <=? ch "f") then Some (c - ch "a" + 10)
  else None.

Definition digit_below (b : Z) (c : char) : bool :=
  match digit_value_ci c with
  | Some d => d <? b
  | None => false
  end.

(** A non-empty body all of whose characters are digits below [b]. *)
Definition all_digits_below (b : Z) (body : str) : bool :=
  match body with
  | [] => false
  | _ :: _ => forallb (digit_below b) body
  end.

(** The string starts with ["0"] and the given letter, small or capital. *)
Definition has_prefix_ci (t : str) (small : char) : bool :=
  match t with
  | c0 :: c1 :: _ => (c0 =? ch "0") && ((c1 =? small) || (c1 =? small - 32))
  | _ => false
  end.

(** Trim; a prefix decides without a look at the rest; otherwise the
    narrowest class of digits that holds the body, the text after the
    optional minus sign. *)
Definition detect_base_spec (s : str) : Z :=
  let t := strip s in
  if has_prefix_ci t (ch "b") then 2
  else if has_prefix_ci t (ch "o") then 8
  else if has_prefix_ci t (ch "x") then 16
  else
    let body := unsigned_part t in
    if all_digits_below 2 body then 2
    else if all_digits_below 8 body then 8
    else if all_digits_below 10 body then 10
    else if all_digits_below 16 body then 16
    else 0.

(** ** Floats *)

(** The exponent binary64 gives a number of [e] bits above the point. *)
Definition fexp64 (e : Z) : Z := fexp prec emax e.

(** [shifted M k mrs]: [mrs] is what is left of [M] after [k] shifts to
    the right, together with the last bit shifted out. *)
Definition shifted (M k : Z) (mrs : shr_record) : Prop :=
  shr_m mrs = M / 2 ^ k /\ (1 <= k -> shr_r mrs = Z.testbit M (k - 1)).


(** The truncation of a float. *)
Definition trunc (x : float) : Z :=
  match x with
  | S754_finite s m e => cond_Zopp s (Z.shiftl (Zpos m) e)
  | _ => 0
  end.


Definition fone : float := mkfloat 1 0.

(** A binary64 value strictly between 0 and 1 in magnitude. *)
Definition proper_fraction (x : float) : Prop :=
  valid_binary prec emax x = true
  /\ SFeqb x fzero = false
  /\ SFltb (SFabs x) fone = true.

(** The floats of the examples: [0.5], [1.5], [5.0], and the binary64
    value of [-0.1]. *)
Definition one_half : float := mkfloat 1 (-1).
Definition one_and_a_half : float := mkfloat 3 (-1).
Definition five : float := mkfloat 5 0.

(** A printer of floats, for the examples that need one. *)
Definition plain_printer : float_printer :=
  {| repr_float := fun _ => []; fixed := fun _ _ _ => [] |}.

(** ** Strings and answers *)

(** An ASCII character. *)
Definition is_ascii (c : char) : Prop := 0 <= c < 128.

(** Two calls answer alike: both return the same value, or both raise
    a [ValueError]. *)
Definition same_answer {A : Type} (show_steps : bool) (c1 c2 : outcome (ret A)) : Prop :=
  (exists v, yields show_steps c1 v /\ yields show_steps c2 v)
  \/ (exists m1 m2, c1 = Raise (ValueError m1) /\ c2 = Raise (ValueError m2)).


(** The string, once trimmed, starts with one of the prefixes [0b],
    [0o] and [0x], in either case. *)
Definition has_base_prefix (s : str) : bool :=
  has_prefix_ci (strip s) (ch "b") || has_prefix_ci (strip s) (ch "o")
  || has_prefix_ci (strip s) (ch "x").

(** ** The console and the colours *)

(** What [read_number] writes for a line it refuses: the prompt it was
    read after, and the complaint. *)
Definition complaint (prompt error_msg : str) : str :=
  prompt ++ [10007] ++ lit "  " ++ error_msg ++ [10].




(** ** The steps of the fixed-base converters *)




(** The number the digit loop of a fixed-base converter starts from:
    the magnitude, or for [dec_to_bin] of a negative number its two's
    complement. *)
Definition loop_start (fb : fixed_base) (n : Z) : Z :=
  match fb with
  | Bin => if n <? 0 then twos_complement n else n
  | _ => Z.abs n
  end.

(** * 4. Lemmas *)

(** ** The limit of the decimal digits *)

Lemma usize_nb_digits (d : uint) : Unsigned.usize d = N.of_nat (nb_digits d).
Proof.
  induction d; cbn [Unsigned.usize nb_digits]; rewrite ?IHd; lia.
Qed.

Lemma of_lu_rev_cons (d : uint) :
  d <> Nil ->
  Unsigned.of_lu (Decimal.rev d)
  = (Unsigned.of_lu (Decimal.rev (Unsigned.tl d))
     + Unsigned.hd d * 10 ^ Unsigned.usize (Unsigned.tl d))%N.
Proof.
  intros Hd.
  destruct d; try congruence; unfold Decimal.rev at 1;
    cbn [Decimal.revapp Unsigned.tl Unsigned.hd];
    rewrite Unsigned.of_lu_revapp; reflexivity.
Qed.

Lemma hd_bound (d : uint) : (Unsigned.hd d <= 9)%N.
Proof. destruct d; cbn; lia. Qed.

Lemma of_lu_rev_upper (d : uint) :
  (Unsigned.of_lu (Decimal.rev d) < 10 ^ Unsigned.usize d)%N.
Proof.
  induction d;
    try (rewrite of_lu_rev_cons by discriminate;
         cbn [Unsigned.tl Unsigned.hd Unsigned.usize]; rewrite N.pow_succ_r'; lia).
  cbn. lia.
Qed.

Lemma of_lu_rev_lower (d : uint) :
  d <> Nil -> Unsigned.hd d <> 0%N ->
  (10 ^ Unsigned.usize (Unsigned.tl d) <= Unsigned.of_lu (Decimal.rev d))%N.
Proof.
  intros Hd Hh. rewrite of_lu_rev_cons by assumption.
  assert (1 <= Unsigned.hd d)%N by lia. nia.
Qed.

(** The numeral of a positive number does not start with a zero. *)
Lemma to_uint_head (p : positive) : Unsigned.hd (Pos.to_uint p) <> 0%N.
Proof.
  pose proof (Unsigned.to_of (Pos.to_uint p)) as H.
  rewrite Unsigned.of_to in H. cbn [N.to_uint] in H.
  pose proof (Unsigned.to_uint_nonzero p) as Hz.
  destruct (Pos.to_uint p) eqn:E; cbn; try lia.
  - now destruct (Unsigned.to_uint_nonnil p).
  - exfalso. unfold unorm in H. destruct (nzhead (D0 u)) eqn:En; try congruence.
    now apply (DecimalFacts.nzhead_nonzero (D0 u) u0).
Qed.

Lemma length_string_of_uint (d : uint) :
  length (list_ascii_of_string (NilEmpty.string_of_uint d)) = nb_digits d.
Proof. induction d; cbn; congruence. Qed.

Lemma str_of_int_pos_length (p : positive) :
  length (str_of_int (Z.pos p)) = nb_digits (Pos.to_uint p).
Proof.
  unfold str_of_int, lit. rewrite length_map.
  cbn [Z.to_int Pos.to_int NilZero.string_of_int]. unfold NilZero.string_of_uint.
  pose proof (Unsigned.to_uint_nonnil p).
  destruct (Pos.to_uint p) eqn:E; try congruence; rewrite <- E; apply length_string_of_uint.
Qed.

(** A positive number lies between the two powers of ten that the
    number of its decimal digits names. *)
Lemma decimal_digits_pos (p : positive) :
  let k := len (str_of_int (Z.pos p)) in
  1 <= k /\ 10 ^ (k - 1) <= Z.pos p < 10 ^ k.
Proof.
  cbv zeta. unfold len. rewrite str_of_int_pos_length.
  set (d := Pos.to_uint p).
  assert (Hd : d <> Nil) by apply Unsigned.to_uint_nonnil.
  assert (Hv : Unsigned.of_lu (Decimal.rev d) = N.pos p)
    by (rewrite <- Unsigned.of_uint_alt; apply Unsigned.of_to).
  pose proof (of_lu_rev_upper d) as Hu.
  pose proof (of_lu_rev_lower d Hd (to_uint_head p)) as Hl.
  rewrite Hv in Hu, Hl. rewrite usize_nb_digits in Hu.
  assert (Ht : Unsigned.usize (Unsigned.tl d) = N.of_nat (nb_digits d - 1)).
  { rewrite usize_nb_digits. destruct d; try congruence; cbn [Unsigned.tl nb_digits];
      f_equal; lia. }
  rewrite Ht in Hl.
  assert (H1 : (1 <= nb_digits d)%nat) by (destruct d; try congruence; cbn; lia).
  split; [lia|].
  apply N2Z.inj_le in Hl. apply N2Z.inj_lt in Hu.
  rewrite N2Z.inj_pow in Hl, Hu. rewrite !nat_N_Z in Hl, Hu.
  change (Z.of_N 10) with 10 in *. change (Z.of_N (N.pos p)) with (Z.pos p) in *.
  replace (Z.of_nat (nb_digits d) - 1) with (Z.of_nat (nb_digits d - 1)) by lia.
  split; assumption.
Qed.

Lemma decimal_digits (n L : Z) :
  1 <= L -> (len (str_of_int (Z.abs n)) <= L <-> Z.abs n < 10 ^ L).
Proof.
  intros HL. destruct (Z.abs n) as [|p|p] eqn:E; [| |lia].
  - change (len (str_of_int 0)) with 1.
    assert (0 < 10 ^ L) by (apply Z.pow_pos_nonneg; lia). lia.
  - destruct (decimal_digits_pos p) as [Hk [Hlo Hhi]].
    set (k := len (str_of_int (Z.pos p))) in *. split; intros H.
    + assert (10 ^ k <= 10 ^ L) by (apply Z.pow_le_mono_r; lia). lia.
    + destruct (Z_le_gt_dec k L) as [|Hgt]; [assumption|]. exfalso.
      assert (10 ^ L <= 10 ^ (k - 1)) by (apply Z.pow_le_mono_r; lia). lia.
Qed.

(** An integer is within the limit when it is below [10 ^ 4300] in
    magnitude. *)
Lemma formattable_spec (n : Z) :
  formattable n = true <-> Z.abs n < 10 ^ int_max_str_digits.
Proof.
  unfold formattable. rewrite Z.leb_le. apply decimal_digits. discriminate.
Qed.

Lemma formattable_le (m n : Z) :
  Z.abs m <= Z.abs n -> formattable n = true -> formattable m = true.
Proof.
  intros Hle Hn. apply formattable_spec. apply formattable_spec in Hn. lia.
Qed.

Lemma formattable_small (n : Z) : Z.abs n <= 1114111 -> formattable n = true.
Proof.
  intros H. apply (formattable_le n 1114111); [lia | reflexivity].
Qed.

Lemma formattable_opp (n : Z) : formattable (- n) = formattable n.
Proof. unfold formattable. now rewrite Z.abs_opp. Qed.

Lemma format_int_ok (n : Z) :
  formattable n = true -> format_int n = Return (str_of_int n).
Proof. unfold format_int. now intros ->. Qed.

Lemma format_int_w_ok (w : nat) (n : Z) :
  formattable n = true -> format_int_w w n = Return (fmt_int w n).
Proof. unfold format_int_w, format_int. now intros ->. Qed.


Lemma format_int_w_limit (w : nat) (n : Z) :
  formattable n = false -> format_int_w w n = Raise digits_limit_error.
Proof. unfold format_int_w, format_int. now intros ->. Qed.

(** [fmt] proves that a number is within the limit, from its size or
    from a larger number that is; [formats] then replaces the
    conversions by their results. *)
Ltac fmt :=
  first
    [ assumption
    | apply formattable_small; lia
    | match goal with
      | H : formattable ?n = true |- formattable ?m = true =>
          apply (formattable_le m n); [lia | exact H]
      end ].

Ltac formats :=
  cbn [bind];
  repeat (match goal with
          | |- context [format_int ?n] => rewrite (format_int_ok n) by fmt
          | |- context [format_int_w ?w ?n] => rewrite (format_int_w_ok w n) by fmt
          end;
          cbn [bind]).

(** ** Positional numerals *)

Lemma pow2_S (f : nat) : 2 ^ Z.of_nat (S f) = 2 * 2 ^ Z.of_nat f.
Proof. rewrite Nat2Z.inj_succ, Z.pow_succ_r by lia. reflexivity. Qed.

Lemma div_fuel (b n : Z) (f : nat) :
  2 <= b -> 0 < n < 2 ^ Z.of_nat (S f) -> 0 <= n / b < 2 ^ Z.of_nat f.
Proof.
  intros Hb [Hn Hlt]. rewrite pow2_S in Hlt. split.
  - apply Z.div_pos; lia.
  - apply Z.div_lt_upper_bound; nia.
Qed.

Lemma fuel_for_bound (n : Z) : 0 <= n -> n < 2 ^ Z.of_nat (fuel_for n).
Proof.
  intros Hn. unfold fuel_for, bit_length.
  destruct (Z.eqb_spec n 0) as [->|Hz]; [reflexivity|].
  rewrite Z.abs_eq by lia.
  pose proof (Z.log2_nonneg n). rewrite Z2Nat.id by lia.
  apply Z.log2_spec. lia.
Qed.


Lemma digits_le_in (b : Z) (f : nat) : forall n,
  2 <= b -> digits_in b (digits_le f b n).
Proof.
  induction f as [|f IH]; intros n Hb; cbn [digits_le].
  - constructor.
  - destruct (n <=? 0); constructor.
    + apply Z.mod_pos_bound. lia.
    + apply IH, Hb.
Qed.






(** ** The digit loops *)




Section DigitLoop.

Context {L : Type}.
Variable body : Z * option Z * list L * list str -> outcome (Z * option Z * list L * list str).
Variable b : Z.
Variable mk_digit : Z -> L.
Variable mk_row : Z -> Z -> str.
Variable N : Z.
Hypothesis base_ok : 2 <= b.

(** With [step_num] bound every round appends one digit and one line.
    The rounds of a loop started on [N] with [step_num = 1] keep the sum
    of the number and of the step below [N + 1], so that both stay
    below [N]. *)
Lemma while_traced :
  (forall n k ds st, 0 < n -> 1 <= k -> k + n <= N + 1 ->
     body (n, Some k, ds, st)
     = Return (n / b, Some (k + 1), ds ++ [mk_digit (n mod b)], st ++ [mk_row k n])) ->
  forall (f : nat) n k ds st, 0 <= n < 2 ^ Z.of_nat f -> 1 <= k -> k + n <= N + 1 ->
  while f (fun '(working_n, _, _, _) => negb (working_n =? 0)) body (n, Some k, ds, st)
  = Return (0, Some (k + len (digits_le f b n)),
            ds ++ map mk_digit (digits_le f b n), st ++ rows_of mk_row f b k n).
Proof.
  intros Hstep. induction f as [|f IH]; intros n k ds st Hn Hk HN.
  - assert (n = 0) by (simpl in Hn; lia). subst n. simpl.
    now rewrite Z.add_0_r, !app_nil_r.
  - cbn [while digits_le rows_of].
    destruct (Z.eqb_spec n 0) as [->|Hnz].
    + simpl. now rewrite Z.add_0_r, !app_nil_r.
    + destruct (Z.leb_spec n 0); [lia|].
      simpl negb. cbv iota. rewrite Hstep by lia. cbn [bind].
      assert (Hq : n / b < n) by (apply Z.div_lt; lia).
      rewrite IH by (try apply div_fuel; lia).
      unfold len. cbn [length map]. rewrite Nat2Z.inj_succ, <- !app_assoc.
      replace (k + 1 + Z.of_nat (length (digits_le f b (n / b))))
        with (k + Z.succ (Z.of_nat (length (digits_le f b (n / b))))) by lia.
      reflexivity.
Qed.

(** With [step_num] unbound the first round fails. *)
Lemma while_untraced :
  (forall n ds st, 0 < n ->
     body (n, None, ds, st) = Raise (UnboundLocalError (lit "step_num"))) ->
  forall n ds st, 0 < n ->
  while (fuel_for n) (fun '(working_n, _, _, _) => negb (working_n =? 0)) body
    (n, None, ds, st)
  = Raise (UnboundLocalError (lit "step_num")).
Proof.
  intros Hstep n ds st Hn.
  pose proof (fuel_for_bound n ltac:(lia)) as Hf.
  destruct (fuel_for n) as [|f]; [simpl in Hf; lia|].
  cbn [while]. destruct (Z.eqb_spec n 0); [lia|].
  simpl negb. cbv iota. now rewrite Hstep.
Qed.

(** Whatever its rounds do, a loop whose counter loses a bit in every
    round that returns does not use up the fuel of that counter. *)
Lemma while_fuel :
  (forall n k ds st, 0 < n ->
     match body (n, k, ds, st) with
     | Return s' => exists k' ds' st', s' = (n / b, k', ds', st')
     | Raise _ => True
     | OutOfFuel => False
     end) ->
  forall (f : nat) n k ds st, 0 <= n < 2 ^ Z.of_nat f ->
  while f (fun '(working_n, _, _, _) => negb (working_n =? 0)) body (n, k, ds, st)
  <> OutOfFuel.
Proof.
  intros Hstep. induction f as [|f IH]; intros n k ds st Hn.
  - assert (n = 0) by (simpl in Hn; lia). subst n. discriminate.
  - cbn [while]. destruct (Z.eqb_spec n 0) as [->|Hnz]; [discriminate|].
    simpl negb. cbv iota.
    specialize (Hstep n k ds st ltac:(lia)).
    destruct (body (n, k, ds, st)) as [s'| |].
    + destruct Hstep as [k' [ds' [st' ->]]].
      cbn [bind]. apply IH. apply div_fuel; lia.
    + discriminate.
    + contradiction.
Qed.

End DigitLoop.

(** ** [dec_to_base] *)

Lemma valid_base_check (b : Z) :
  valid_base b -> negb ((MIN_BASE <=? b) && (b <=? MAX_BASE)) = false.
Proof.
  unfold valid_base. intros [H1 H2].
  apply Z.leb_le in H1, H2. now rewrite H1, H2.
Qed.

Lemma invalid_base_check (b : Z) :
  ~ valid_base b -> negb ((MIN_BASE <=? b) && (b <=? MAX_BASE)) = true.
Proof.
  unfold valid_base. intros H.
  destruct (Z.leb_spec MIN_BASE b), (Z.leb_spec b MAX_BASE); try reflexivity. lia.
Qed.

Lemma getitem_digit (alphabet : str) (d : Z) :
  0 <= d < len alphabet -> getitem alphabet d = Return (digit_char alphabet d).
Proof.
  intros [H0 H1]. unfold getitem.
  destruct (Z.ltb_spec d 0); [lia|].
  apply Z.leb_le in H0. apply Z.ltb_lt in H1. now rewrite H0, H1.
Qed.



Lemma dec_to_base_body_untraced (b n : Z) (ds : list char) (st : list str) :
  valid_base b -> 0 < n ->
  dec_to_base_body b false (n, None, ds, st) = Raise (UnboundLocalError (lit "step_num")).
Proof.
  unfold valid_base, MIN_BASE, MAX_BASE. intros Hb Hn.
  unfold dec_to_base_body, py_mod, py_floordiv.
  destruct (Z.eqb_spec b 0); [lia|]. cbn [bind].
  rewrite getitem_digit; [reflexivity|].
  pose proof (Z.mod_pos_bound n b). change (len BASE_DIGITS) with 16. lia.
Qed.

(** A round of the loop that returns has divided the number by the base. *)
Lemma dec_to_base_body_round (b : Z) (show_steps : bool) (n : Z) (k : option Z)
    (ds : list char) (st : list str) :
  match dec_to_base_body b show_steps (n, k, ds, st) with
  | Return s' => exists k' ds' st', s' = (n / b, k', ds', st')
  | Raise _ => True
  | OutOfFuel => False
  end.
Proof.
  unfold dec_to_base_body, py_mod, py_floordiv, dec_to_base_row, format_int_w, format_int,
    getitem.
  destruct (b =? 0); cbn [bind]; [exact I|].
  match goal with |- context [if ?c then Return _ else Raise IndexError] => destruct c end;
    cbn [bind]; try exact I.
  destruct show_steps, k as [k|]; cbn [bind load]; try exact I;
    repeat match goal with
           | |- context [formattable ?x] => destruct (formattable x); cbn [bind]
           end;
    try exact I; eexists _, _, _; reflexivity.
Qed.

(** Without [show_steps], a non-zero number never gets through the
    loop: its first round reads [step_num], which was never bound.  A
    negative number is formatted before the loop, whatever the flag. *)
Lemma dec_to_base_untraced (n b : Z) :
  n <> 0 -> valid_base b -> (n < 0 -> formattable n = true) ->
  dec_to_base n b false = Raise (UnboundLocalError (lit "step_num")).
Proof.
  intros Hn Hb Hf. unfold dec_to_base.
  destruct (Z.eqb_spec n 0); [contradiction|].
  rewrite (valid_base_check b Hb).
  destruct (Z.ltb_spec n 0) as [Hneg|Hpos]; cbv beta iota zeta.
  - specialize (Hf Hneg). formats.
    rewrite (while_untraced (dec_to_base_body b false)); try reflexivity;
      try (intros; apply dec_to_base_body_untraced; assumption); lia.
  - cbn [bind].
    rewrite (while_untraced (dec_to_base_body b false)); try reflexivity;
      try (intros; apply dec_to_base_body_untraced; assumption); lia.
Qed.




(** ** The patterns *)

Lemma matches_nil (s : str) : matches [] s = false.
Proof. induction s as [|c t IH]; [reflexivity | exact IH]. Qed.

Lemma matches_star_class (items : list citem) (s : str) :
  matches [Cat Eps (Star (Class items))] s = forallb (in_class items) s.
Proof.
  induction s as [|c t IH]; [reflexivity|].
  cbn [matches flat_map residuals nullable map app forallb].
  destruct (in_class items c); cbn [map app andb]; [exact IH | apply matches_nil].
Qed.

Lemma matches_plus_class (items : list citem) (s : str) :
  matches [Plus (Class items)] s = all_in items s.
Proof.
  destruct s as [|c t]; [reflexivity|].
  cbn [matches flat_map residuals map app all_in forallb].
  destruct (in_class items c); cbn [map app andb];
    [apply matches_star_class | apply matches_nil].
Qed.

Lemma matches_eps_plus_class (items : list citem) (s : str) :
  matches [Cat Eps (Plus (Class items))] s = all_in items s.
Proof.
  destruct s as [|c t]; [reflexivity|].
  cbn [matches flat_map residuals nullable map app all_in forallb].
  destruct (in_class items c); cbn [map app andb];
    [apply matches_star_class | apply matches_nil].
Qed.

Lemma fullmatch_plus_class (items : list citem) (s : str) :
  fullmatch (Plus (Class items)) s = all_in items s.
Proof. apply matches_plus_class. Qed.

Lemma fullmatch_signed_class (items : list citem) (s : str) :
  in_class items (ch "-") = false ->
  fullmatch (Cat minus_opt (Plus (Class items))) s = all_in items (unsigned_part s).
Proof.
  intros Hm. unfold fullmatch, unsigned_part, minus_opt.
  destruct s as [|c t]; [reflexivity|].
  cbn [matches flat_map residuals nullable map app startswith lit
       list_ascii_of_string tl in_class existsb in_item].
  rewrite orb_false_r, andb_true_r.
  destruct (Z.eqb_spec c (ch "-")) as [->|Hc].
  - rewrite Hm. cbn [map app]. apply matches_eps_plus_class.
  - cbn [map app all_in forallb]. rewrite app_nil_r.
    destruct (in_class items c); cbn [map andb];
      [apply matches_star_class | apply matches_nil].
Qed.

(** ** The accumulation loops *)

Section AccLoop.

Variable body : Z * char -> Z * list str -> outcome (Z * list str).
Variable b : Z.
Variable digit_value : char -> Z.
Variable mk_row : Z -> char -> str.
Variable row_ok : Z -> char -> bool.
Variable show_steps : bool.
Variable ok : char -> Prop.

Hypothesis body_step : forall i c acc st, ok c ->
  body (i, c) (acc, st)
  = if show_steps && negb (row_ok i c) then Raise digits_limit_error
    else Return (acc + digit_value c * b ^ i,
                 if show_steps then st ++ [mk_row i c] else st).

(** The loop adds up the digits, and with [show_steps] writes a line
    for each, unless one of the lines is beyond the limit. *)
Lemma for_each_digits (l : list char) : forall i acc st,
  Forall ok l ->
  for_each (enumerate_from i l) body (acc, st)
  = if show_steps && negb (forallb (fun x => row_ok (fst x) (snd x)) (enumerate_from i l))
    then Raise digits_limit_error
    else Return (acc + weighted_sum b digit_value i l,
                 if show_steps then st ++ rows_from mk_row i l else st).
Proof.
  induction l as [|c t IH]; intros i acc st Hok.
  - simpl. rewrite Z.add_0_r, andb_false_r.
    destruct show_steps; [now rewrite app_nil_r | reflexivity].
  - inversion Hok as [|? ? Hc Ht]; subst.
    cbn [enumerate_from for_each weighted_sum rows_from forallb fst snd].
    rewrite body_step by assumption.
    destruct show_steps; cbn [andb].
    + destruct (row_ok i c); cbn [negb andb bind]; [|reflexivity].
      rewrite IH by assumption. cbn [andb].
      destruct (forallb _ _); cbn [negb]; [|reflexivity].
      now rewrite Z.add_assoc, <- app_assoc.
    + cbn [bind]. rewrite IH by assumption. cbn [andb]. now rewrite Z.add_assoc.
Qed.

Lemma weighted_sum_eval (l : list char) : forall i,
  0 <= i -> weighted_sum b digit_value i l = b ^ i * eval_le b (map digit_value l).
Proof.
  induction l as [|c t IH]; intros i Hi; cbn [weighted_sum map eval_le].
  - lia.
  - rewrite IH by lia. rewrite Z.pow_add_r by lia. lia.
Qed.



End AccLoop.

(** ** Digits and their characters *)

Ltac digit_cases d :=
  let H := fresh in
  assert (H : d = 0 \/ d = 1 \/ d = 2 \/ d = 3 \/ d = 4 \/ d = 5 \/ d = 6 \/ d = 7
              \/ d = 8 \/ d = 9 \/ d = 10 \/ d = 11 \/ d = 12 \/ d = 13 \/ d = 14
              \/ d = 15) by lia;
  repeat (destruct H as [H|H]); subst d.

Lemma str_index_digit (d : Z) :
  0 <= d < 16 -> str_index BASE_DIGITS (digit_char BASE_DIGITS d) = Return d.
Proof. intros Hd. digit_cases d; reflexivity. Qed.

Lemma digit_val_char (d : Z) :
  0 <= d < 16 -> digit_val (digit_char BASE_DIGITS d) = d.
Proof. intros Hd. unfold digit_val. now rewrite str_index_digit. Qed.

Lemma upper_digit_char (d : Z) :
  0 <= d < 16 -> upper_char (digit_char BASE_DIGITS d) = [digit_char BASE_DIGITS d].
Proof. intros Hd. digit_cases d; reflexivity. Qed.

Lemma digit_char_not_minus (d : Z) :
  0 <= d < 16 -> digit_char BASE_DIGITS d <> ch "-".
Proof. intros Hd. digit_cases d; discriminate. Qed.

Lemma in_class_One (l : str) (c : char) :
  in_class (map One l) c = true <-> In c l.
Proof.
  unfold in_class. rewrite existsb_exists. split.
  - intros [i [Hi Hc]]. apply in_map_iff in Hi as [x [<- Hx]].
    simpl in Hc. apply Z.eqb_eq in Hc. now subst.
  - intros Hin. exists (One c). split; [now apply in_map | apply Z.eqb_refl].
Qed.

(** The characters the pattern of [base_to_dec] accepts in base [b] are
    the characters of the digits below [b]. *)
Lemma valid_char_digit (b : Z) (c : char) :
  valid_base b ->
  (in_class (map One (slice_to BASE_DIGITS b)) c = true
   <-> exists d, 0 <= d < b /\ c = digit_char BASE_DIGITS d).
Proof.
  unfold valid_base, MIN_BASE, MAX_BASE. intros Hb.
  rewrite in_class_One. unfold slice_to, digit_char. split.
  - intros Hin. apply (In_nth _ _ 0) in Hin as [k [Hk Hc]].
    rewrite length_firstn in Hk. change (length BASE_DIGITS) with 16%nat in Hk.
    rewrite nth_firstn in Hc.
    destruct (Nat.ltb_spec k (Z.to_nat b)); [|lia].
    exists (Z.of_nat k). rewrite Nat2Z.id. split; [lia | now symmetry].
  - intros [d [Hd ->]].
    assert (Hn : nth (Z.to_nat d) (firstn (Z.to_nat b) BASE_DIGITS) 0
                 = nth (Z.to_nat d) BASE_DIGITS 0).
    { rewrite nth_firstn. destruct (Nat.ltb_spec (Z.to_nat d) (Z.to_nat b)); [reflexivity | lia]. }
    rewrite <- Hn. apply nth_In. rewrite length_firstn.
    change (length BASE_DIGITS) with 16%nat. lia.
Qed.

Lemma digits_in_weaken (b b' : Z) (ds : list Z) :
  b <= b' -> digits_in b ds -> digits_in b' ds.
Proof.
  intros Hb H. induction H; constructor; [lia | assumption].
Qed.

Lemma upper_digits (ds : list Z) :
  digits_in 16 ds ->
  upper (map (digit_char BASE_DIGITS) ds) = map (digit_char BASE_DIGITS) ds.
Proof.
  intros H. induction H as [|d t Hd _ IH]; [reflexivity|].
  unfold upper in *. cbn [map flat_map]. now rewrite upper_digit_char, IH.
Qed.

Lemma digit_val_digits (ds : list Z) :
  digits_in 16 ds -> map digit_val (map (digit_char BASE_DIGITS) ds) = ds.
Proof.
  intros H. induction H as [|d t Hd _ IH]; [reflexivity|].
  cbn [map]. now rewrite digit_val_char, IH.
Qed.

Lemma all_in_digits (b : Z) (ds : list Z) :
  valid_base b -> ds <> [] -> digits_in b ds ->
  all_in (map One (slice_to BASE_DIGITS b)) (map (digit_char BASE_DIGITS) ds) = true.
Proof.
  intros Hb Hne H. destruct ds as [|d t]; [congruence|].
  cbn [all_in map]. change (digit_char BASE_DIGITS d :: map (digit_char BASE_DIGITS) t)
    with (map (digit_char BASE_DIGITS) (d :: t)).
  apply forallb_forall. intros c Hc. apply in_map_iff in Hc as [x [<- Hx]].
  apply valid_char_digit; [assumption|]. exists x. split; [|reflexivity].
  unfold digits_in in H. rewrite Forall_forall in H. now apply H.
Qed.

(** ** [base_to_dec] *)

Lemma digit_val_bound (c : char) : is_digit_char c -> 0 <= digit_val c < 16.
Proof. intros [d [Hd ->]]. now rewrite digit_val_char. Qed.

Lemma base_to_dec_body_step (b : Z) (show_steps : bool) (i : Z) (c : char)
    (acc : Z) (st : list str) :
  is_digit_char c ->
  base_to_dec_body b show_steps (i, c) (acc, st)
  = if show_steps && negb (row_within_limit b i c) then Raise digits_limit_error
    else Return (acc + digit_val c * b ^ i,
                 if show_steps then st ++ [base_to_dec_record b i c] else st).
Proof.
  intros Hc. pose proof (digit_val_bound c Hc) as Hv. destruct Hc as [d [Hd ->]].
  unfold base_to_dec_body, base_to_dec_record, row_within_limit.
  rewrite digit_val_char in * by assumption. rewrite str_index_digit by assumption.
  cbn [bind]. destruct show_steps; cbn [andb bind]; [|reflexivity].
  unfold base_to_dec_row.
  destruct (formattable i) eqn:Hi; cbn [andb negb];
    [|now rewrite (format_int_w_limit _ _ Hi)].
  destruct (formattable (d * b ^ i)) eqn:Hp; cbn [negb].
  - now formats.
  - formats. now rewrite (format_int_w_limit _ _ Hp).
Qed.

Lemma all_in_Forall (items : list citem) (s : str) :
  all_in items s = true -> s <> [] /\ Forall (fun c => in_class items c = true) s.
Proof.
  destruct s as [|c t]; [discriminate|]. cbn [all_in]. intros H.
  split; [discriminate|]. apply Forall_forall. now apply forallb_forall.
Qed.

Lemma valid_chars_digits (b : Z) (s : str) :
  valid_base b -> all_in (map One (slice_to BASE_DIGITS b)) s = true ->
  Forall is_digit_char s.
Proof.
  intros Hb H. apply all_in_Forall in H as [_ H].
  eapply Forall_impl; [|exact H]. cbv beta. intros c Hc.
  apply valid_char_digit in Hc as [d [Hd ->]]; [|assumption].
  exists d. unfold valid_base, MAX_BASE in Hb. split; [lia | reflexivity].
Qed.

(** What [base_to_dec] does with a string its pattern accepts: without
    [show_steps] it returns the value; with [show_steps] it returns the
    value and the steps, or stops at the limit. *)
Lemma base_to_dec_eq (s : str) (b : Z) (show_steps : bool) :
  valid_base b -> valid_numeral b s = true ->
  base_to_dec s b show_steps
  = if show_steps
    then if traceable b s
         then Return (WithSteps (base_to_dec_value s b) (base_to_dec_trace s b))
         else Raise digits_limit_error
    else Return (Plain (base_to_dec_value s b)).
Proof.
  intros Hb Hv. unfold valid_numeral in Hv.
  unfold base_to_dec, base_to_dec_trace, base_to_dec_value, traceable, base_to_dec_value.
  rewrite (valid_base_check b Hb).
  assert (Hfb : formattable b = true)
    by (apply formattable_small; unfold valid_base, MIN_BASE, MAX_BASE in Hb; lia).
  assert (Hds : Forall is_digit_char (rev (upper (unsigned_part s))))
    by (apply Forall_rev; eapply valid_chars_digits; eassumption).
  unfold unsigned_part in *.
  destruct (startswith s (lit "-")); cbv beta iota zeta;
    rewrite fullmatch_plus_class, Hv; cbn [negb]; unfold enumerate;
    (destruct show_steps; formats;
     rewrite (for_each_digits (base_to_dec_body b _) b digit_val
                (base_to_dec_record b) (row_within_limit b) _ is_digit_char
                (base_to_dec_body_step b _)) by assumption;
     cbn [andb];
     [destruct (forallb _ _); cbn [negb andb bind]; [|reflexivity] | cbn [bind]];
     rewrite weighted_sum_eval by lia;
     rewrite Z.pow_0_r, Z.mul_1_l, Z.add_0_l;
     rewrite ?formattable_opp;
     try match goal with
         | |- context [formattable ?v] =>
             destruct (formattable v) eqn:Hfv;
             [formats | unfold format_int; rewrite ?formattable_opp, Hfv; reflexivity]
         end;
     cbn [app]; rewrite <- ?app_assoc; reflexivity).
Qed.

Lemma base_to_dec_ok (s : str) (b : Z) (show_steps : bool) :
  valid_base b -> valid_numeral b s = true ->
  (show_steps = true -> traceable b s = true) ->
  base_to_dec s b show_steps
  = Return (if show_steps
            then WithSteps (base_to_dec_value s b) (base_to_dec_trace s b)
            else Plain (base_to_dec_value s b)).
Proof.
  intros Hb Hv Ht. rewrite base_to_dec_eq by assumption.
  destruct show_steps; [now rewrite Ht | reflexivity].
Qed.

Lemma base_to_dec_invalid (s : str) (b : Z) (show_steps : bool) :
  valid_base b -> valid_numeral b s = false ->
  base_to_dec s b show_steps
  = Raise (ValueError (lit "Invalid number for base " ++ str_of_int b)).
Proof.
  intros Hb Hv. unfold valid_numeral, unsigned_part in Hv. unfold base_to_dec.
  rewrite (valid_base_check b Hb).
  assert (Hfb : formattable b = true)
    by (apply formattable_small; unfold valid_base, MIN_BASE, MAX_BASE in Hb; lia).
  destruct (startswith s (lit "-")); cbv beta iota zeta;
    rewrite fullmatch_plus_class, Hv; now formats.
Qed.

Lemma base_to_dec_bad_base (s : str) (b : Z) (show_steps : bool) :
  ~ valid_base b -> base_to_dec s b show_steps = Raise base_error.
Proof.
  intros Hb. unfold base_to_dec. now rewrite (invalid_base_check b Hb).
Qed.

(** ** Numerals and their digits *)

Lemma numeral_digits (alphabet : str) (b m : Z) :
  nth 0 alphabet 0 = ch "0" ->
  numeral alphabet b m = map (digit_char alphabet) (rev (num_digits b m)).
Proof.
  intros H0. unfold numeral, num_digits. destruct (m <=? 0); [|reflexivity].
  cbn [rev app map]. unfold digit_char. change (Z.to_nat 0) with 0%nat.
  now rewrite H0.
Qed.


Lemma num_digits_in (b m : Z) : 2 <= b -> digits_in b (num_digits b m).
Proof.
  intros Hb. unfold num_digits. destruct (m <=? 0).
  - constructor; [lia | constructor].
  - now apply digits_le_in.
Qed.




(** What [base_to_dec] makes of a sign followed by the characters of a
    list of digits. *)
Lemma signed_digits_numeral (b : Z) (negative : bool) (ds : list Z) :
  valid_base b -> ds <> [] -> digits_in b ds ->
  let s := sign_str negative ++ map (digit_char BASE_DIGITS) (rev ds) in
  startswith s (lit "-") = negative
  /\ upper (unsigned_part s) = map (digit_char BASE_DIGITS) (rev ds)
  /\ valid_numeral b s = true
  /\ base_to_dec_value s b = if negative then - eval_le b ds else eval_le b ds.
Proof.
  intros Hb Hne Hin s.
  assert (Hb16 : b <= 16) by (unfold valid_base, MAX_BASE in Hb; lia).
  assert (Hr : digits_in b (rev ds)) by (apply Forall_rev; exact Hin).
  assert (Hr16 : digits_in 16 (rev ds)) by (eapply digits_in_weaken; eassumption).
  assert (Hrne : rev ds <> []).
  { intros E. apply (f_equal (@length Z)) in E. rewrite length_rev in E.
    destruct ds; [congruence | discriminate]. }
  assert (Hs : startswith s (lit "-") = negative).
  { subst s. destruct negative.
    - reflexivity.
    - cbn [sign_str app]. destruct (rev ds) as [|d t]; [congruence|].
      inversion Hr16 as [|? ? Hd _]; subst.
      cbn [map startswith lit list_ascii_of_string].
      pose proof (digit_char_not_minus d Hd) as Hm.
      destruct (Z.eqb_spec (digit_char BASE_DIGITS d) (ch "-")); [contradiction | reflexivity]. }
  assert (Hu : unsigned_part s = map (digit_char BASE_DIGITS) (rev ds)).
  { unfold unsigned_part. rewrite Hs. subst s. now destruct negative. }
  assert (Hup : upper (unsigned_part s) = map (digit_char BASE_DIGITS) (rev ds))
    by (rewrite Hu; now apply upper_digits).
  repeat split; try assumption.
  - unfold valid_numeral. rewrite Hup. now apply all_in_digits.
  - unfold base_to_dec_value. rewrite Hs, Hup, <- map_rev, rev_involutive.
    rewrite digit_val_digits by (eapply digits_in_weaken; eassumption).
    reflexivity.
Qed.




(** ** [dec_to_bin], [dec_to_oct] and [dec_to_hex] *)

Lemma mask_and_shift (n k : Z) :
  0 <= k -> Z.land n (Z.ones k) = n mod 2 ^ k /\ Z.shiftr n k = n / 2 ^ k.
Proof. intros Hk. split; [now apply Z.land_ones | now apply Z.shiftr_div_pow2]. Qed.

Lemma str_of_int_digit (d : Z) :
  0 <= d < 10 -> str_of_int d = [digit_char BASE_DIGITS d].
Proof.
  intros Hd.
  assert (H : d = 0 \/ d = 1 \/ d = 2 \/ d = 3 \/ d = 4 \/ d = 5 \/ d = 6 \/ d = 7
              \/ d = 8 \/ d = 9) by lia.
  repeat (destruct H as [H|H]); subst d; reflexivity.
Qed.

Lemma concat_digit_strings (ds : list Z) :
  digits_in 10 ds ->
  concat (map str_of_int ds) = map (digit_char BASE_DIGITS) ds.
Proof.
  intros H. induction H as [|d t Hd _ IH]; [reflexivity|].
  cbn [map concat]. now rewrite str_of_int_digit, IH.
Qed.

Lemma concat_singletons {A B : Type} (g : A -> B) (l : list A) :
  concat (map (fun d => [g d]) l) = map g l.
Proof. induction l as [|a t IH]; [reflexivity|]. cbn [map concat app]. now rewrite IH. Qed.

Lemma dec_to_bin_body_traced (N : Z) :
  formattable N = true ->
  forall n k (ds st : list str), 0 < n -> 1 <= k -> k + n <= N + 1 ->
  dec_to_bin_body true (n, Some k, ds, st)
  = Return (n / 2, Some (k + 1), ds ++ [str_of_int (n mod 2)], st ++ [dec_to_bin_record k n]).
Proof.
  intros HN n k ds st Hn Hk Hsum.
  unfold dec_to_bin_body, dec_to_bin_record, dec_to_bin_row. cbv zeta.
  destruct (mask_and_shift n 1 ltac:(lia)) as [Hl Hs].
  change (Z.ones 1) with 1 in Hl. change (2 ^ 1) with 2 in Hl, Hs.
  rewrite Hl, Hs. pose proof (Z.mod_pos_bound n 2 ltac:(lia)).
  cbn [load]. now formats.
Qed.


Lemma dec_to_hex_body_traced (N : Z) :
  formattable N = true ->
  forall n k (ds st : list str), 0 < n -> 1 <= k -> k + n <= N + 1 ->
  dec_to_hex_body true (n, Some k, ds, st)
  = Return (n / 16, Some (k + 1), ds ++ [[digit_char HEX_DIGITS (n mod 16)]],
            st ++ [dec_to_hex_record k n]).
Proof.
  intros HN n k ds st Hn Hk Hsum.
  unfold dec_to_hex_body, dec_to_hex_record, dec_to_hex_row. cbv zeta.
  destruct (mask_and_shift n 4 ltac:(lia)) as [Hl Hs].
  change (Z.ones 4) with 15 in Hl. change (2 ^ 4) with 16 in Hl, Hs.
  rewrite Hl, Hs. pose proof (Z.mod_pos_bound n 16 ltac:(lia)).
  rewrite getitem_digit by (change (len HEX_DIGITS) with 16; lia).
  cbn [load]. now formats.
Qed.




(** A round of each loop that returns has shifted the number. *)
Ltac round_cases :=
  repeat match goal with
         | |- context [formattable ?x] => destruct (formattable x); cbn [bind]
         end;
  try exact I; try (eexists _, _, _; reflexivity).

Lemma dec_to_bin_body_round (show_steps : bool) (n : Z) (k : option Z) (ds st : list str) :
  match dec_to_bin_body show_steps (n, k, ds, st) with
  | Return s' => exists k' ds' st', s' = (n / 2, k', ds', st')
  | Raise _ => True
  | OutOfFuel => False
  end.
Proof.
  unfold dec_to_bin_body, dec_to_bin_row, format_int_w, format_int. cbv zeta.
  destruct (mask_and_shift n 1 ltac:(lia)) as [_ Hs]. change (2 ^ 1) with 2 in Hs.
  rewrite Hs. destruct show_steps, k as [k|]; cbn [bind load]; round_cases.
Qed.

Lemma dec_to_oct_body_round (show_steps : bool) (n : Z) (k : option Z) (ds st : list str) :
  match dec_to_oct_body show_steps (n, k, ds, st) with
  | Return s' => exists k' ds' st', s' = (n / 8, k', ds', st')
  | Raise _ => True
  | OutOfFuel => False
  end.
Proof.
  unfold dec_to_oct_body, dec_to_oct_row, format_int_w, format_int. cbv zeta.
  destruct (mask_and_shift n 3 ltac:(lia)) as [_ Hs]. change (2 ^ 3) with 8 in Hs.
  rewrite Hs. destruct show_steps, k as [k|]; cbn [bind load]; round_cases.
Qed.

Lemma dec_to_hex_body_round (show_steps : bool) (n : Z) (k : option Z) (ds st : list str) :
  match dec_to_hex_body show_steps (n, k, ds, st) with
  | Return s' => exists k' ds' st', s' = (n / 16, k', ds', st')
  | Raise _ => True
  | OutOfFuel => False
  end.
Proof.
  unfold dec_to_hex_body, dec_to_hex_row, format_int_w, format_int, getitem. cbv zeta.
  destruct (mask_and_shift n 4 ltac:(lia)) as [_ Hs]. change (2 ^ 4) with 16 in Hs.
  rewrite Hs.
  match goal with |- context [if ?c then Return _ else Raise IndexError] => destruct c end;
    cbn [bind]; try exact I.
  destruct show_steps, k as [k|]; cbn [bind load]; round_cases.
Qed.

Lemma bit_length_nonneg (n : Z) : 0 <= bit_length n.
Proof.
  unfold bit_length. destruct (n =? 0); [lia|]. pose proof (Z.log2_nonneg (Z.abs n)). lia.
Qed.

Lemma bit_length_bounds (n : Z) :
  n <> 0 -> 2 ^ (bit_length n - 1) <= Z.abs n < 2 ^ bit_length n.
Proof.
  intros Hn. unfold bit_length. destruct (Z.eqb_spec n 0); [contradiction|].
  replace (Z.log2 (Z.abs n) + 1 - 1) with (Z.log2 (Z.abs n)) by lia.
  rewrite Z.add_1_r. apply Z.log2_spec. lia.
Qed.

Lemma twos_complement_eq (n : Z) : twos_complement n = 2 ^ (bit_length n + 1) + n.
Proof.
  unfold twos_complement. pose proof (bit_length_nonneg n).
  rewrite Z.shiftl_1_l. reflexivity.
Qed.

Lemma twos_complement_bounds (n : Z) :
  n < 0 -> 2 ^ bit_length n <= twos_complement n < 2 ^ (bit_length n + 1).
Proof.
  intros Hn. rewrite twos_complement_eq.
  pose proof (bit_length_bounds n ltac:(lia)) as [_ Hu].
  pose proof (bit_length_nonneg n).
  rewrite Z.pow_add_r, Z.pow_1_r by lia. lia.
Qed.

Lemma digit_strings_numeral (b m : Z) :
  2 <= b <= 10 -> 0 < m ->
  concat (rev ([] ++ map str_of_int (digits_le (fuel_for m) b m)))
  = map (digit_char BASE_DIGITS) (rev (num_digits b m)).
Proof.
  intros Hb Hm. unfold num_digits. destruct (Z.leb_spec m 0); [lia|].
  cbn [app]. rewrite <- map_rev. apply concat_digit_strings.
  apply Forall_rev. apply digits_in_weaken with b; [lia|]. apply digits_le_in. lia.
Qed.

Lemma digit_singletons_numeral (b m : Z) :
  0 < m ->
  concat (rev ([] ++ map (fun d => [digit_char HEX_DIGITS d]) (digits_le (fuel_for m) b m)))
  = map (digit_char BASE_DIGITS) (rev (num_digits b m)).
Proof.
  intros Hm. unfold num_digits. destruct (Z.leb_spec m 0); [lia|].
  cbn [app]. rewrite <- map_rev. apply concat_singletons.
Qed.

Lemma bit_length_small (n : Z) : n <> 0 -> bit_length n + 1 <= 2 ^ bit_length n.
Proof.
  intros Hn. pose proof (bit_length_nonneg n).
  pose proof (Z.pow_gt_lin_r 2 (bit_length n) ltac:(lia) ltac:(lia)). lia.
Qed.

(** The numbers [dec_to_bin] formats before its loop for a negative
    number are all below the two's complement it starts the loop on. *)
Lemma twos_complement_formats (n : Z) :
  n < 0 -> formattable (twos_complement n) = true ->
  formattable n = true /\ formattable (bit_length n + 1) = true.
Proof.
  intros Hn Hf. pose proof (twos_complement_bounds n Hn) as Ht.
  pose proof (bit_length_bounds n ltac:(lia)) as Hb.
  pose proof (bit_length_small n ltac:(lia)). pose proof (bit_length_nonneg n).
  split; fmt.
Qed.

Lemma dec_to_bin_value (n : Z) :
  formattable (loop_start Bin n) = true ->
  yields true (dec_to_bin n true) (dec_to_bin_numeral n).
Proof.
  destruct (Z.eq_dec n 0) as [->|Hn]; [now split|].
  unfold dec_to_bin, dec_to_bin_numeral, loop_start.
  destruct (Z.eqb_spec n 0); [contradiction|].
  destruct (Z.ltb_spec n 0) as [Hneg|Hpos]; intros Hf; cbv beta iota zeta.
  - fold (twos_complement n). pose proof (twos_complement_bounds n Hneg) as Ht.
    destruct (twos_complement_formats n Hneg Hf) as [Hfn Hfb].
    assert (0 < 2 ^ bit_length n) by (apply Z.pow_pos_nonneg; [lia | apply bit_length_nonneg]).
    pose proof (fuel_for_bound (twos_complement n) ltac:(lia)).
    formats.
    rewrite (while_traced (dec_to_bin_body true) 2 str_of_int dec_to_bin_record
               (twos_complement n) ltac:(lia) (dec_to_bin_body_traced _ Hf)) by lia.
    cbn [bind]. cbv beta iota zeta. formats. cbn [yields].
    now rewrite digit_strings_numeral by lia.
  - pose proof (fuel_for_bound n ltac:(lia)).
    formats.
    rewrite (while_traced (dec_to_bin_body true) 2 str_of_int dec_to_bin_record
               n ltac:(lia) (dec_to_bin_body_traced _ Hf)) by lia.
    cbn [bind]. cbv beta iota zeta. formats. cbn [yields].
    now rewrite digit_strings_numeral by lia.
Qed.


Lemma dec_to_hex_value (n : Z) :
  formattable n = true -> yields true (dec_to_hex n true) (signed_numeral 16 n).
Proof.
  intros Hf. destruct (Z.eq_dec n 0) as [->|Hn]; [now split|].
  unfold dec_to_hex, signed_numeral.
  destruct (Z.eqb_spec n 0); [contradiction|].
  pose proof (fuel_for_bound (Z.abs n) ltac:(lia)).
  assert (Hfa : formattable (Z.abs n) = true) by fmt.
  destruct (Z.ltb_spec n 0) as [Hneg|Hpos]; cbv beta iota zeta; formats;
    [|replace (Z.abs n) with n in * by lia];
    rewrite (while_traced (dec_to_hex_body true) 16
               (fun d => [digit_char HEX_DIGITS d]) dec_to_hex_record
               _ ltac:(lia) (dec_to_hex_body_traced _ Hfa)) by lia;
    cbn [bind]; cbv beta iota zeta; formats; cbn [yields];
    now rewrite digit_singletons_numeral by lia.
Qed.





(** ** [bin_to_dec], [oct_to_dec] and [hex_to_dec] *)

Lemma int_of_digit_char (d : Z) :
  0 <= d < 10 -> int_of_digit (digit_char BASE_DIGITS d) = Return d.
Proof.
  intros Hd.
  assert (H : d = 0 \/ d = 1 \/ d = 2 \/ d = 3 \/ d = 4 \/ d = 5 \/ d = 6 \/ d = 7
              \/ d = 8 \/ d = 9) by lia.
  repeat (destruct H as [H|H]); subst d; reflexivity.
Qed.

Lemma is_decimal_digit_char (c : char) : is_decimal_char c -> is_digit_char c.
Proof. intros [d [Hd ->]]. exists d. split; [lia | reflexivity]. Qed.

Lemma bin_to_dec_body_step (show_steps : bool) (i : Z) (c : char) (acc : Z) (st : list str) :
  is_decimal_char c ->
  bin_to_dec_body show_steps (i, c) (acc, st)
  = if show_steps && negb (row_within_limit 2 i c) then Raise digits_limit_error
    else Return (acc + digit_val c * 2 ^ i,
                 if show_steps then st ++ [bin_to_dec_record i c] else st).
Proof.
  intros [d [Hd ->]]. unfold bin_to_dec_body, bin_to_dec_record, row_within_limit.
  rewrite digit_val_char, int_of_digit_char by lia.
  cbn [bind]. destruct show_steps; cbn [andb bind]; [|reflexivity].
  unfold bin_to_dec_row.
  destruct (formattable i) eqn:Hi; cbn [andb negb];
    [|now rewrite (format_int_w_limit _ _ Hi)].
  destruct (formattable (d * 2 ^ i)) eqn:Hp; cbn [negb].
  - now formats.
  - formats. now rewrite (format_int_w_limit _ _ Hp).
Qed.

Lemma oct_to_dec_body_step (show_steps : bool) (i : Z) (c : char) (acc : Z) (st : list str) :
  is_decimal_char c ->
  oct_to_dec_body show_steps (i, c) (acc, st)
  = if show_steps && negb (row_within_limit 8 i c) then Raise digits_limit_error
    else Return (acc + digit_val c * 8 ^ i,
                 if show_steps then st ++ [oct_to_dec_record i c] else st).
Proof.
  intros [d [Hd ->]]. unfold oct_to_dec_body, oct_to_dec_record, row_within_limit.
  rewrite digit_val_char, int_of_digit_char by lia.
  cbn [bind]. destruct show_steps; cbn [andb bind]; [|reflexivity].
  unfold oct_to_dec_row.
  destruct (formattable i) eqn:Hi; cbn [andb negb];
    [|now rewrite (format_int_w_limit _ _ Hi)].
  destruct (formattable (d * 8 ^ i)) eqn:Hp; cbn [negb].
  - now formats.
  - formats. now rewrite (format_int_w_limit _ _ Hp).
Qed.

Lemma hex_to_dec_body_step (show_steps : bool) (i : Z) (c : char) (acc : Z) (st : list str) :
  is_digit_char c ->
  hex_to_dec_body show_steps (i, c) (acc, st)
  = if show_steps && negb (row_within_limit 16 i c) then Raise digits_limit_error
    else Return (acc + digit_val c * 16 ^ i,
                 if show_steps then st ++ [hex_to_dec_record i c] else st).
Proof.
  intros [d [Hd ->]]. unfold hex_to_dec_body, hex_to_dec_record, row_within_limit.
  rewrite digit_val_char by lia.
  change HEX_DIGITS with BASE_DIGITS. rewrite str_index_digit by lia.
  cbn [bind]. destruct show_steps; cbn [andb bind]; [|reflexivity].
  unfold hex_to_dec_row.
  destruct (formattable i) eqn:Hi; cbn [andb negb];
    [|now rewrite (format_int_w_limit _ _ Hi)].
  destruct (formattable (d * 16 ^ i)) eqn:Hp; cbn [negb].
  - now formats.
  - formats. now rewrite (format_int_w_limit _ _ Hp).
Qed.

Lemma digit_chars_ok (b : Z) (ds : list Z) (P : char -> Prop) :
  (forall d, 0 <= d < b -> P (digit_char BASE_DIGITS d)) ->
  digits_in b ds -> Forall P (map (digit_char BASE_DIGITS) ds).
Proof.
  intros HP H. induction H as [|d t Hd _ IH]; cbn [map]; constructor; auto.
Qed.

Lemma all_in_digit_chars (items : list citem) (b : Z) (ds : list Z) :
  (forall d, 0 <= d < b -> in_class items (digit_char BASE_DIGITS d) = true) ->
  ds <> [] -> digits_in b ds ->
  all_in items (map (digit_char BASE_DIGITS) ds) = true.
Proof.
  intros HP Hne H. destruct ds as [|d t]; [congruence|].
  cbn [all_in map]. change (digit_char BASE_DIGITS d :: map (digit_char BASE_DIGITS) t)
    with (map (digit_char BASE_DIGITS) (d :: t)).
  apply forallb_forall. apply Forall_forall.
  apply (digit_chars_ok b); assumption.
Qed.

Lemma rev_nonempty {A : Type} (l : list A) : l <> [] -> rev l <> [].
Proof.
  intros Hne E. apply (f_equal (@length A)) in E. rewrite length_rev in E.
  destruct l; [congruence | discriminate].
Qed.

(** A sign and the characters of a list of digits, as the three
    converters take them apart. *)
Lemma signed_digits_split (negative : bool) (ds : list Z) :
  ds <> [] -> digits_in 16 ds ->
  let s := sign_str negative ++ map (digit_char BASE_DIGITS) (rev ds) in
  startswith s (lit "-") = negative
  /\ (if negative then tl s else s) = map (digit_char BASE_DIGITS) (rev ds).
Proof.
  intros Hne Hin s.
  destruct (signed_digits_numeral 16 negative ds) as [Hs _];
    [unfold valid_base, MIN_BASE, MAX_BASE; lia | assumption.. |].
  fold s in Hs. split; [exact Hs|]. subst s. now destruct negative.
Qed.

(** What is left of each of the three readers once its loop is
    rewritten: the sign and the last steps, which format the value. *)
Ltac reader_tail :=
  cbn [andb];
  try match goal with
      | |- context [forallb ?f ?l] => destruct (forallb f l)
      end;
  cbn [negb andb bind]; try reflexivity;
  rewrite ?weighted_sum_eval by lia;
  rewrite ?Z.pow_0_r, ?Z.mul_1_l, ?Z.add_0_l;
  rewrite <- ?map_rev, ?rev_involutive, ?digit_val_digits by assumption;
  rewrite ?formattable_opp;
  try match goal with
      | |- context [formattable ?v] =>
          let Hfv := fresh "Hfv" in
          destruct (formattable v) eqn:Hfv;
          [formats | unfold format_int; rewrite ?formattable_opp, Hfv; reflexivity]
      end;
  cbn [yields]; now split.

(** The three readers on a sign followed by the characters of a list
    of digits: they return the value, unless the steps are asked for
    and go beyond the limit. *)
Lemma bin_to_dec_digits (negative show_steps : bool) (ds : list Z) :
  ds <> [] -> digits_in 2 ds ->
  let s := sign_str negative ++ map (digit_char BASE_DIGITS) (rev ds) in
  if show_steps && negb (traceable 2 s)
  then bin_to_dec s show_steps = Raise digits_limit_error
  else yields show_steps (bin_to_dec s show_steps)
         (if negative then - eval_le 2 ds else eval_le 2 ds).
Proof.
  intros Hne Hin s.
  assert (Hr : digits_in 2 (rev ds)) by (apply Forall_rev; exact Hin).
  assert (Hin16 : digits_in 16 ds) by (apply digits_in_weaken with 2; [lia | assumption]).
  destruct (signed_digits_numeral 2 negative ds) as [Hs [Hup [_ Hval]]];
    [unfold valid_base, MIN_BASE, MAX_BASE; lia | assumption.. |].
  destruct (signed_digits_split negative ds Hne Hin16) as [_ Hbody].
  fold s in Hs, Hup, Hval, Hbody.
  unfold traceable. rewrite Hup, Hval. unfold bin_to_dec. rewrite Hs.
  assert (Hm : fullmatch (Plus (Class [One (ch "0"); One (ch "1")]))
                 (map (digit_char BASE_DIGITS) (rev ds)) = true).
  { rewrite fullmatch_plus_class. apply (all_in_digit_chars _ 2);
      [|apply rev_nonempty; assumption | assumption].
    intros d Hd. assert (d = 0 \/ d = 1) as [->| ->] by lia; reflexivity. }
  assert (Hok : Forall is_decimal_char (rev (map (digit_char BASE_DIGITS) (rev ds)))).
  { rewrite <- map_rev, rev_involutive. apply (digit_chars_ok 2); [|assumption].
    intros d Hd. exists d. split; [lia | reflexivity]. }
  destruct negative; cbv beta iota zeta; rewrite Hbody, Hm; cbn [negb];
    unfold enumerate;
    rewrite (for_each_digits (bin_to_dec_body show_steps) 2 digit_val bin_to_dec_record
               (row_within_limit 2) show_steps is_decimal_char
               (bin_to_dec_body_step show_steps)) by assumption;
    destruct show_steps; reader_tail.
Qed.

Lemma oct_to_dec_digits (negative show_steps : bool) (ds : list Z) :
  ds <> [] -> digits_in 8 ds ->
  let s := sign_str negative ++ map (digit_char BASE_DIGITS) (rev ds) in
  if show_steps && negb (traceable 8 s)
  then oct_to_dec s show_steps = Raise digits_limit_error
  else yields show_steps (oct_to_dec s show_steps)
         (if negative then - eval_le 8 ds else eval_le 8 ds).
Proof.
  intros Hne Hin s.
  assert (Hr : digits_in 8 (rev ds)) by (apply Forall_rev; exact Hin).
  assert (Hin16 : digits_in 16 ds) by (apply digits_in_weaken with 8; [lia | assumption]).
  destruct (signed_digits_numeral 8 negative ds) as [Hs [Hup [_ Hval]]];
    [unfold valid_base, MIN_BASE, MAX_BASE; lia | assumption.. |].
  destruct (signed_digits_split negative ds Hne Hin16) as [_ Hbody].
  fold s in Hs, Hup, Hval, Hbody.
  unfold traceable. rewrite Hup, Hval. unfold oct_to_dec. rewrite Hs.
  assert (Hm : fullmatch (Plus (Class [Range (ch "0") (ch "7")]))
                 (map (digit_char BASE_DIGITS) (rev ds)) = true).
  { rewrite fullmatch_plus_class. apply (all_in_digit_chars _ 8);
      [|apply rev_nonempty; assumption | assumption].
    intros d Hd. digit_cases d; try reflexivity; lia. }
  assert (Hok : Forall is_decimal_char (rev (map (digit_char BASE_DIGITS) (rev ds)))).
  { rewrite <- map_rev, rev_involutive. apply (digit_chars_ok 8); [|assumption].
    intros d Hd. exists d. split; [lia | reflexivity]. }
  destruct negative; cbv beta iota zeta; rewrite Hbody, Hm; cbn [negb];
    unfold enumerate;
    rewrite (for_each_digits (oct_to_dec_body show_steps) 8 digit_val oct_to_dec_record
               (row_within_limit 8) show_steps is_decimal_char
               (oct_to_dec_body_step show_steps)) by assumption;
    destruct show_steps; reader_tail.
Qed.

Lemma hex_to_dec_digits (hstr : str) (negative show_steps : bool) (ds : list Z) :
  upper hstr = sign_str negative ++ map (digit_char BASE_DIGITS) (rev ds) ->
  ds <> [] -> digits_in 16 ds ->
  if show_steps && negb (traceable 16 (upper hstr))
  then hex_to_dec hstr show_steps = Raise digits_limit_error
  else yields show_steps (hex_to_dec hstr show_steps)
         (if negative then - eval_le 16 ds else eval_le 16 ds).
Proof.
  intros Hupper Hne Hin.
  assert (Hr : digits_in 16 (rev ds)) by (apply Forall_rev; exact Hin).
  destruct (signed_digits_numeral 16 negative ds) as [Hs [Hup [_ Hval]]];
    [unfold valid_base, MIN_BASE, MAX_BASE; lia | assumption.. |].
  destruct (signed_digits_split negative ds Hne Hin) as [_ Hbody].
  unfold traceable. rewrite Hupper, Hup, Hval. unfold hex_to_dec. rewrite Hupper, Hs.
  assert (Hm : fullmatch (Plus (Class [Range (ch "0") (ch "9"); Range (ch "A") (ch "F")]))
                 (map (digit_char BASE_DIGITS) (rev ds)) = true).
  { rewrite fullmatch_plus_class. apply (all_in_digit_chars _ 16);
      [|apply rev_nonempty; assumption | assumption].
    intros d Hd. digit_cases d; reflexivity. }
  assert (Hok : Forall is_digit_char (rev (map (digit_char BASE_DIGITS) (rev ds)))).
  { rewrite <- map_rev, rev_involutive. apply (digit_chars_ok 16); [|assumption].
    intros d Hd. exists d. split; [lia | reflexivity]. }
  destruct negative; cbv beta iota zeta; rewrite Hbody, Hm; cbn [negb];
    unfold enumerate;
    rewrite (for_each_digits (hex_to_dec_body show_steps) 16 digit_val hex_to_dec_record
               (row_within_limit 16) show_steps is_digit_char
               (hex_to_dec_body_step show_steps)) by assumption;
    destruct show_steps; reader_tail.
Qed.

(** ** Steps within the limit *)

Lemma weighted_sum_nonneg (b : Z) (l : list char) : forall i,
  0 <= b -> Forall is_digit_char l -> 0 <= weighted_sum b digit_val i l.
Proof.
  induction l as [|c t IH]; intros i Hb Hl; cbn [weighted_sum]; [lia|].
  inversion Hl as [|? ? Hc Ht]; subst.
  pose proof (digit_val_bound c Hc). pose proof (IH (i + 1) Hb Ht).
  pose proof (Z.pow_nonneg b i Hb). nia.
Qed.

(** The lines of an accumulation loop are within the limit when the
    number of the digits and the sum are. *)
Lemma rows_within_limit_bound (b : Z) (l : list char) : forall i,
  0 <= b -> 0 <= i -> Forall is_digit_char l ->
  formattable (i + len l) = true ->
  formattable (weighted_sum b digit_val i l) = true ->
  forallb (fun x => row_within_limit b (fst x) (snd x)) (enumerate_from i l) = true.
Proof.
  induction l as [|c t IH]; intros i Hb Hi Hl Hlen Hsum; [reflexivity|].
  inversion Hl as [|? ? Hc Ht]; subst.
  cbn [enumerate_from forallb fst snd weighted_sum] in *.
  pose proof (digit_val_bound c Hc). pose proof (Z.pow_nonneg b i Hb).
  pose proof (weighted_sum_nonneg b t (i + 1) Hb Ht).
  assert (Hlt : len (c :: t) = 1 + len t) by (unfold len; cbn [length]; lia).
  assert (0 <= len t) by (unfold len; lia).
  assert (0 <= digit_val c * b ^ i) by nia.
  unfold row_within_limit.
  replace (formattable i) with true by (symmetry; fmt).
  replace (formattable (digit_val c * b ^ i)) with true by (symmetry; fmt).
  cbn [andb]. apply IH; try assumption; try lia; fmt.
Qed.





(** A sign and the characters of a list of digits can be read with
    steps when the number of the digits and their value are within the
    limit. *)
Lemma traceable_digits (b : Z) (negative : bool) (ds : list Z) :
  valid_base b -> ds <> [] -> digits_in b ds ->
  formattable (len ds) = true -> formattable (eval_le b ds) = true ->
  traceable b (sign_str negative ++ map (digit_char BASE_DIGITS) (rev ds)) = true.
Proof.
  intros Hb Hne Hin Hlen Hval.
  destruct (signed_digits_numeral b negative ds Hb Hne Hin) as [_ [Hup [_ Hv]]].
  assert (Hb16 : 2 <= b <= 16) by (unfold valid_base, MIN_BASE, MAX_BASE in Hb; lia).
  assert (Hin16 : digits_in 16 ds) by (apply digits_in_weaken with b; [lia | assumption]).
  unfold traceable. rewrite Hup, Hv.
  replace (formattable (if negative then - eval_le b ds else eval_le b ds)) with true
    by (destruct negative; rewrite ?formattable_opp; now symmetry).
  rewrite andb_true_r. unfold enumerate.
  rewrite <- map_rev, rev_involutive.
  apply rows_within_limit_bound; try lia.
  - apply (digit_chars_ok 16); [|assumption].
    intros d Hd. exists d. split; [lia | reflexivity].
  - unfold len in *. now rewrite length_map, Z.add_0_l.
  - rewrite weighted_sum_eval by lia.
    now rewrite digit_val_digits, Z.pow_0_r, Z.mul_1_l.
Qed.


(** ** Numerals as strings *)

Lemma lower_digit_upper (d : Z) (c : char) :
  0 <= d < 16 -> In c (lower_char (digit_char BASE_DIGITS d)) ->
  upper_char c = [digit_char BASE_DIGITS d] /\ c <> ch "-"
  /\ (c = ch "0" <-> d = 0) /\ (d < 10 -> c = digit_char BASE_DIGITS d).
Proof.
  intros Hd Hc.
  digit_cases d; simpl in Hc; destruct Hc as [<-|[]];
    (repeat split; try reflexivity; try discriminate; try lia).
Qed.

Lemma numeral_char (b : Z) (c : char) :
  valid_base b -> in_class (numeral_class b) c = true ->
  exists d, 0 <= d < b /\ upper_char c = [digit_char BASE_DIGITS d] /\ c <> ch "-"
            /\ (c = ch "0" <-> d = 0) /\ (d < 10 -> c = digit_char BASE_DIGITS d).
Proof.
  intros Hb Hc.
  assert (Hb16 : b <= 16) by (unfold valid_base, MAX_BASE in Hb; lia).
  unfold numeral_class, in_class in Hc. rewrite existsb_app in Hc.
  apply orb_true_iff in Hc as [Hc|Hc].
  - apply (valid_char_digit b c Hb) in Hc as [d [Hd ->]]. exists d.
    split; [assumption|]. split; [apply upper_digit_char; lia|].
    split; [apply digit_char_not_minus; lia|]. split; [|reflexivity].
    digit_cases d; (split; intros E; [try discriminate E; try reflexivity | try lia; try reflexivity]).
  - apply in_class_One in Hc. unfold lower in Hc. apply in_flat_map in Hc as [x [Hx Hc]].
    apply in_class_One, (valid_char_digit b x Hb) in Hx as [d [Hd ->]].
    exists d. split; [assumption|]. apply lower_digit_upper; [lia | assumption].
Qed.

(** The digits of a numeral, most significant first. *)
Lemma numeral_chars_digits (b : Z) (t : str) :
  valid_base b -> Forall (fun c => in_class (numeral_class b) c = true) t ->
  exists es, digits_in b es /\ upper t = map (digit_char BASE_DIGITS) es
             /\ length es = length t
             /\ (b <= 10 -> t = map (digit_char BASE_DIGITS) es)
             /\ (hd 1 t = ch "0" <-> hd 1 es = 0)
             /\ hd 1 t <> ch "-".
Proof.
  intros Hb H. induction H as [|c t Hc Ht IH].
  - exists []. repeat split; try constructor; try discriminate.
  - destruct IH as [es [Hes [Hup [Hlen [Hdec _]]]]].
    destruct (numeral_char b c Hb Hc) as [d [Hd [Hu [Hm [Hz Hten]]]]].
    exists (d :: es). split; [constructor; assumption|].
    split; [unfold upper in *; cbn [flat_map map]; now rewrite Hu, Hup|].
    split; [simpl; now rewrite Hlen|].
    split; [intros H10; cbn [map]; rewrite <- Hdec, <- Hten by lia; reflexivity|].
    split; [exact Hz | exact Hm].
Qed.

Lemma hd_not_minus (t : str) : hd 1 t <> ch "-" -> startswith t (lit "-") = false.
Proof.
  destruct t as [|c t]; [reflexivity|]. cbn [hd startswith lit list_ascii_of_string map].
  intros H. destruct (Z.eqb_spec c (ch "-")); [contradiction | reflexivity].
Qed.

Lemma upper_app (s t : str) : upper (s ++ t) = upper s ++ upper t.
Proof. apply flat_map_app. Qed.

(** A canonical numeral is a sign and the characters of the digits of
    a number, up to the case of the letters. *)
Lemma numeral_decompose (b : Z) (s : str) :
  valid_base b -> is_numeral b s = true -> canonical s = true ->
  exists ds, ds <> [] /\ digits_in b ds
    /\ upper s = sign_str (startswith s (lit "-")) ++ map (digit_char BASE_DIGITS) (rev ds)
    /\ (b <= 10 -> upper s = s)
    /\ length ds = length (unsigned_part s)
    /\ (last ds 1 <> 0 \/ (ds = [0] /\ startswith s (lit "-") = false)).
Proof.
  intros Hb Hnum Hcan. unfold is_numeral in Hnum.
  apply all_in_Forall in Hnum as [Hne Hall].
  destruct (numeral_chars_digits b _ Hb Hall) as [es [Hes [Hup [Hlen [Hdec [Hz Hm]]]]]].
  assert (Hsplit : s = sign_str (startswith s (lit "-")) ++ unsigned_part s).
  { unfold unsigned_part. destruct s as [|c t]; [reflexivity|].
    cbn [startswith lit list_ascii_of_string map]. rewrite andb_true_r.
    destruct (Z.eqb_spec c (ch "-")) as [->|]; reflexivity. }
  assert (Hupper : upper s = sign_str (startswith s (lit "-")) ++ map (digit_char BASE_DIGITS) es).
  { rewrite Hsplit at 1. rewrite upper_app, Hup.
    now destruct (startswith s (lit "-")). }
  exists (rev es). rewrite rev_involutive, length_rev.
  assert (Hesne : es <> []).
  { intros ->. destruct (unsigned_part s); [congruence | discriminate]. }
  split; [apply rev_nonempty; assumption|].
  split; [apply Forall_rev; assumption|].
  split; [assumption|].
  split; [intros H10; rewrite Hupper, <- Hdec by assumption; now symmetry|].
  split; [assumption|].
  unfold canonical in Hcan.
  destruct (unsigned_part s) as [|c t]; [discriminate|].
  destruct es as [|e es']; [congruence|].
  cbn [hd] in Hz. cbn [rev]. rewrite last_last.
  destruct (Z.eqb_spec c (ch "0")) as [Hc|Hc].
  - right. destruct t; [|discriminate]. destruct es'; [|discriminate].
    apply Hz in Hc. subst e. split; [reflexivity|].
    now apply negb_true_iff in Hcan.
  - left. intros He. apply Hc, Hz, He.
Qed.

(** ** The cross conversions *)

Lemma radix_valid (fb : fixed_base) : valid_base (radix fb).
Proof. destruct fb; unfold valid_base, MIN_BASE, MAX_BASE; simpl; lia. Qed.



Lemma bridge_untraced (b1 b2 : fixed_base) (f : str -> bool -> outcome (ret str)) (s : str) :
  bridge b1 b2 = Some f ->
  f s false = (r <- to_dec b1 s false ;; from_dec b2 (value r) false).
Proof. destruct b1, b2; intros Hf; inversion Hf; reflexivity. Qed.

Ltac literals :=
  repeat match goal with
         | |- context [lit ?s] => let v := eval vm_compute in (lit s) in change (lit s) with v
         | |- context [ch ?a] => let v := eval vm_compute in (ch a) in change (ch a) with v
         end.

Ltac upper_cases c :=
  unfold upper_char;
  destruct (Z.leb_spec (ch "a") c), (Z.leb_spec c (ch "z")); cbn [andb];
  change (ch "a") with 97 in *; change (ch "z") with 122 in *;
  repeat match goal with
         | |- context [c =? ?y] => destruct (Z.eqb_spec c y) as [->|]
         end.

Lemma upper_char_head (c : char) :
  exists x rest, upper_char c = x :: rest /\ (x = ch "-" <-> c = ch "-")
                 /\ (c = ch "-" -> rest = []).
Proof.
  upper_cases c; literals; eexists; eexists; (split; [reflexivity|]); split;
    try (intros; reflexivity); try lia; try (split; intros; lia).
Qed.

Lemma upper_unsigned (s : str) :
  startswith (upper s) (lit "-") = startswith s (lit "-")
  /\ unsigned_part (upper s) = upper (unsigned_part s).
Proof.
  unfold unsigned_part. destruct s as [|c t]; [split; reflexivity|].
  unfold upper. cbn [flat_map].
  destruct (upper_char_head c) as [x [rest [Hu [Hx Hrest]]]]. rewrite Hu.
  cbn [app startswith lit list_ascii_of_string map]. rewrite !andb_true_r.
  destruct (Z.eqb_spec x (ch "-")) as [E|E], (Z.eqb_spec c (ch "-")) as [E'|E'];
    try (exfalso; tauto).
  - rewrite (Hrest E'). split; reflexivity.
  - split; [reflexivity|]. cbn [flat_map]. now rewrite Hu.
Qed.

(** Capitals change neither the digits nor the value of a string that
    is a sign and digits once in capitals. *)
Lemma traceable_upper (b : Z) (s : str) (negative : bool) (ds : list Z) :
  valid_base b -> ds <> [] -> digits_in b ds ->
  upper s = sign_str negative ++ map (digit_char BASE_DIGITS) (rev ds) ->
  traceable b (upper s) = traceable b s.
Proof.
  intros Hb Hne Hin Hupper.
  destruct (upper_unsigned s) as [Hs Hu].
  destruct (signed_digits_numeral b negative ds Hb Hne Hin) as [Hs' [Hup' _]].
  assert (Hin16 : digits_in 16 ds).
  { apply digits_in_weaken with b; [unfold valid_base, MAX_BASE in Hb; lia | assumption]. }
  destruct (signed_digits_split negative ds Hne Hin16) as [_ Ht].
  cbv zeta in Hs', Hup', Ht.
  assert (A1 : upper (unsigned_part (upper s)) = map (digit_char BASE_DIGITS) (rev ds))
    by (rewrite Hupper; exact Hup').
  assert (A2 : upper (unsigned_part s) = map (digit_char BASE_DIGITS) (rev ds)).
  { rewrite <- Hu, Hupper. unfold unsigned_part. rewrite Hs'. exact Ht. }
  unfold traceable, base_to_dec_value. now rewrite A1, A2, Hs.
Qed.

Lemma to_dec_digits (fb : fixed_base) (s : str) (negative show_steps : bool) (ds : list Z) :
  upper s = sign_str negative ++ map (digit_char BASE_DIGITS) (rev ds) ->
  (radix fb <= 10 -> upper s = s) ->
  ds <> [] -> digits_in (radix fb) ds ->
  if show_steps && negb (traceable (radix fb) s)
  then to_dec fb s show_steps = Raise digits_limit_error
  else yields show_steps (to_dec fb s show_steps)
         (if negative then - eval_le (radix fb) ds else eval_le (radix fb) ds).
Proof.
  intros Hup Hsame Hne Hin.
  rewrite <- (traceable_upper (radix fb) s negative ds (radix_valid fb) Hne Hin Hup).
  destruct fb; cbn [radix to_dec] in *.
  - rewrite Hup. rewrite <- Hsame, Hup by lia. now apply bin_to_dec_digits.
  - rewrite Hup. rewrite <- Hsame, Hup by lia. now apply oct_to_dec_digits.
  - now apply hex_to_dec_digits.
Qed.







(** ** [detect_base] *)

Lemma lower_char_shape (c : char) :
  (exists x, lower_char c = [x]
             /\ (x = ch "0" <-> c = ch "0")
             /\ forall l, ch "a" <= l <= ch "z" -> l <> ch "i" -> l <> ch "k" ->
                          (x = l <-> c = l \/ c = l - 32))
  \/ (c = 304 /\ lower_char c = [ch "i"; 775]).
Proof.
  unfold lower_char.
  destruct (Z.leb_spec (ch "A") c), (Z.leb_spec c (ch "Z")); cbn [andb];
    try (destruct (Z.eqb_spec c 304); [right; split; [assumption | reflexivity]|]);
    try (destruct (Z.eqb_spec c 8490)); left; eexists; (split; [reflexivity|]);
    change (ch "A") with 65 in *; change (ch "Z") with 90 in *;
    change (ch "0") with 48; change (ch "a") with 97; change (ch "z") with 122;
    change (ch "i") with 105; change (ch "k") with 107;
    (split; [|intros l Hl Hi Hk]); lia.
Qed.

Lemma startswith_lower (t : str) (l : char) :
  ch "a" <= l <= ch "z" -> l <> ch "i" -> l <> ch "k" ->
  startswith (lower t) [ch "0"; l] = has_prefix_ci t l.
Proof.
  intros Hl Hi Hk. unfold lower, has_prefix_ci.
  change (ch "a") with 97 in *. change (ch "z") with 122 in *.
  change (ch "i") with 105 in *. change (ch "k") with 107 in *.
  destruct t as [|c0 t]; [reflexivity|]. cbn [flat_map].
  destruct (lower_char_shape c0) as [[x [-> [Hx0 _]]]|[-> ->]].
  - cbn [app startswith].
    destruct (Z.eqb_spec x (ch "0")) as [Ex|Ex], (Z.eqb_spec c0 (ch "0")) as [Ec|Ec];
      try (exfalso; tauto); cbn [andb].
    + destruct t as [|c1 t]; [reflexivity|]. cbn [flat_map].
      destruct (lower_char_shape c1) as [[x1 [-> [_ Hx1]]]|[-> ->]]; cbn [app startswith].
      * rewrite andb_true_r. specialize (Hx1 l Hl Hi Hk).
        destruct (Z.eqb_spec x1 l), (Z.eqb_spec c1 l), (Z.eqb_spec c1 (l - 32));
          try reflexivity; exfalso; tauto.
      * change (ch "i") with 105.
        destruct (Z.eqb_spec 105 l); [lia|]. cbn [andb].
        destruct (Z.eqb_spec 304 l), (Z.eqb_spec 304 (l - 32)); try reflexivity; lia.
    + destruct t as [|c1 t]; reflexivity.
  - destruct t as [|c1 t]; reflexivity.
Qed.

Ltac case_on_leb :=
  match goal with |- context [?x <=? ?y] => destruct (Z.leb_spec x y) end.
Ltac case_on_ltb :=
  match goal with |- context [?x <? ?y] => destruct (Z.ltb_spec x y) end.
Ltac case_on_eqb :=
  match goal with |- context [?x =? ?y] => destruct (Z.eqb_spec x y) end.
Ltac split_comparisons :=
  repeat first [case_on_leb | case_on_ltb | case_on_eqb];
  cbn [andb orb]; try reflexivity; try lia.

Lemma class_digit_below (items : list citem) (b : Z) (c : char) :
  (items, b) = ([One (ch "0"); One (ch "1")], 2)
  \/ (items, b) = ([Range (ch "0") (ch "7")], 8)
  \/ (items, b) = ([Range (ch "0") (ch "9")], 10)
  \/ (items, b) = ([Range (ch "0") (ch "9"); Range (ch "A") (ch "F");
                    Range (ch "a") (ch "f")], 16) ->
  in_class items c = digit_below b c.
Proof.
  intros [H|[H|[H|H]]]; inversion H; subst; clear H;
    unfold in_class, digit_below, digit_value_ci; cbn [existsb in_item];
    change (ch "0") with 48; change (ch "1") with 49; change (ch "7") with 55;
    change (ch "9") with 57; change (ch "A") with 65; change (ch "F") with 70;
    change (ch "a") with 97; change (ch "f") with 102;
    split_comparisons.
Qed.

Lemma all_in_digits_below (items : list citem) (b : Z) (body : str) :
  (forall c, in_class items c = digit_below b c) ->
  all_in items body = all_digits_below b body.
Proof.
  intros H. destruct body as [|c t]; [reflexivity|].
  unfold all_in, all_digits_below. generalize (c :: t). intros l.
  induction l as [|x l IH]; [reflexivity|]. cbn [forallb]. now rewrite H, IH.
Qed.

(** ** Rounding, and the fractional loop *)

Lemma digits2_size (p : positive) : digits2_pos p = Pos.size p.
Proof. induction p as [p IH|p IH|]; simpl; now rewrite ?IH. Qed.

Lemma digits2_bounds (p : positive) :
  2 ^ (Zpos (digits2_pos p) - 1) <= Zpos p < 2 ^ Zpos (digits2_pos p).
Proof.
  rewrite digits2_size. split.
  - pose proof (Pos.size_le p) as H.
    assert (H' : 2 ^ Zpos (Pos.size p) <= 2 * Zpos p).
    { change 2 with (Zpos 2) at 1. rewrite <- Pos2Z.inj_pow. 
      change (2 * Zpos p) with (Zpos p~0). apply Pos2Z.pos_le_pos. exact H. }
    replace (Zpos (Pos.size p)) with (Z.succ (Zpos (Pos.size p) - 1)) in H' by lia.
    rewrite Z.pow_succ_r in H' by lia. lia.
  - pose proof (Pos.size_gt p) as H.
    change 2 with (Zpos 2). rewrite <- Pos2Z.inj_pow. apply Pos2Z.pos_lt_pos. exact H.
Qed.

Lemma shr_1_shifted (M k : Z) (mrs : shr_record) :
  0 <= M -> 0 <= k -> shifted M k mrs -> shifted M (k + 1) (shr_1 mrs).
Proof.
  intros HM Hk [Hm Hr].
  assert (Hpow : 0 < 2 ^ k) by (apply Z.pow_pos_nonneg; lia).
  assert (Hq : 0 <= M / 2 ^ k) by (apply Z.div_pos; lia).
  assert (Hdiv : M / 2 ^ (k + 1) = M / 2 ^ k / 2).
  { rewrite Z.pow_add_r, Z.pow_1_r by lia. now rewrite Z.div_div by lia. }
  assert (Hbit : Z.testbit M (k + 1 - 1) = Z.odd (M / 2 ^ k)).
  { replace (k + 1 - 1) with k by lia.
    rewrite Z.testbit_odd, Z.shiftr_div_pow2 by lia. reflexivity. }
  destruct mrs as [m r s]. cbn [shr_m shr_r] in *. subst m.
  unfold shifted. rewrite Hdiv, Hbit.
  destruct (M / 2 ^ k) as [|p|p]; [| |lia].
  - now split.
  - destruct p as [p|p|]; cbn [shr_1 shr_m shr_r]; (split; [|intros _]); try reflexivity.
    + rewrite Pos2Z.inj_xI. rewrite Z.mul_comm, Z.div_add_l by lia. reflexivity.
    + rewrite Pos2Z.inj_xO. rewrite Z.mul_comm, Z.div_mul by lia. reflexivity.
Qed.

Lemma iter_shifted (M : Z) (p : positive) : forall k mrs,
  0 <= M -> 0 <= k -> shifted M k mrs ->
  shifted M (k + Zpos p) (SpecFloat.iter_pos shr_1 p mrs).
Proof.
  induction p as [p IH|p IH|]; intros k mrs HM Hk H; cbn [SpecFloat.iter_pos].
  - replace (k + Zpos p~1) with (k + 1 + Zpos p + Zpos p) by lia.
    apply IH; [assumption | lia|]. apply IH; [assumption | lia|].
    now apply shr_1_shifted.
  - replace (k + Zpos p~0) with (k + Zpos p + Zpos p) by lia.
    apply IH; [assumption | lia|]. now apply IH.
  - now apply shr_1_shifted.
Qed.

Lemma shr_shifted (M e n : Z) :
  0 <= M -> 0 < n ->
  exists mrs, shr (shr_record_of_loc M loc_Exact) e n = (mrs, e + n)
              /\ shr_m mrs = M / 2 ^ n /\ shr_r mrs = Z.testbit M (n - 1).
Proof.
  intros HM Hn. destruct n as [|p|p]; try lia.
  cbn [shr shr_record_of_loc].
  destruct (iter_shifted M p 0 (Build_shr_record M false false) HM) as [H1 H2]; [lia| |].
  - split; [cbn [shr_m]; now rewrite Z.pow_0_r, Z.div_1_r | lia].
  - eexists. split; [reflexivity|]. cbn [Z.add] in *. split; [exact H1 | apply H2; lia].
Qed.

Lemma round_nearest_even_cases (mrs : shr_record) :
  round_nearest_even (shr_m mrs) (loc_of_shr_record mrs) = shr_m mrs
  \/ (round_nearest_even (shr_m mrs) (loc_of_shr_record mrs) = shr_m mrs + 1
      /\ shr_r mrs = true).
Proof.
  destruct mrs as [m [|] [|]]; cbn [shr_m shr_r loc_of_shr_record round_nearest_even];
    try (left; reflexivity); try (right; split; reflexivity).
  destruct (Z.even m); [left | right]; auto.
Qed.


Lemma fexp64_eq (e : Z) : fexp64 e = Z.max (e - 53) (-1074).
Proof. reflexivity. Qed.

Lemma shr_fexp_exact (m e : Z) :
  0 <= m ->
  exists mrs n,
    shr_fexp prec emax m e loc_Exact = (mrs, e + n)
    /\ n = Z.max 0 (fexp64 (Zdigits2 m + e) - e)
    /\ shr_m mrs = m / 2 ^ n
    /\ (0 < n -> shr_r mrs = Z.testbit m (n - 1))
    /\ (n = 0 -> shr_r mrs = false).
Proof.
  intros Hm. unfold shr_fexp. fold (fexp64 (Zdigits2 m + e)).
  set (n0 := fexp64 (Zdigits2 m + e) - e).
  destruct (Z_lt_le_dec 0 n0) as [Hpos|Hneg].
  - destruct (shr_shifted m e n0 Hm Hpos) as [mrs [H1 [H2 H3]]].
    exists mrs, n0. rewrite H1. repeat split; intros; try assumption; try lia.
  - exists (shr_record_of_loc m loc_Exact), 0.
    assert (Hs : shr (shr_record_of_loc m loc_Exact) e n0 = (shr_record_of_loc m loc_Exact, e)).
    { destruct n0; try reflexivity. lia. }
    rewrite Hs, Z.add_0_r. repeat split; intros; try reflexivity; try lia.
    cbn [shr_record_of_loc shr_m]. now rewrite Z.pow_0_r, Z.div_1_r.
Qed.

Lemma pow2_lt_exp (a b : Z) : 0 <= b -> 2 ^ a < 2 ^ b -> a < b.
Proof. intros Hb H. apply (Z.pow_lt_mono_r_iff 2); lia. Qed.

Lemma pow2_le_lt (a b x : Z) : 0 <= b -> 2 ^ a <= x -> x < 2 ^ b -> a < b.
Proof. intros Hb H1 H2. apply pow2_lt_exp; lia. Qed.

Lemma pow2_split (a b : Z) : 0 <= a -> 0 <= b -> 2 ^ (a + b) = 2 ^ a * 2 ^ b.
Proof. intros. now apply Z.pow_add_r. Qed.

Lemma digits_of_small (m : positive) (k : Z) :
  0 <= k -> Zpos m < 2 ^ k -> Zpos (digits2_pos m) <= k.
Proof.
  intros Hk H. destruct (digits2_bounds m) as [Hlo _].
  assert (Zpos (digits2_pos m) - 1 < k) by (eapply pow2_le_lt; eassumption). lia.
Qed.

Lemma pow2_pos (k : Z) : 0 <= k -> 0 < 2 ^ k.
Proof. intros. apply Z.pow_pos_nonneg; lia. Qed.


(** ** The steps of the fractional loop *)

Lemma shl_align_value (m : positive) (e t : Z) :
  exists m' e', shl_align m e t = (m', e') /\ e' <= e
                /\ Zpos m' = Zpos m * 2 ^ (e - e') /\ (t <= e -> e' = t).
Proof.
  unfold shl_align. destruct (t - e) as [|d|d] eqn:Hd.
  - exists m, e. rewrite Z.sub_diag. repeat split; lia.
  - exists m, e. rewrite Z.sub_diag. repeat split; lia.
  - exists (Pos.iter xO m d), t. repeat split; try lia.
    change (Pos.iter xO m d) with (shift_pos d m).
    rewrite shift_pos_correct, Z.pow_pos_fold. replace (e - t) with (Zpos d) by lia. lia.
Qed.









(** In base 3 the fraction [0.5] comes back after every round: the
    loop never breaks, and with [show_steps] it stops at the first
    round whose number is beyond the limit. *)
Lemma half_in_base_three (P : float_printer) (r : nat) : forall k frac st,
  1 <= k -> formattable (k + Z.of_nat r) = false ->
  dec_to_base_float_for P (S r) 3 true one_half (Some k) frac st
  = Raise digits_limit_error.
Proof.
  assert (Hmul : float_mul_int one_half 3 = Return one_and_a_half)
    by (vm_compute; reflexivity).
  assert (Hint : int_of_float one_and_a_half = Return 1) by (vm_compute; reflexivity).
  assert (Hdiv : float_div_int one_and_a_half 3 = Return one_half)
    by (vm_compute; reflexivity).
  assert (Hsub : float_sub_int one_and_a_half 1 = Return one_half)
    by (vm_compute; reflexivity).
  assert (Hnz : SFeqb one_half fzero = false) by (vm_compute; reflexivity).
  assert (Hstop : forall k r frac st, formattable k = false ->
            dec_to_base_float_for P (S r) 3 true one_half (Some k) frac st
            = Raise digits_limit_error).
  { intros k r0 frac st Hk. cbn [dec_to_base_float_for].
    rewrite Hmul. cbn [bind]. rewrite Hint. cbn [bind].
    change (getitem BASE_DIGITS 1) with (Return (A := char) (ch "1")). cbn [bind load].
    unfold dec_to_base_float_row. now rewrite (format_int_w_limit 4 k Hk). }
  induction r as [|r IH]; intros k frac st Hk Hf.
  - apply Hstop. now rewrite Z.add_0_r in Hf.
  - destruct (formattable k) eqn:Hfk; [|now apply Hstop].
    cbn [dec_to_base_float_for].
    rewrite Hmul. cbn [bind]. rewrite Hint. cbn [bind].
    change (getitem BASE_DIGITS 1) with (Return (A := char) (ch "1")). cbn [bind load].
    unfold dec_to_base_float_row. rewrite Hdiv. formats.
    rewrite Hsub. cbn [bind]. rewrite Hnz.
    apply IH; [lia|]. now replace (k + 1 + Z.of_nat r) with (k + Z.of_nat (S r)) by lia.
Qed.

(** So [dec_to_base_float] cannot show the steps of a precision
    beyond the limit. *)
Lemma dec_to_base_float_steps_limit (P : float_printer) (p : Z) :
  1 <= p -> formattable p = false ->
  proper_fraction one_half
  /\ dec_to_base_float P one_half 3 p true = Raise digits_limit_error.
Proof.
  intros Hp Hf. split; [repeat split|].
  unfold dec_to_base_float.
  change (SFeqb one_half fzero) with false. change (SFltb one_half fzero) with false.
  change (negb ((MIN_BASE <=? 3) && (3 <=? MAX_BASE))) with false. cbv beta iota zeta.
  change (int_of_float one_half) with (Return 0). cbn [bind].
  change (float_sub_int one_half 0) with (Return one_half). cbn [bind].
  change (dec_to_base 0 3 false) with (Return (Plain (lit "0"))). cbn [bind value].
  formats.
  destruct (Z.to_nat p) as [|r] eqn:Er; [lia|].
  rewrite half_in_base_three; [reflexivity | lia |].
  now replace (1 + Z.of_nat r) with p by lia.
Qed.

(** The first number beyond the limit. *)
Lemma beyond_limit : formattable (10 ^ int_max_str_digits) = false.
Proof.
  apply not_true_is_false. intros H. apply formattable_spec in H.
  assert (0 < 10 ^ int_max_str_digits) by (apply Z.pow_pos_nonneg; [lia | discriminate]).
  lia.
Qed.


(** ** The steps *)










Lemma is_numeral_valid (b : Z) (s : str) :
  valid_base b -> is_numeral b s = true ->
  valid_numeral b s = true /\ length (upper (unsigned_part s)) = length (unsigned_part s).
Proof.
  intros Hb Hnum. unfold is_numeral in Hnum.
  apply all_in_Forall in Hnum as [Hne Hall].
  destruct (numeral_chars_digits b _ Hb Hall) as [es [Hes [Hup [Hlen _]]]].
  unfold valid_numeral. rewrite Hup, length_map. split; [|assumption].
  apply all_in_digits; try assumption.
  intros ->. destruct (unsigned_part s); [congruence | discriminate].
Qed.

(** ** What the converters do when their steps are asked for *)




(** A base outside [2, 16] is refused whenever the number is not zero. *)
Lemma bad_base_refused (n b : Z) (show_steps : bool) :
  n <> 0 -> ~ valid_base b -> dec_to_base n b show_steps = Raise base_error.
Proof.
  intros Hn Hb. unfold dec_to_base.
  destruct (Z.eqb_spec n 0); [contradiction|].
  now rewrite (invalid_base_check b Hb).
Qed.

Lemma bad_base_refused_float (P : float_printer) (x : float) (b p : Z) (show_steps : bool) :
  SFeqb x fzero = false -> ~ valid_base b ->
  dec_to_base_float P x b p show_steps = Raise base_error.
Proof.
  intros Hx Hb. unfold dec_to_base_float.
  now rewrite Hx, (invalid_base_check b Hb).
Qed.

(** The fractional digits are at most as many as the rounds. *)
Lemma dec_to_base_float_for_length (P : float_printer) (b : Z) (show_steps : bool)
    (rounds : nat) : forall w sn frac st frac' st',
  dec_to_base_float_for P rounds b show_steps w sn frac st = Return (frac', st') ->
  (length frac' <= length frac + rounds)%nat.
Proof.
  induction rounds as [|r IH]; intros w sn frac st frac' st' H.
  - simpl in H. injection H as <- _. lia.
  - cbn [dec_to_base_float_for] in H.
    destruct (float_mul_int w b) as [w1| |]; try discriminate H. cbn [bind] in H.
    destruct (int_of_float w1) as [d| |]; try discriminate H. cbn [bind] in H.
    destruct (getitem BASE_DIGITS d) as [c| |]; try discriminate H. cbn [bind] in H.
    match type of H with
    | bind ?c _ = _ => destruct c as [[st1 sn1]| |]; try discriminate H
    end.
    cbn [bind] in H.
    destruct (float_sub_int w1 d) as [w2| |]; try discriminate H. cbn [bind] in H.
    destruct (SFeqb w2 fzero).
    + injection H as <- _. rewrite length_app. simpl. lia.
    + apply IH in H. rewrite length_app in H. simpl in H. lia.
Qed.

(** A float whose integer part is not zero stops [dec_to_base_float]
    at the call of [dec_to_base], made without [show_steps]. *)
Lemma float_with_integer_part (P : float_printer) (x : float) (b p : Z)
    (show_steps : bool) (n : Z) (y : float) :
  SFeqb x fzero = false -> valid_base b ->
  int_of_float (if SFltb x fzero then SFabs x else x) = Return n -> 0 < n ->
  float_of_int n = Return y ->
  dec_to_base_float P x b p show_steps = Raise (UnboundLocalError (lit "step_num")).
Proof.
  intros Hx Hb Hint Hn Hy. unfold dec_to_base_float.
  rewrite Hx, (valid_base_check b Hb).
  destruct (SFltb x fzero); cbv beta iota zeta; rewrite Hint; cbn [bind];
    unfold float_sub_int; rewrite Hy; cbn [bind];
    rewrite dec_to_base_untraced by (try assumption; lia); reflexivity.
Qed.

Lemma yields_not_out_of_fuel {A : Type} (show_steps : bool) (c : outcome (ret A)) (v : A) :
  yields show_steps c v -> c <> OutOfFuel.
Proof. intros H E. subst c. exact H. Qed.

(** ** Numerals, canonical or not *)

Ltac prune_eqb :=
  repeat match goal with
         | |- context [?x =? ?y] => destruct (Z.eqb_spec x y); [exfalso; lia|]
         end.

Lemma upper_char_ascii (c : char) :
  is_ascii c ->
  upper_char c = [if (ch "a" <=? c) && (c <=? ch "z") then c - 32 else c].
Proof.
  unfold is_ascii, upper_char. intros Hc.
  destruct ((ch "a" <=? c) && (c <=? ch "z")); [reflexivity|].
  prune_eqb. reflexivity.
Qed.

Lemma sign_unsigned_split (s : str) :
  s = sign_str (startswith s (lit "-")) ++ unsigned_part s.
Proof.
  unfold unsigned_part. destruct s as [|c t]; [reflexivity|].
  cbn [startswith lit list_ascii_of_string map]. rewrite andb_true_r.
  destruct (Z.eqb_spec c (ch "-")) as [->|]; reflexivity.
Qed.

(** The digits of a numeral, least significant first. *)
Lemma numeral_value (b : Z) (s : str) :
  valid_base b -> is_numeral b s = true ->
  exists ds, ds <> [] /\ digits_in b ds
    /\ upper s = sign_str (startswith s (lit "-")) ++ map (digit_char BASE_DIGITS) (rev ds)
    /\ (b <= 10 -> upper s = s)
    /\ length ds = length (unsigned_part s)
    /\ base_to_dec_value s b
       = (if startswith s (lit "-") then - eval_le b ds else eval_le b ds)
    /\ (canonical s = true ->
        last ds 1 <> 0 \/ (ds = [0] /\ startswith s (lit "-") = false)).
Proof.
  intros Hb Hnum. unfold is_numeral in Hnum.
  apply all_in_Forall in Hnum as [Hne Hall].
  destruct (numeral_chars_digits b _ Hb Hall) as [es [Hes [Hup [Hlen [Hdec [Hz _]]]]]].
  assert (Hb16 : b <= 16) by (unfold valid_base, MAX_BASE in Hb; lia).
  assert (Hupper : upper s = sign_str (startswith s (lit "-")) ++ map (digit_char BASE_DIGITS) es).
  { rewrite (sign_unsigned_split s) at 1. rewrite upper_app, Hup.
    now destruct (startswith s (lit "-")). }
  exists (rev es). rewrite rev_involutive, length_rev.
  assert (Hesne : es <> []).
  { intros ->. destruct (unsigned_part s); [congruence | discriminate]. }
  split; [apply rev_nonempty; assumption|].
  split; [apply Forall_rev; assumption|].
  split; [assumption|].
  split; [intros H10; rewrite Hupper, <- Hdec by assumption; symmetry; apply sign_unsigned_split|].
  split; [assumption|].
  split.
  - unfold base_to_dec_value. rewrite Hup, <- map_rev.
    rewrite digit_val_digits by (apply Forall_rev; eapply digits_in_weaken; eassumption).
    reflexivity.
  - unfold canonical. intros Hcan.
    destruct (unsigned_part s) as [|c t]; [discriminate|].
    destruct es as [|e es']; [congruence|].
    cbn [hd] in Hz. cbn [rev]. rewrite last_last.
    destruct (Z.eqb_spec c (ch "0")) as [Hc|Hc].
    + right. destruct t; [|discriminate]. destruct es'; [|discriminate].
      apply Hz in Hc. subst e. split; [reflexivity|].
      now apply negb_true_iff in Hcan.
    + left. intros He. apply Hc, Hz, He.
Qed.


Lemma base_to_dec_numeral (b : Z) (s : str) (show_steps : bool) :
  valid_base b -> is_numeral b s = true ->
  (show_steps = true -> traceable b s = true) ->
  yields show_steps (base_to_dec s b show_steps) (base_to_dec_value s b).
Proof.
  intros Hb Hnum Ht. destruct (is_numeral_valid b s Hb Hnum) as [Hv _].
  rewrite base_to_dec_ok by assumption. destruct show_steps; now split.
Qed.

(** A numeral can be read with steps when its length and its value are
    within the limit. *)
Lemma traceable_numeral (b : Z) (s : str) :
  valid_base b -> is_numeral b s = true ->
  formattable (len s) = true -> formattable (base_to_dec_value s b) = true ->
  traceable b s = true.
Proof.
  intros Hb Hnum Hlen Hval.
  destruct (numeral_value b s Hb Hnum) as [ds [Hne [Hin [Hup [_ [Hl [Hv _]]]]]]].
  rewrite <- (traceable_upper b s _ ds Hb Hne Hin Hup), Hup.
  apply traceable_digits; try assumption.
  - assert (length (unsigned_part s) <= length s)%nat
      by (unfold unsigned_part; destruct (startswith s (lit "-")), s; cbn [tl length]; lia).
    apply (formattable_le _ (len s)); [unfold len; lia | assumption].
  - rewrite Hv in Hval. destruct (startswith s (lit "-"));
      [now rewrite formattable_opp in Hval | assumption].
Qed.

(** An ASCII character that is no digit of the base does not become
    one in capitals. *)
Lemma ascii_not_digit (b : Z) (c : char) :
  valid_base b -> is_ascii c -> in_class (numeral_class b) c = false ->
  forallb (in_class (map One (slice_to BASE_DIGITS b))) (upper_char c) = false.
Proof.
  intros Hb Hc Hn. rewrite (upper_char_ascii c Hc). cbn [forallb]. rewrite andb_true_r.
  apply not_true_is_false. intros Hx. apply not_true_iff_false in Hn. apply Hn. clear Hn.
  apply (valid_char_digit b _ Hb) in Hx as [d [Hd Hx]].
  assert (Hb16 : b <= 16) by (unfold valid_base, MAX_BASE in Hb; lia).
  unfold numeral_class, in_class. rewrite existsb_app. apply orb_true_iff.
  unfold is_ascii in Hc.
  destruct (Z.leb_spec (ch "a") c) as [Ha|Ha], (Z.leb_spec c (ch "z")) as [Hz|Hz];
    cbn [andb] in Hx; change (ch "a") with 97 in *; change (ch "z") with 122 in *.
  - right. apply (in_class_One (lower (slice_to BASE_DIGITS b)) c).
    unfold lower. apply in_flat_map. exists (digit_char BASE_DIGITS d). split.
    + apply in_class_One. apply (valid_char_digit b _ Hb). now exists d.
    + rewrite <- Hx. unfold lower_char.
      assert (E : (ch "A" <=? c - 32) && (c - 32 <=? ch "Z") = true)
        by (change (ch "A") with 65; change (ch "Z") with 90; apply andb_true_iff; split;
            [apply Z.leb_le | apply Z.leb_le]; lia).
      rewrite E. left. lia.
  - left. apply (valid_char_digit b _ Hb). now exists d.
  - left. apply (valid_char_digit b _ Hb). now exists d.
  - left. apply (valid_char_digit b _ Hb). now exists d.
Qed.

Lemma forallb_flat_map {A B : Type} (p : B -> bool) (f : A -> list B) (l : list A) :
  forallb p (flat_map f l) = forallb (fun x => forallb p (f x)) l.
Proof.
  induction l as [|x l IH]; [reflexivity|].
  cbn [flat_map forallb]. now rewrite forallb_app, IH.
Qed.

Lemma upper_nil (t : str) : upper t = [] -> t = [].
Proof.
  destruct t as [|c t]; [reflexivity|]. unfold upper. cbn [flat_map].
  intros E. apply app_eq_nil in E as [E _]. exfalso. revert E.
  unfold upper_char.
  repeat match goal with |- context [if ?b then _ else _] => destruct b end; discriminate.
Qed.

Lemma all_in_upper (items : list citem) (t : str) :
  all_in items (upper t)
  = match t with
    | [] => false
    | _ :: _ => forallb (fun c => forallb (in_class items) (upper_char c)) t
    end.
Proof.
  destruct t as [|c t]; [reflexivity|].
  unfold all_in. destruct (upper (c :: t)) as [|x u] eqn:E.
  - apply upper_nil in E. discriminate.
  - rewrite <- E. apply forallb_flat_map.
Qed.

Lemma base_to_dec_rejects (b : Z) (s : str) (show_steps : bool) :
  valid_base b ->
  unsigned_part s = []
  \/ (exists c, In c (unsigned_part s) /\ is_ascii c /\ in_class (numeral_class b) c = false) ->
  base_to_dec s b show_steps
  = Raise (ValueError (lit "Invalid number for base " ++ str_of_int b)).
Proof.
  intros Hb H. apply base_to_dec_invalid; [assumption|].
  unfold valid_numeral. rewrite all_in_upper.
  destruct H as [->|[c [Hin [Hc Hn]]]]; [reflexivity|].
  destruct (unsigned_part s) as [|x t]; [reflexivity|].
  apply not_true_is_false. intros Hall.
  rewrite forallb_forall in Hall. specialize (Hall c Hin).
  rewrite (ascii_not_digit b c Hb Hc Hn) in Hall. discriminate.
Qed.

(** ** The tests of the readers *)

Lemma digit_char_code (d : Z) :
  0 <= d < 16 -> digit_char BASE_DIGITS d = if d <? 10 then 48 + d else 55 + d.
Proof. intros Hd. digit_cases d; reflexivity. Qed.

(** The digit characters of a base, as ranges of code points. *)
Lemma one_class_range (b x : Z) :
  valid_base b ->
  in_class (map One (slice_to BASE_DIGITS b)) x
  = ((48 <=? x) && (x <? 48 + Z.min b 10)) || ((65 <=? x) && (x <? 55 + b)).
Proof.
  intros Hb. pose proof (valid_char_digit b x Hb) as H.
  assert (Hb16 : 2 <= b <= 16) by (unfold valid_base, MIN_BASE, MAX_BASE in Hb; lia).
  apply eq_true_iff_eq. rewrite H. clear H.
  rewrite orb_true_iff, !andb_true_iff, !Z.leb_le, !Z.ltb_lt. split.
  - intros [d [Hd ->]]. rewrite digit_char_code by lia.
    destruct (Z.ltb_spec d 10); lia.
  - intros [[H1 H2]|[H1 H2]].
    + exists (x - 48). split; [lia|]. rewrite digit_char_code by lia.
      destruct (Z.ltb_spec (x - 48) 10); lia.
    + exists (x - 55). split; [lia|]. rewrite digit_char_code by lia.
      destruct (Z.ltb_spec (x - 55) 10); lia.
Qed.

(** Only a decimal digit becomes a decimal digit in capitals. *)
Lemma upper_char_decimal (n c : Z) :
  0 <= n <= 10 ->
  forallb (fun x => (48 <=? x) && (x <? 48 + n)) (upper_char c)
  = (48 <=? c) && (c <? 48 + n).
Proof.
  intros Hn. upper_cases c; literals; cbn [forallb];
    rewrite ?andb_true_r;
    repeat match goal with
           | |- context [?x <=? ?y] => destruct (Z.leb_spec x y)
           | |- context [?x <? ?y] => destruct (Z.ltb_spec x y)
           end; cbn [andb]; try reflexivity; try lia.
Qed.

Lemma forallb_eq {A : Type} (p q : A -> bool) (l : list A) :
  (forall x, p x = q x) -> forallb p l = forallb q l.
Proof. intros H. induction l as [|x l IH]; [reflexivity|]. cbn [forallb]. now rewrite H, IH. Qed.

Lemma all_in_eq (items items' : list citem) (t : str) :
  (forall x, in_class items x = in_class items' x) -> all_in items t = all_in items' t.
Proof. intros H. destruct t; [reflexivity|]. unfold all_in. now apply forallb_eq. Qed.

Lemma low_base_class (b x : Z) :
  valid_base b -> b <= 10 ->
  in_class (map One (slice_to BASE_DIGITS b)) x = (48 <=? x) && (x <? 48 + b).
Proof.
  intros Hb H10. rewrite one_class_range by assumption.
  rewrite Z.min_l by assumption.
  destruct (Z.leb_spec 65 x), (Z.ltb_spec x (55 + b)); cbn [andb]; rewrite ?orb_false_r;
    try reflexivity; lia.
Qed.

(** In a base up to ten, the test [base_to_dec] makes of the capitals
    is a test of the string itself. *)
Lemma valid_numeral_range (b : Z) (s : str) :
  valid_base b -> b <= 10 ->
  valid_numeral b s
  = match unsigned_part s with
    | [] => false
    | _ :: _ => forallb (fun x => (48 <=? x) && (x <? 48 + b)) (unsigned_part s)
    end.
Proof.
  intros Hb H10. unfold valid_numeral. rewrite all_in_upper.
  destruct (unsigned_part s) as [|c t]; [reflexivity|].
  apply forallb_eq. intros x.
  rewrite <- (upper_char_decimal b x) by (unfold valid_base, MIN_BASE in Hb; lia).
  apply forallb_eq. intros y. now apply low_base_class.
Qed.

Lemma valid_numeral_low (b : Z) (items : list citem) (s : str) :
  valid_base b -> b <= 10 ->
  (forall x, in_class items x = (48 <=? x) && (x <? 48 + b)) ->
  valid_numeral b s = all_in items (unsigned_part s).
Proof.
  intros Hb H10 Hitems. rewrite valid_numeral_range by assumption.
  destruct (unsigned_part s) as [|c t]; [reflexivity|]. unfold all_in.
  apply forallb_eq. intros x. now rewrite Hitems.
Qed.

Lemma bin_class (x : Z) :
  in_class [One (ch "0"); One (ch "1")] x = (48 <=? x) && (x <? 48 + 2).
Proof.
  unfold in_class. cbn [existsb in_item]. literals.
  destruct (Z.eqb_spec x 48), (Z.eqb_spec x 49), (Z.leb_spec 48 x), (Z.ltb_spec x (48 + 2));
    cbn [orb andb]; try reflexivity; lia.
Qed.

Lemma oct_class (x : Z) :
  in_class [Range (ch "0") (ch "7")] x = (48 <=? x) && (x <? 48 + 8).
Proof.
  unfold in_class. cbn [existsb in_item]. literals. rewrite orb_false_r.
  destruct (Z.leb_spec x 55), (Z.leb_spec 48 x), (Z.ltb_spec x (48 + 8));
    cbn [orb andb]; try reflexivity; lia.
Qed.

Lemma hex_class (x : Z) :
  in_class [Range (ch "0") (ch "9"); Range (ch "A") (ch "F")] x
  = in_class (map One (slice_to BASE_DIGITS 16)) x.
Proof.
  rewrite one_class_range by (unfold valid_base, MIN_BASE, MAX_BASE; lia).
  unfold in_class. cbn [existsb in_item]. literals. rewrite orb_false_r.
  change (Z.min 16 10) with 10.
  destruct (Z.leb_spec x 57), (Z.leb_spec 48 x), (Z.ltb_spec x (48 + 10)),
    (Z.leb_spec 65 x), (Z.leb_spec x 70), (Z.ltb_spec x (55 + 16));
    cbn [orb andb]; try reflexivity; lia.
Qed.

Lemma upper_decimal_string (t : str) :
  forallb (fun x => (48 <=? x) && (x <? 58)) t = true -> upper t = t.
Proof.
  induction t as [|c t IH]; [reflexivity|]. cbn [forallb]. intros H.
  apply andb_true_iff in H as [Hc Ht]. unfold upper in *. cbn [flat_map].
  rewrite (IH Ht). rewrite upper_char_ascii
    by (apply andb_true_iff in Hc as [H1 H2]; apply Z.leb_le in H1; apply Z.ltb_lt in H2;
        unfold is_ascii; lia).
  apply andb_true_iff in Hc as [H1 H2]. apply Z.leb_le in H1. apply Z.ltb_lt in H2.
  literals. destruct (Z.leb_spec 97 c); [lia|]. reflexivity.
Qed.

(** A string of digit characters of the base is the image of a list of
    digits. *)
Lemma class_digits (b : Z) (t : str) :
  valid_base b -> all_in (map One (slice_to BASE_DIGITS b)) t = true ->
  exists es, es <> [] /\ digits_in b es /\ t = map (digit_char BASE_DIGITS) es.
Proof.
  intros Hb H. apply all_in_Forall in H as [Hne H].
  assert (G : exists es, digits_in b es /\ t = map (digit_char BASE_DIGITS) es).
  { clear Hne. induction H as [|c t Hc _ IH].
    - exists []. split; [constructor | reflexivity].
    - destruct IH as [es [Hes ->]]. apply (valid_char_digit b c Hb) in Hc as [d [Hd ->]].
      exists (d :: es). split; [constructor; assumption | reflexivity]. }
  destruct G as [es [Hes ->]]. exists es. split; [|split; [assumption | reflexivity]].
  intros ->. now apply Hne.
Qed.

(** What the fixed-base readers make of a string whose capitals
    [base_to_dec] accepts. *)
Lemma to_dec_valid (fb : fixed_base) (s : str) (show_steps : bool) :
  valid_numeral (radix fb) s = true ->
  if show_steps && negb (traceable (radix fb) s)
  then to_dec fb s show_steps = Raise digits_limit_error
  else yields show_steps (to_dec fb s show_steps) (base_to_dec_value s (radix fb)).
Proof.
  intros Hv. pose proof (radix_valid fb) as Hb.
  assert (Hb16 : radix fb <= 16) by (unfold valid_base, MAX_BASE in Hb; lia).
  pose proof Hv as Hv'. unfold valid_numeral in Hv'.
  destruct (class_digits _ _ Hb Hv') as [es [Hne [Hes Hup]]].
  assert (Hupper : upper s = sign_str (startswith s (lit "-"))
                             ++ map (digit_char BASE_DIGITS) (rev (rev es))).
  { rewrite rev_involutive, (sign_unsigned_split s) at 1. rewrite upper_app, Hup.
    now destruct (startswith s (lit "-")). }
  replace (base_to_dec_value s (radix fb))
    with (if startswith s (lit "-") then - eval_le (radix fb) (rev es)
          else eval_le (radix fb) (rev es)).
  - apply to_dec_digits; [assumption | | now apply rev_nonempty | now apply Forall_rev].
    intros H10.
    rewrite (sign_unsigned_split s) at 1. rewrite (sign_unsigned_split s) at 3.
    rewrite upper_app. f_equal; [now destruct (startswith s (lit "-"))|].
    apply upper_decimal_string.
    rewrite valid_numeral_range in Hv by assumption.
    destruct (unsigned_part s) as [|c t]; [discriminate|].
    rewrite forallb_forall in Hv. apply forallb_forall. intros x Hx.
    specialize (Hv x Hx). apply andb_true_iff in Hv as [H1 H2].
    apply Z.leb_le in H1. apply Z.ltb_lt in H2.
    apply andb_true_iff. split; [apply Z.leb_le | apply Z.ltb_lt]; lia.
  - unfold base_to_dec_value. rewrite Hup, <- map_rev.
    rewrite digit_val_digits by (apply Forall_rev; eapply digits_in_weaken; eassumption).
    reflexivity.
Qed.

(** The tests the fixed-base readers make are the test [base_to_dec]
    makes in their base. *)
Lemma bin_to_dec_invalid (s : str) (show_steps : bool) :
  valid_numeral 2 s = false ->
  bin_to_dec s show_steps = Raise (ValueError (lit "Invalid binary number")).
Proof.
  intros Hv.
  rewrite (valid_numeral_low 2 [One (ch "0"); One (ch "1")]) in Hv;
    [|unfold valid_base, MIN_BASE, MAX_BASE; lia | lia | apply bin_class].
  unfold unsigned_part in Hv. unfold bin_to_dec.
  destruct (startswith s (lit "-")); cbv beta iota zeta;
    rewrite fullmatch_plus_class, Hv; reflexivity.
Qed.

Lemma oct_to_dec_invalid (s : str) (show_steps : bool) :
  valid_numeral 8 s = false ->
  oct_to_dec s show_steps = Raise (ValueError (lit "Invalid octal number")).
Proof.
  intros Hv.
  rewrite (valid_numeral_low 8 [Range (ch "0") (ch "7")]) in Hv;
    [|unfold valid_base, MIN_BASE, MAX_BASE; lia | lia | apply oct_class].
  unfold unsigned_part in Hv. unfold oct_to_dec.
  destruct (startswith s (lit "-")); cbv beta iota zeta;
    rewrite fullmatch_plus_class, Hv; reflexivity.
Qed.

Lemma hex_to_dec_invalid (s : str) (show_steps : bool) :
  valid_numeral 16 s = false ->
  hex_to_dec s show_steps = Raise (ValueError (lit "Invalid hexadecimal number")).
Proof.
  intros Hv. unfold valid_numeral in Hv.
  destruct (upper_unsigned s) as [Hs Hu]. rewrite <- Hu in Hv.
  rewrite <- (all_in_eq _ _ _ hex_class) in Hv.
  unfold unsigned_part in Hv. unfold hex_to_dec. cbv zeta.
  destruct (startswith (upper s) (lit "-")); cbv beta iota zeta;
    rewrite fullmatch_plus_class, Hv; reflexivity.
Qed.

Lemma to_dec_invalid (fb : fixed_base) (s : str) (show_steps : bool) :
  valid_numeral (radix fb) s = false ->
  exists m, to_dec fb s show_steps = Raise (ValueError m).
Proof.
  intros Hv. destruct fb; cbn [radix to_dec] in *; eexists.
  - now apply bin_to_dec_invalid.
  - now apply oct_to_dec_invalid.
  - now apply hex_to_dec_invalid.
Qed.

Lemma to_dec_same_answer (fb : fixed_base) (s : str) (show_steps : bool) :
  same_answer show_steps (to_dec fb s show_steps) (base_to_dec s (radix fb) show_steps).
Proof.
  pose proof (radix_valid fb) as Hb.
  destruct (valid_numeral (radix fb) s) eqn:Hv.
  - pose proof (to_dec_valid fb s show_steps Hv) as H.
    rewrite base_to_dec_eq by assumption.
    destruct show_steps; cbn [andb] in H.
    + destruct (traceable (radix fb) s); cbn [negb] in H.
      * left. exists (base_to_dec_value s (radix fb)). split; [exact H | now split].
      * right. eexists. eexists. split; [exact H | reflexivity].
    + left. exists (base_to_dec_value s (radix fb)). split; [exact H | now split].
  - right. destruct (to_dec_invalid fb s show_steps Hv) as [m Hm].
    exists m. eexists. split; [exact Hm|]. now apply base_to_dec_invalid.
Qed.


(** ** The shape of the printed numerals *)






(** ** [detect_base] and [base_to_dec] *)

Lemma detect_base_unfold (s : str) : detect_base s = detect_base_spec s.
Proof.
  unfold detect_base, detect_base_spec.
  change (lit "0b") with [ch "0"; ch "b"]. change (lit "0o") with [ch "0"; ch "o"].
  change (lit "0x") with [ch "0"; ch "x"].
  rewrite !startswith_lower by (vm_compute; intuition discriminate).
  rewrite !fullmatch_signed_class by reflexivity.
  rewrite (all_in_digits_below _ 2), (all_in_digits_below _ 8),
    (all_in_digits_below _ 10), (all_in_digits_below _ 16)
    by (intros c; apply class_digit_below; tauto).
  reflexivity.
Qed.

Lemma lstrip_spaces (pre x : str) :
  forallb is_space pre = true -> lstrip (pre ++ x) = lstrip x.
Proof.
  induction pre as [|c pre IH]; [reflexivity|]. cbn [forallb app lstrip].
  intros H. apply andb_true_iff in H as [-> H]. now apply IH.
Qed.

Lemma rstrip_spaces (x post : str) :
  forallb is_space post = true -> rstrip (x ++ post) = rstrip x.
Proof.
  intros H. unfold rstrip. rewrite rev_app_distr. f_equal. apply lstrip_spaces.
  apply forallb_forall. intros c Hc. apply in_rev in Hc.
  rewrite forallb_forall in H. now apply H.
Qed.

Lemma strip_spaces (pre s post : str) :
  forallb is_space pre = true -> forallb is_space post = true ->
  strip (pre ++ s ++ post) = strip s.
Proof.
  intros Hpre Hpost. unfold strip. rewrite lstrip_spaces by assumption.
  induction s as [|c s IH].
  - cbn [app]. rewrite <- (app_nil_r post), lstrip_spaces by assumption. reflexivity.
  - cbn [app lstrip]. destruct (is_space c); [exact IH|].
    now apply (rstrip_spaces (c :: s)).
Qed.

Lemma lower_digit_code (d : Z) :
  0 <= d < 16 ->
  lower_char (digit_char BASE_DIGITS d) = [if d <? 10 then 48 + d else 87 + d].
Proof. intros Hd. digit_cases d; reflexivity. Qed.

Lemma digit_below_iff (b c : Z) :
  digit_below b c = true
  <-> (48 <= c <= 57 /\ c - 48 < b) \/ (65 <= c <= 70 /\ c - 55 < b)
      \/ (97 <= c <= 102 /\ c - 87 < b).
Proof.
  unfold digit_below, digit_value_ci. literals.
  repeat match goal with
         | |- context [?x <=? ?y] => destruct (Z.leb_spec x y)
         end; cbn [andb]; rewrite ?Z.ltb_lt; split; intros Hc; try discriminate; lia.
Qed.

(** The characters of a numeral are the digits below the base, in
    either case. *)
Lemma numeral_class_below (b c : Z) :
  valid_base b -> in_class (numeral_class b) c = digit_below b c.
Proof.
  intros Hb.
  assert (Hb16 : 2 <= b <= 16) by (unfold valid_base, MIN_BASE, MAX_BASE in Hb; lia).
  apply eq_true_iff_eq.
  unfold numeral_class, in_class. rewrite existsb_app, orb_true_iff.
  change (existsb (in_item c) (map One (slice_to BASE_DIGITS b)))
    with (in_class (map One (slice_to BASE_DIGITS b)) c).
  change (existsb (in_item c) (map One (lower (slice_to BASE_DIGITS b))))
    with (in_class (map One (lower (slice_to BASE_DIGITS b))) c).
  rewrite (valid_char_digit b c Hb), in_class_One.
  unfold lower. rewrite in_flat_map, digit_below_iff. split.
  - intros [[d [Hd ->]]|[x [Hx Hc]]].
    + rewrite digit_char_code by lia. destruct (Z.ltb_spec d 10); lia.
    + apply in_class_One, (valid_char_digit b x Hb) in Hx as [d [Hd ->]].
      rewrite lower_digit_code in Hc by lia. destruct Hc as [<-|[]].
      destruct (Z.ltb_spec d 10); lia.
  - intros [[H1 H2]|[[H1 H2]|[H1 H2]]].
    + left. exists (c - 48). split; [lia|]. rewrite digit_char_code by lia.
      destruct (Z.ltb_spec (c - 48) 10); lia.
    + left. exists (c - 55). split; [lia|]. rewrite digit_char_code by lia.
      destruct (Z.ltb_spec (c - 55) 10); lia.
    + right. exists (digit_char BASE_DIGITS (c - 87)). split.
      * apply in_class_One, (valid_char_digit b _ Hb). exists (c - 87). split; [lia | reflexivity].
      * rewrite lower_digit_code by lia. destruct (Z.ltb_spec (c - 87) 10); [lia|].
        left. lia.
Qed.

Lemma is_numeral_below (b : Z) (s : str) :
  valid_base b -> is_numeral b s = all_digits_below b (unsigned_part s).
Proof.
  intros Hb. unfold is_numeral. apply all_in_digits_below.
  intros c. now apply numeral_class_below.
Qed.

Lemma forallb_false {A : Type} (p : A -> bool) (l : list A) :
  forallb p l = false -> exists x, In x l /\ p x = false.
Proof.
  induction l as [|x l IH]; [discriminate|]. cbn [forallb].
  destruct (p x) eqn:E.
  - intros H. destruct (IH H) as [y [Hy Hp]]. exists y. split; [now right | assumption].
  - intros _. exists x. split; [now left | assumption].
Qed.

Lemma digit_below_ascii (b c : Z) : digit_below b c = true -> is_ascii c.
Proof. rewrite digit_below_iff. unfold is_ascii. lia. Qed.

(** A body of digits below [b] that are not all below [b'] is refused
    in base [b']. *)
Lemma narrower_base_rejects (b b' : Z) (t : str) (show_steps : bool) :
  valid_base b' ->
  all_digits_below b (unsigned_part t) = true ->
  all_digits_below b' (unsigned_part t) = false ->
  base_to_dec t b' show_steps
  = Raise (ValueError (lit "Invalid number for base " ++ str_of_int b')).
Proof.
  intros Hb' Hb Hn. apply base_to_dec_rejects; [assumption|]. right.
  unfold all_digits_below in *. destruct (unsigned_part t) as [|c u]; [discriminate|].
  destruct (forallb_false _ _ Hn) as [x [Hx Hp]]. exists x. split; [assumption|].
  rewrite forallb_forall in Hb. split.
  - apply (digit_below_ascii b). now apply Hb.
  - now rewrite numeral_class_below.
Qed.

Ltac valid := unfold valid_base, MIN_BASE, MAX_BASE; lia.

(** ** The integer part of a float *)

Lemma digits_unique (p : positive) (k : Z) :
  2 ^ (k - 1) <= Zpos p < 2 ^ k -> Zpos (digits2_pos p) = k.
Proof.
  intros [Hlo Hhi]. destruct (digits2_bounds p) as [Hlo' Hhi'].
  assert (Hk : 0 <= k).
  { destruct (Z_lt_le_dec k 0) as [Hneg|]; [|assumption].
    rewrite (Z.pow_neg_r 2 k) in Hhi by assumption. lia. }
  assert (Zpos (digits2_pos p) - 1 < k) by (eapply pow2_le_lt; eassumption).
  assert (k - 1 < Zpos (digits2_pos p)) by (eapply pow2_le_lt; [lia | eassumption..]).
  lia.
Qed.

(** A mantissa of 53 bits with an exponent of the range is not rounded. *)
Lemma exact_shift (M : positive) (E : Z) :
  Zpos (digits2_pos M) = 53 -> -1074 <= E ->
  exists mrs, shr_fexp prec emax (Zpos M) E loc_Exact = (mrs, E)
              /\ shr_m mrs = Zpos M /\ shr_r mrs = false.
Proof.
  intros Hd HE.
  destruct (shr_fexp_exact (Zpos M) E ltac:(lia)) as [mrs [n [Hs [Hn [Hm [_ Hr]]]]]].
  cbn [Zdigits2] in Hn. rewrite Hd, fexp64_eq in Hn.
  assert (Hn0 : n = 0) by lia. clear Hn.
  exists mrs. rewrite Hn0, Z.add_0_r in Hs. split; [exact Hs|].
  rewrite Hn0, Z.pow_0_r, Z.div_1_r in Hm. split; [exact Hm | now apply Hr].
Qed.

Lemma exact_round (M : positive) (E : Z) :
  Zpos (digits2_pos M) = 53 -> -1074 <= E <= 971 ->
  binary_round_aux prec emax false (Zpos M) E loc_Exact = S754_finite false M E.
Proof.
  intros Hd HE. unfold binary_round_aux.
  destruct (exact_shift M E Hd ltac:(lia)) as [mrs [Hs [Hm Hr]]]. rewrite Hs.
  destruct (round_nearest_even_cases mrs) as [Hc|[_ Hc]]; [|congruence].
  rewrite Hc, Hm, Hs, Hm.
  replace (E <=? emax - prec) with true; [reflexivity|].
  symmetry. apply Z.leb_le. change (emax - prec) with 971. lia.
Qed.

(** An integer of at most 53 bits is a float. *)
Lemma narrow_int_float (q : positive) :
  Zpos (digits2_pos q) <= 53 ->
  exists m e, mkfloat (Zpos q) 0 = S754_finite false m e.
Proof.
  intros Hd. unfold mkfloat, binary_normalize, binary_round.
  set (d := Zpos (digits2_pos q)) in *.
  pose proof (digits2_bounds q) as Hq. fold d in Hq.
  assert (Hd1 : 1 <= d) by (unfold d; lia).
  change (fexp prec emax (d + 0)) with (fexp64 (d + 0)). rewrite fexp64_eq.
  replace (Z.max (d + 0 - 53) (-1074)) with (d - 53) by lia.
  destruct (shl_align_value q 0 (d - 53)) as [m' [e' [Hsa [_ [Hm' He']]]]].
  rewrite Hsa. specialize (He' ltac:(lia)). subst e'.
  replace (0 - (d - 53)) with (53 - d) in Hm' by lia.
  exists m', (d - 53). apply exact_round; [|lia].
  apply digits_unique. rewrite Hm'.
  assert (Hp : 0 < 2 ^ (53 - d)) by (apply pow2_pos; lia).
  assert (H52 : 2 ^ 52 = 2 ^ (d - 1) * 2 ^ (53 - d))
    by (rewrite <- pow2_split by lia; f_equal; lia).
  assert (H53 : 2 ^ 53 = 2 ^ d * 2 ^ (53 - d))
    by (rewrite <- pow2_split by lia; f_equal; lia).
  change (53 - 1) with 52. rewrite H52, H53. nia.
Qed.

(** So is a longer one whose bits below the first 53 are zero. *)
Lemma wide_int_float (m : positive) (e : Z) (q : positive) :
  Zpos (digits2_pos m) <= 53 -> 0 <= e <= 971 -> 53 < Zpos (digits2_pos m) + e ->
  Zpos q = Zpos m * 2 ^ e ->
  exists m' e', mkfloat (Zpos q) 0 = S754_finite false m' e'.
Proof.
  intros Hdm He Hwide Hq. set (dm := Zpos (digits2_pos m)) in *.
  pose proof (digits2_bounds m) as Hm. fold dm in Hm.
  assert (Hdm1 : 1 <= dm) by (unfold dm; lia).
  assert (Hpe : 0 < 2 ^ e) by (apply pow2_pos; lia).
  assert (Hdq : Zpos (digits2_pos q) = dm + e).
  { apply digits_unique. rewrite Hq.
    replace (dm + e - 1) with (dm - 1 + e) by lia. rewrite !pow2_split by lia. nia. }
  unfold mkfloat, binary_normalize, binary_round. rewrite Hdq.
  change (fexp prec emax (dm + e + 0)) with (fexp64 (dm + e + 0)). rewrite fexp64_eq.
  replace (Z.max (dm + e + 0 - 53) (-1074)) with (dm + e - 53) by lia.
  set (n1 := dm + e - 53).
  assert (Hsa : shl_align q 0 n1 = (q, 0)).
  { unfold shl_align. destruct (n1 - 0) eqn:E; try reflexivity. lia. }
  rewrite Hsa. unfold binary_round_aux.
  destruct (shr_fexp_exact (Zpos q) 0 ltac:(lia)) as [mrs [n [Hs [Hn [Hm1 [Hr _]]]]]].
  cbn [Zdigits2] in Hn. rewrite Hdq, fexp64_eq in Hn.
  assert (Hn1 : n = n1) by (unfold n1; lia). clear Hn. rewrite Hn1 in *. clear Hn1.
  rewrite Hs. cbn [Z.add].
  assert (Hbit : shr_r mrs = false).
  { rewrite Hr by (unfold n1; lia). rewrite Hq. apply Z.mul_pow2_bits_low. unfold n1. lia. }
  destruct (round_nearest_even_cases mrs) as [Hc|[_ Hc]]; [|congruence].
  rewrite Hc, Hm1.
  assert (Hdiv : Zpos q / 2 ^ n1 = Zpos m * 2 ^ (53 - dm)).
  { rewrite Hq. replace e with ((53 - dm) + n1) at 1 by (unfold n1; lia).
    rewrite pow2_split by (unfold n1; lia). rewrite Z.mul_assoc.
    apply Z.div_mul. apply Z.pow_nonzero; unfold n1; lia. }
  rewrite Hdiv.
  assert (Hp : 0 < 2 ^ (53 - dm)) by (apply pow2_pos; lia).
  destruct (Zpos m * 2 ^ (53 - dm)) as [|M|M] eqn:EM; try lia.
  assert (HdM : Zpos (digits2_pos M) = 53).
  { apply digits_unique. rewrite <- EM.
    assert (H52 : 2 ^ 52 = 2 ^ (dm - 1) * 2 ^ (53 - dm))
      by (rewrite <- pow2_split by lia; f_equal; lia).
    assert (H53 : 2 ^ 53 = 2 ^ dm * 2 ^ (53 - dm))
      by (rewrite <- pow2_split by lia; f_equal; lia).
    change (53 - 1) with 52. rewrite H52, H53. nia. }
  destruct (exact_shift M n1 HdM ltac:(unfold n1; lia)) as [mrs2 [Hs2 [Hm2 _]]].
  rewrite Hs2, Hm2.
  replace (n1 <=? emax - prec) with true; [now exists M, n1|].
  symmetry. apply Z.leb_le. change (emax - prec) with 971. unfold n1. lia.
Qed.

(** The integer part of a float is a float. *)
Lemma float_of_trunc (s : bool) (m : positive) (e : Z) :
  valid_binary prec emax (S754_finite s m e) = true ->
  Z.shiftl (Zpos m) e <> 0 ->
  exists y, float_of_int (Z.shiftl (Zpos m) e) = Return y.
Proof.
  intros Hv Hn. cbn [valid_binary] in Hv. unfold bounded, canonical_mantissa in Hv.
  apply andb_true_iff in Hv as [Hc He]. apply Z.eqb_eq in Hc. apply Z.leb_le in He.
  change (fexp prec emax (Zpos (digits2_pos m) + e)) with (fexp64 (Zpos (digits2_pos m) + e)) in Hc.
  rewrite fexp64_eq in Hc. change (emax - prec) with 971 in He.
  assert (Hd : Zpos (digits2_pos m) <= 53) by lia.
  pose proof (digits2_bounds m) as Hm.
  assert (Hfin : exists m' e', mkfloat (Z.shiftl (Zpos m) e) 0 = S754_finite false m' e').
  { destruct (Z_lt_le_dec e 0) as [Hneg|Hpos].
    - rewrite (Z.shiftl_div_pow2 (Zpos m) e ltac:(lia)) in Hn |- *.
      assert (Hp : 0 < 2 ^ (- e)) by (apply pow2_pos; lia).
      assert (H0 : 0 <= Zpos m / 2 ^ (- e)) by (apply Z.div_pos; lia).
      destruct (Zpos m / 2 ^ (- e)) as [|q|q] eqn:Eq; try lia.
      apply narrow_int_float. apply digits_of_small; [lia|].
      rewrite <- Eq.
      assert (Zpos m / 2 ^ (- e) <= Zpos m) by (apply Z.div_le_upper_bound; nia).
      assert (2 ^ Zpos (digits2_pos m) <= 2 ^ 53) by (apply Z.pow_le_mono_r; lia). lia.
    - rewrite (Z.shiftl_mul_pow2 (Zpos m) e Hpos) in Hn |- *.
      assert (Hp : 0 < 2 ^ e) by (apply pow2_pos; lia).
      destruct (Zpos m * 2 ^ e) as [|q|q] eqn:Eq; try lia.
      destruct (Z_le_gt_dec (Zpos (digits2_pos m) + e) 53) as [Hnarrow|Hwide].
      + apply narrow_int_float.
        replace (Zpos (digits2_pos q)) with (Zpos (digits2_pos m) + e); [assumption|].
        symmetry. apply digits_unique. rewrite <- Eq.
        replace (Zpos (digits2_pos m) + e - 1) with (Zpos (digits2_pos m) - 1 + e) by lia.
        rewrite !pow2_split by lia. nia.
      + apply (wide_int_float m e q); try assumption; lia. }
  destruct Hfin as [m' [e' Hf]]. unfold float_of_int. rewrite Hf. eexists. reflexivity.
Qed.

(** ** Reading from the console *)

Section ReadNumber.

Variable prompt error_msg : str.
Variable validator : str -> outcome bool.

Lemma read_number_round_rejects (line : str) (rest : list str) (out : str) :
  validator (strip line) = Return false ->
  read_number_round prompt validator error_msg {| stdin := line :: rest; stdout := out |}
  = (Done None, {| stdin := rest; stdout := out ++ complaint prompt error_msg |}).
Proof.
  intros Hv. unfold read_number_round, except_ValueError, io_bind, input, lift, print, io_ret.
  cbn [stdin stdout tl]. rewrite Hv. cbn [stdin stdout].
  unfold complaint. now rewrite <- !app_assoc.
Qed.

Lemma read_number_round_accepts (line : str) (rest : list str) (out : str) :
  validator (strip line) = Return true ->
  read_number_round prompt validator error_msg {| stdin := line :: rest; stdout := out |}
  = (Done (Some (strip line)), {| stdin := rest; stdout := out ++ prompt |}).
Proof.
  intros Hv. unfold read_number_round, except_ValueError, io_bind, input, lift, io_ret.
  cbn [stdin stdout tl]. now rewrite Hv.
Qed.

Lemma read_number_round_eof (out : str) :
  read_number_round prompt validator error_msg {| stdin := []; stdout := out |}
  = (Failed EOFError, {| stdin := []; stdout := out ++ prompt |}).
Proof. reflexivity. Qed.

Lemma read_number_loop_rejected (rejected : list str) : forall fuel tail out,
  Forall (fun l => validator (strip l) = Return false) rejected ->
  read_number_loop (length rejected + fuel) prompt validator error_msg
    {| stdin := rejected ++ tail; stdout := out |}
  = read_number_loop fuel prompt validator error_msg
      {| stdin := tail;
         stdout := out ++ concat (map (fun _ => complaint prompt error_msg) rejected) |}.
Proof.
  induction rejected as [|l rejected IH]; intros fuel tail out H.
  - cbn [length Nat.add app map concat]. now rewrite app_nil_r.
  - inversion H as [|? ? Hl Hr]; subst. cbn [length Nat.add app read_number_loop].
    unfold io_bind at 1. rewrite read_number_round_rejects by assumption.
    rewrite IH by assumption. cbn [map concat]. now rewrite <- app_assoc.
Qed.


End ReadNumber.






(** ** The colour schemes *)



(** ** The steps of the fixed-base converters *)

















(** ** The steps of the character converters *)

(** [bin(n)[2:]] and [hex(n)[2:].upper()] for a number that is not
    negative. *)
Lemma py_bin_digits (n : Z) :
  0 <= n -> skipn 2 (py_bin n) = map (digit_char BASE_DIGITS) (rev (num_digits 2 n)).
Proof.
  intros Hn. unfold py_bin, sign_of. destruct (Z.ltb_spec n 0); [lia|].
  cbn [app lit list_ascii_of_string map skipn]. rewrite Z.abs_eq by assumption.
  rewrite numeral_digits by reflexivity.
  apply map_ext_in. intros d Hd. apply in_rev in Hd.
  pose proof (num_digits_in 2 n ltac:(lia)) as Hin. unfold digits_in in Hin.
  rewrite Forall_forall in Hin. specialize (Hin d Hd).
  assert (d = 0 \/ d = 1) as [->| ->] by lia; reflexivity.
Qed.

Lemma py_hex_digits (n : Z) :
  0 <= n ->
  upper (skipn 2 (py_hex n)) = map (digit_char BASE_DIGITS) (rev (num_digits 16 n)).
Proof.
  intros Hn. unfold py_hex, sign_of. destruct (Z.ltb_spec n 0); [lia|].
  cbn [app lit list_ascii_of_string map skipn]. rewrite Z.abs_eq by assumption.
  rewrite numeral_digits by reflexivity.
  pose proof (num_digits_in 16 n ltac:(lia)) as Hin. unfold digits_in in Hin.
  apply Forall_rev in Hin.
  induction Hin as [|d ds Hd _ IH]; [reflexivity|].
  unfold upper in *. cbn [map flat_map]. rewrite IH.
  digit_cases d; reflexivity.
Qed.

(** ** The fuel of the loops *)

Ltac fuel_cases :=
  cbn [bind];
  repeat match goal with
         | |- context [formattable ?x] => destruct (formattable x); cbn [bind]
         end;
  try discriminate.

Ltac loop_ends :=
  match goal with
  | |- context [while ?f ?c ?body ?st] =>
      let E := fresh "E" in
      destruct (while f c body st) as [[[[w k] ds] st']| |] eqn:E;
      [fuel_cases | discriminate | exfalso; revert E]
  end.

Lemma dec_to_base_fuel (n b : Z) (show_steps : bool) :
  dec_to_base n b show_steps <> OutOfFuel.
Proof.
  unfold dec_to_base, format_int.
  destruct (Z.eqb_spec n 0) as [->|Hn]; [destruct show_steps; fuel_cases|].
  destruct (Z.leb_spec MIN_BASE b), (Z.leb_spec b MAX_BASE); cbn [andb negb];
    try discriminate.
  assert (Hf : 0 <= Z.abs n < 2 ^ Z.of_nat (fuel_for (Z.abs n)))
    by (split; [lia | apply fuel_for_bound; lia]).
  destruct (Z.ltb_spec n 0) as [Hneg|Hnneg]; cbv beta iota zeta;
    [|replace (Z.abs n) with n in Hf by lia];
    destruct show_steps; fuel_cases; loop_ends;
    apply (while_fuel (dec_to_base_body b _) b); auto; try (unfold MIN_BASE in *; lia);
    intros; apply dec_to_base_body_round.
Qed.

Lemma dec_to_bin_fuel (n : Z) (show_steps : bool) :
  dec_to_bin n show_steps <> OutOfFuel.
Proof.
  unfold dec_to_bin, format_int.
  destruct (Z.eqb_spec n 0) as [->|Hn]; [destruct show_steps; discriminate|].
  destruct (Z.ltb_spec n 0) as [Hneg|Hnneg]; cbv beta iota zeta.
  - fold (twos_complement n). pose proof (twos_complement_bounds n Hneg).
    assert (0 < 2 ^ bit_length n)
      by (apply Z.pow_pos_nonneg; [lia | apply bit_length_nonneg]).
    pose proof (fuel_for_bound (twos_complement n) ltac:(lia)).
    destruct show_steps; fuel_cases; loop_ends;
      apply (while_fuel (dec_to_bin_body _) 2); try lia;
      intros; apply dec_to_bin_body_round.
  - pose proof (fuel_for_bound n ltac:(lia)).
    destruct show_steps; fuel_cases; loop_ends;
      apply (while_fuel (dec_to_bin_body _) 2); try lia;
      intros; apply dec_to_bin_body_round.
Qed.

Lemma dec_to_oct_fuel (n : Z) (show_steps : bool) :
  dec_to_oct n show_steps <> OutOfFuel.
Proof.
  unfold dec_to_oct, format_int.
  destruct (Z.eqb_spec n 0) as [->|Hn]; [destruct show_steps; discriminate|].
  assert (Hf : 0 <= Z.abs n < 2 ^ Z.of_nat (fuel_for (Z.abs n)))
    by (split; [lia | apply fuel_for_bound; lia]).
  destruct (Z.ltb_spec n 0) as [Hneg|Hnneg]; cbv beta iota zeta;
    [|replace (Z.abs n) with n in Hf by lia];
    destruct show_steps; fuel_cases; loop_ends;
    apply (while_fuel (dec_to_oct_body _) 8); auto; try lia;
    intros; apply dec_to_oct_body_round.
Qed.

Lemma dec_to_hex_fuel (n : Z) (show_steps : bool) :
  dec_to_hex n show_steps <> OutOfFuel.
Proof.
  unfold dec_to_hex, format_int.
  destruct (Z.eqb_spec n 0) as [->|Hn]; [destruct show_steps; discriminate|].
  assert (Hf : 0 <= Z.abs n < 2 ^ Z.of_nat (fuel_for (Z.abs n)))
    by (split; [lia | apply fuel_for_bound; lia]).
  destruct (Z.ltb_spec n 0) as [Hneg|Hnneg]; cbv beta iota zeta;
    [|replace (Z.abs n) with n in Hf by lia];
    destruct show_steps; fuel_cases; loop_ends;
    apply (while_fuel (dec_to_hex_body _) 16); auto; try lia;
    intros; apply dec_to_hex_body_round.
Qed.

(** * 5. The statements of the specification *)

(** C1: [base_to_dec(dec_to_base(n, b), b) == n] for every integer [n]
    and base [b] in [2, 16].  On the code the inner call, made as the
    statement makes it, does not return for a non-zero [n]: for [n = 5]
    and [b = 2] it raises [UnboundLocalError] on [step_num], which only
    [show_steps] binds, so the round trip never reaches [base_to_dec]. *)
Theorem C1_round_trip_stops : dec_to_base 5 2 false = Raise (UnboundLocalError (lit "step_num")).
Proof. reflexivity. Qed.

(** C2: for a negative [n], [dec_to_bin(n)] returns ["-"] followed by
    the binary digits of [(1 << (bit_length + 1)) + n], so that
    [dec_to_bin(-1) == "-11"].  On the code the call raises
    [UnboundLocalError] on [step_num]; with [show_steps] it returns
    ["-11"]. *)
Theorem C2_dec_to_bin_negative_raises :
  dec_to_bin (-1) false = Raise (UnboundLocalError (lit "step_num"))
  /\ yields true (dec_to_bin (-1) true) (lit "-11").
Proof. split; [reflexivity | now split]. Qed.




(** C4: for [n >= 0], [dec_to_bin(n)], [dec_to_oct(n)] and
    [dec_to_hex(n)] return what [dec_to_base(n, 2)], [dec_to_base(n, 8)]
    and [dec_to_base(n, 16)] return.  On the code none of the four calls
    returns for [n = 5]: each raises [UnboundLocalError] on [step_num]. *)
Theorem C4_wrappers_raise :
  dec_to_bin 5 false = Raise (UnboundLocalError (lit "step_num"))
  /\ dec_to_oct 5 false = Raise (UnboundLocalError (lit "step_num"))
  /\ dec_to_hex 5 false = Raise (UnboundLocalError (lit "step_num"))
  /\ dec_to_base 5 2 false = Raise (UnboundLocalError (lit "step_num")).
Proof. repeat split. Qed.

(** C5: a base outside [2, 16] is refused with the error of the base,
    whatever the number, zero included.  On the code [dec_to_base] and
    [dec_to_base_float] answer zero before they look at the base: in
    base 17 they return ["0"] and ["0.0"], where [base_to_dec] raises. *)
Theorem C5_zero_skips_base_check :
  dec_to_base 0 17 false = Return (Plain (lit "0"))
  /\ (forall P, dec_to_base_float P fzero 17 10 false = Return (Plain (lit "0.0")))
  /\ base_to_dec (lit "0") 17 false = Raise base_error.
Proof. repeat split. Qed.




(** C7: for every float [x], base in [2, 16] and precision [p >= 1],
    [dec_to_base_float(x, b, p)] returns at most [p] fractional digits,
    got by multiplying, truncating and subtracting, and
    [dec_to_base_float(0.5, 2, 10) == "0.1"].  On the code a float with
    an integer part does not get that far: for [x = 1.5] the call of
    [dec_to_base] on the integer part raises [UnboundLocalError]; [0.5],
    whose integer part is zero, is converted as stated. *)
Theorem C7_integer_part_raises :
  forall P,
    dec_to_base_float P one_and_a_half 2 10 false
    = Raise (UnboundLocalError (lit "step_num"))
    /\ dec_to_base_float P one_half 2 10 false = Return (Plain (lit "0.1")).
Proof. intros P. split; reflexivity. Qed.

(** C8: [detect_base] trims the string, answers 2, 8 or 16 to a prefix
    [0b], [0o] or [0x] in either case without a look at the rest, and
    otherwise names the narrowest of the classes binary, octal, decimal
    and hexadecimal that holds the body after the optional minus sign, or
    0 when none does; so ["101"] is 2, ["0x1F"] is 16, ["89"] is 10 and
    ["Z"] is 0. *)
Theorem C8_detect_base :
  (forall s, detect_base s = detect_base_spec s)
  /\ detect_base (lit "101") = 2
  /\ detect_base (lit "0x1F") = 16
  /\ detect_base (lit "89") = 10
  /\ detect_base (lit "Z") = 0.
Proof.
  split; [|repeat split; reflexivity].
  intros s. unfold detect_base, detect_base_spec.
  change (lit "0b") with [ch "0"; ch "b"]. change (lit "0o") with [ch "0"; ch "o"].
  change (lit "0x") with [ch "0"; ch "x"].
  rewrite !startswith_lower by (vm_compute; intuition discriminate).
  rewrite !fullmatch_signed_class by reflexivity.
  rewrite (all_in_digits_below _ 2), (all_in_digits_below _ 8),
    (all_in_digits_below _ 10), (all_in_digits_below _ 16)
    by (intros c; apply class_digit_below; tauto).
  reflexivity.
Qed.

(** C9: for a non-zero float without fractional part, such as [5.0],
    [dec_to_base_float] returns the integer numeral followed by [".0"],
    so that [dec_to_base_float(5.0, 2, 10) == "101.0"].  On the code the
    call raises [UnboundLocalError], from [dec_to_base] on the integer
    part 5. *)
Theorem C9_integral_float_raises :
  forall P,
    dec_to_base_float P five 2 10 false
    = Raise (UnboundLocalError (lit "step_num")).
Proof. intros P. reflexivity. Qed.

(** C10: for every code point of [0, 1114111], the surrogates
    [0xD800 .. 0xDFFF] among them, [ascii_to_char] succeeds and returns
    one character, which [char_to_ascii] maps back to the code point;
    and [ascii_to_char] raises exactly when the code point is outside
    that range. *)
Theorem C10_code_point_round_trip (cp : Z) (show_steps : bool) :
  (0 <= cp <= 1114111 ->
   exists c, yields show_steps (ascii_to_char cp show_steps) c
             /\ len c = 1
             /\ forall show_steps', yields show_steps' (char_to_ascii c show_steps') cp)
  /\ ((exists e, ascii_to_char cp show_steps = Raise e) <-> ~ 0 <= cp <= 1114111).
Proof.
  unfold ascii_to_char, chr.
  destruct (Z.leb_spec 0 cp) as [H0|H0], (Z.leb_spec cp 1114111) as [H1|H1];
    cbn [andb negb bind]; (split; [intros Hr; try lia | split]).
  - assert (Hf : formattable cp = true) by (apply formattable_small; lia).
    exists [cp]. split; [destruct show_steps; formats; now split|]. split; [reflexivity|].
    intros f. unfold char_to_ascii, ord. change (len [cp] =? 1) with true.
    cbn [negb bind]. destruct f; formats; now split.
  - intros [e He].
    destruct show_steps; rewrite ?format_int_ok in He by (apply formattable_small; lia);
      discriminate He.
  - intros Hn. lia.
  - intros _. lia.
  - intros _. eexists. reflexivity.
  - intros _. lia.
  - intros _. eexists. reflexivity.
  - intros _. lia.
  - intros _. eexists. reflexivity.
Qed.

(** The surrogates are code points like the others. *)
Lemma C10_surrogate_witness :
  exists c, yields false (ascii_to_char 55296 false) c
            /\ len c = 1
            /\ forall show_steps', yields show_steps' (char_to_ascii c show_steps') 55296.
Proof. apply (proj1 (C10_code_point_round_trip 55296 false)). lia. Defined.

(** * 6. Further properties of the program *)





(** The loops of the four converters always have fuel enough: none of
    them runs out of it, whatever the number, the base and the flag. *)
Theorem converters_terminate (n b : Z) (show_steps : bool) :
  dec_to_base n b show_steps <> OutOfFuel
  /\ dec_to_bin n show_steps <> OutOfFuel
  /\ dec_to_oct n show_steps <> OutOfFuel
  /\ dec_to_hex n show_steps <> OutOfFuel.
Proof.
  repeat split.
  - apply dec_to_base_fuel.
  - apply dec_to_bin_fuel.
  - apply dec_to_oct_fuel.
  - apply dec_to_hex_fuel.
Qed.





(** A base outside [2, 16] is refused, by [base_to_dec] always and by
    the other two entry points when the number is not zero. *)
Theorem invalid_base_rejected (b : Z) :
  ~ valid_base b ->
  (forall s show_steps, base_to_dec s b show_steps = Raise base_error)
  /\ (forall n show_steps, n <> 0 -> dec_to_base n b show_steps = Raise base_error)
  /\ (forall P x p show_steps, SFeqb x fzero = false ->
        dec_to_base_float P x b p show_steps = Raise base_error).
Proof.
  intros Hb. repeat split; intros.
  - now apply base_to_dec_bad_base.
  - now apply bad_base_refused.
  - now apply bad_base_refused_float.
Qed.

Lemma invalid_base_rejected_witness :
  (forall s show_steps, base_to_dec s 17 show_steps = Raise base_error)
  /\ (forall n show_steps, n <> 0 -> dec_to_base n 17 show_steps = Raise base_error)
  /\ (forall P x p show_steps, SFeqb x fzero = false ->
        dec_to_base_float P x 17 p show_steps = Raise base_error).
Proof.
  apply (invalid_base_rejected 17). unfold valid_base, MIN_BASE, MAX_BASE. lia.
Defined.



(** ** The readers *)



(** On every string, [bin_to_dec], [oct_to_dec] and [hex_to_dec] answer
    as [base_to_dec] does in base 2, 8 and 16: the same integer, or a
    [ValueError] from both. *)
Theorem fixed_readers_match_generic (fb : fixed_base) (s : str) (show_steps : bool) :
  same_answer show_steps (to_dec fb s show_steps) (base_to_dec s (radix fb) show_steps).
Proof. apply to_dec_same_answer. Qed.






(** A one-character string goes to its code point and back; a string
    of any other length is refused. *)
Theorem char_code_round_trip (c : str) (show_steps show_steps' : bool) :
  (forall x, c = [x] -> 0 <= x <= 1114111 ->
     yields show_steps (char_to_ascii c show_steps) x
     /\ yields show_steps' (ascii_to_char x show_steps') c)
  /\ (len c <> 1 ->
      char_to_ascii c show_steps = Raise (ValueError (lit "Please enter a single character"))).
Proof.
  split.
  - intros x -> Hx.
    assert (Hf : formattable x = true) by (apply formattable_small; lia).
    split.
    + unfold char_to_ascii, ord. change (len [x] =? 1) with true. cbn [negb bind].
      destruct show_steps; formats; now split.
    + unfold ascii_to_char, chr.
      destruct (Z.leb_spec 0 x), (Z.leb_spec x 1114111); try lia. cbn [andb negb bind].
      destruct show_steps'; formats; now split.
  - intros Hlen. unfold char_to_ascii.
    destruct (Z.eqb_spec (len c) 1); [contradiction | reflexivity].
Qed.

Lemma char_code_round_trip_witness :
  yields true (char_to_ascii [955] true) 955
  /\ yields false (ascii_to_char 955 false) [955].
Proof.
  apply (proj1 (char_code_round_trip [955] true false) 955); [reflexivity | lia].
Defined.

(** ** Round trips and cross conversions *)









(** The fixed-base readers and the named converters refuse, with or
    without [show_steps], a string whose body (what follows the
    optional minus sign) is empty or holds an ASCII character that is
    no digit of the base. *)
Theorem fixed_readers_reject (b1 : fixed_base) (s : str) (show_steps : bool) :
  unsigned_part s = []
  \/ (exists c, In c (unsigned_part s) /\ is_ascii c
                /\ in_class (numeral_class (radix b1)) c = false) ->
  exists m,
    to_dec b1 s show_steps = Raise (ValueError m)
    /\ forall b2 f, bridge b1 b2 = Some f -> f s show_steps = Raise (ValueError m).
Proof.
  intros H. pose proof (radix_valid b1) as Hb.
  assert (Hv : valid_numeral (radix b1) s = false).
  { pose proof (base_to_dec_rejects (radix b1) s false Hb H) as Hr.
    destruct (valid_numeral (radix b1) s) eqn:Hv; [|reflexivity].
    rewrite base_to_dec_eq in Hr by assumption. discriminate Hr. }
  destruct (to_dec_invalid b1 s true Hv) as [m Hm].
  assert (Hm' : forall flag, to_dec b1 s flag = Raise (ValueError m)).
  { intros flag. destruct b1; cbn [radix to_dec] in *.
    - rewrite bin_to_dec_invalid in * by assumption. exact Hm.
    - rewrite oct_to_dec_invalid in * by assumption. exact Hm.
    - rewrite hex_to_dec_invalid in * by assumption. exact Hm. }
  exists m. split; [apply Hm'|].
  intros b2 f Hf. destruct show_steps.
  - specialize (Hm' true).
    destruct b1, b2; inversion Hf; subst f; cbn [to_dec] in Hm';
      unfold bin_to_oct, bin_to_hex, oct_to_bin, oct_to_hex, hex_to_bin, hex_to_oct;
      rewrite Hm'; reflexivity.
  - rewrite (bridge_untraced b1 b2 f s Hf), Hm'. reflexivity.
Qed.

Lemma fixed_readers_reject_witness :
  exists m,
    to_dec Oct (lit "-18") true = Raise (ValueError m)
    /\ forall b2 f, bridge Oct b2 = Some f -> f (lit "-18") true = Raise (ValueError m).
Proof.
  apply (fixed_readers_reject Oct (lit "-18") true).
  right. exists (ch "8"). split; [right; left; reflexivity|].
  split; [unfold is_ascii; vm_compute; split; [discriminate | reflexivity] | reflexivity].
Defined.

(** ** [detect_base] *)

(** [detect_base] does not look at the white space around the string. *)
Theorem detect_base_ignores_spaces (pre s post : str) :
  forallb is_space pre = true -> forallb is_space post = true ->
  detect_base (pre ++ s ++ post) = detect_base s.
Proof.
  intros Hpre Hpost. unfold detect_base. now rewrite strip_spaces.
Qed.

Lemma detect_base_ignores_spaces_witness :
  detect_base ([9; 32] ++ lit "-7f" ++ [10]) = detect_base (lit "-7f").
Proof. apply (detect_base_ignores_spaces [9; 32] (lit "-7f") [10]); reflexivity. Defined.

(** When [detect_base] names a base for a string without prefix,
    [base_to_dec] converts the trimmed string in that base (with
    [show_steps]: when its length and its value have at most 4300
    decimal digits), and refuses it in each narrower base of the four
    that [detect_base] knows. *)
Theorem detected_base_converts (s : str) (show_steps : bool) :
  has_base_prefix s = false -> detect_base s <> 0 ->
  (show_steps = true ->
   formattable (len (strip s)) = true
   /\ formattable (base_to_dec_value (strip s) (detect_base s)) = true) ->
  (exists n, yields show_steps (base_to_dec (strip s) (detect_base s) show_steps) n)
  /\ (forall b, In b [2; 8; 10] -> b < detect_base s ->
        base_to_dec (strip s) b show_steps
        = Raise (ValueError (lit "Invalid number for base " ++ str_of_int b))).
Proof.
  unfold has_base_prefix. rewrite detect_base_unfold. unfold detect_base_spec. cbv zeta.
  intros Hp. apply orb_false_iff in Hp as [Hp Hx]. apply orb_false_iff in Hp as [Hb Ho].
  rewrite Hb, Ho, Hx.
  destruct (all_digits_below 2 (unsigned_part (strip s))) eqn:H2;
    [|destruct (all_digits_below 8 (unsigned_part (strip s))) eqn:H8;
      [|destruct (all_digits_below 10 (unsigned_part (strip s))) eqn:H10;
        [|destruct (all_digits_below 16 (unsigned_part (strip s))) eqn:H16]]];
    intros Hd Hf; try congruence; split;
    try (eexists; apply base_to_dec_numeral;
         [valid
         | rewrite is_numeral_below by valid; assumption
         | intros E; destruct (Hf E); apply traceable_numeral;
           [valid | rewrite is_numeral_below by valid; assumption | assumption..]]);
    intros b [<-|[<-|[<-|[]]]] Hlt; try lia;
    match goal with
    | H : all_digits_below ?w _ = true |- _ => apply (narrower_base_rejects w); [valid | assumption..]
    end.
Qed.

Lemma detected_base_converts_witness :
  (exists n, yields false (base_to_dec (strip (lit " -1289 ")) (detect_base (lit " -1289 ")) false) n)
  /\ (forall b, In b [2; 8; 10] -> b < detect_base (lit " -1289 ") ->
        base_to_dec (strip (lit " -1289 ")) b false
        = Raise (ValueError (lit "Invalid number for base " ++ str_of_int b))).
Proof.
  apply (detected_base_converts (lit " -1289 ") false);
    [reflexivity | discriminate | discriminate].
Defined.

(** When [detect_base] answers from a prefix, [base_to_dec] refuses the
    string in the base answered: it knows no prefix. *)
Theorem prefixed_numeral_refused (s : str) (show_steps : bool) :
  has_base_prefix s = true ->
  In (detect_base s) [2; 8; 16]
  /\ base_to_dec (strip s) (detect_base s) show_steps
     = Raise (ValueError (lit "Invalid number for base " ++ str_of_int (detect_base s))).
Proof.
  unfold has_base_prefix. rewrite detect_base_unfold. unfold detect_base_spec. cbv zeta.
  intros Hp.
  assert (G : forall l b, has_prefix_ci (strip s) l = true ->
                (l = ch "b" /\ b = 2) \/ (l = ch "o" /\ b = 8) \/ (l = ch "x" /\ b = 16) ->
                base_to_dec (strip s) b show_steps
                = Raise (ValueError (lit "Invalid number for base " ++ str_of_int b))).
  { intros l b Hl Hlb. unfold has_prefix_ci in Hl.
    destruct (strip s) as [|c0 [|c1 t]]; try discriminate Hl.
    apply andb_true_iff in Hl as [H0 H1]. apply Z.eqb_eq in H0. subst c0.
    apply base_to_dec_rejects; [destruct Hlb as [[_ ->]|[[_ ->]|[_ ->]]]; valid|].
    right. exists c1. split; [right; now left|].
    apply orb_true_iff in H1. rewrite !Z.eqb_eq in H1.
    split.
    - unfold is_ascii. destruct Hlb as [[-> _]|[[-> _]|[-> _]]]; revert H1; literals; lia.
    - rewrite numeral_class_below by (destruct Hlb as [[_ ->]|[[_ ->]|[_ ->]]]; valid).
      destruct Hlb as [[-> ->]|[[-> ->]|[-> ->]]]; revert H1; literals;
        intros [->| ->]; reflexivity. }
  destruct (has_prefix_ci (strip s) (ch "b")) eqn:Hb;
    [|destruct (has_prefix_ci (strip s) (ch "o")) eqn:Ho;
      [|destruct (has_prefix_ci (strip s) (ch "x")) eqn:Hx; [|discriminate Hp]]];
    (split; [simpl; tauto | eapply G; [eassumption | tauto]]).
Qed.

Lemma prefixed_numeral_refused_witness :
  In (detect_base (lit "0x1F")) [2; 8; 16]
  /\ base_to_dec (strip (lit "0x1F")) (detect_base (lit "0x1F")) true
     = Raise (ValueError (lit "Invalid number for base " ++ str_of_int (detect_base (lit "0x1F")))).
Proof. apply (prefixed_numeral_refused (lit "0x1F") true). reflexivity. Defined.

(** ** Floats *)

(** For every float whose integer part is not zero and every base of
    [2, 16], [dec_to_base_float] raises [UnboundLocalError], with or
    without [show_steps]: it converts the integer part by a call of
    [dec_to_base] without steps. *)
Theorem dec_to_base_float_integer_part (P : float_printer) (x : float) (b p : Z)
    (show_steps : bool) :
  valid_binary prec emax x = true -> trunc x <> 0 -> valid_base b ->
  dec_to_base_float P x b p show_steps = Raise (UnboundLocalError (lit "step_num")).
Proof.
  intros Hv Ht Hb. destruct x as [s|s| |s m e]; cbn [trunc] in Ht; try congruence.
  assert (Hn : Z.shiftl (Zpos m) e <> 0) by (destruct s; cbn [cond_Zopp] in Ht; lia).
  destruct (float_of_trunc s m e Hv Hn) as [y Hy].
  assert (Hpos : 0 < Z.shiftl (Zpos m) e).
  { assert (0 <= Z.shiftl (Zpos m) e) by (apply Z.shiftl_nonneg; lia). lia. }
  apply (float_with_integer_part P _ b p show_steps (Z.shiftl (Zpos m) e) y);
    try assumption.
  - now destruct s.
  - now destruct s.
Qed.

Lemma dec_to_base_float_integer_part_witness :
  dec_to_base_float plain_printer (mkfloat (-5) (-1)) 16 10 true
  = Raise (UnboundLocalError (lit "step_num")).
Proof.
  apply (dec_to_base_float_integer_part plain_printer (mkfloat (-5) (-1)) 16 10 true).
  - reflexivity.
  - vm_compute. discriminate.
  - unfold valid_base, MIN_BASE, MAX_BASE. lia.
Defined.



(** ** The console and the colours *)

(** [read_number] returns the first line of the input that, once
    trimmed, passes the validator; before it, it writes its prompt and
    its complaint once for every line it refuses; and when no line
    passes, the [EOFError] of [input] ends it. *)
Theorem read_number_skips_rejected (prompt error_msg : str)
    (validator : str -> outcome bool) (rejected : list str) (out : str) :
  Forall (fun l => validator (strip l) = Return false) rejected ->
  (forall good rest, validator (strip good) = Return true ->
     read_number prompt validator error_msg
       {| stdin := rejected ++ good :: rest; stdout := out |}
     = (Done (strip good),
        {| stdin := rest;
           stdout := out ++ concat (map (fun _ => complaint prompt error_msg) rejected)
                         ++ prompt |}))
  /\ read_number prompt validator error_msg {| stdin := rejected; stdout := out |}
     = (Failed EOFError,
        {| stdin := [];
           stdout := out ++ concat (map (fun _ => complaint prompt error_msg) rejected)
                         ++ prompt |}).
Proof.
  intros Hrej. split.
  - intros good rest Hgood. unfold read_number. cbn [stdin].
    replace (S (length (rejected ++ good :: rest)))
      with (length rejected + S (S (length rest)))%nat
      by (rewrite length_app; cbn [length]; lia).
    rewrite read_number_loop_rejected by assumption.
    cbn [read_number_loop]. unfold io_bind at 1.
    rewrite read_number_round_accepts by assumption.
    unfold io_ret. now rewrite <- app_assoc.
  - unfold read_number. cbn [stdin].
    replace (S (length rejected)) with (length rejected + 1)%nat by lia.
    rewrite <- (app_nil_r rejected) at 2.
    rewrite read_number_loop_rejected by assumption.
    cbn [read_number_loop]. unfold io_bind at 1.
    rewrite read_number_round_eof. now rewrite <- app_assoc.
Qed.

Lemma read_number_skips_rejected_witness :
  read_bin {| stdin := [lit "12"; lit ""; lit " -101 "; lit "7"]; stdout := [] |}
  = (Done (lit "-101"),
     {| stdin := [lit "7"];
        stdout := [] ++ concat (map (fun _ =>
                                       complaint (lit "Enter binary: ")
                                         (lit "Invalid binary number (use only 0 and 1, optional negative sign)"))
                                  [lit "12"; lit ""])
                     ++ lit "Enter binary: " |}).
Proof.
  apply (proj1 (read_number_skips_rejected (lit "Enter binary: ")
                  (lit "Invalid binary number (use only 0 and 1, optional negative sign)")
                  (fun s => Return (fullmatch (Cat minus_opt
                                                 (Plus (Class [One (ch "0"); One (ch "1")]))) s))
                  [lit "12"; lit ""] [] ltac:(repeat constructor))
           (lit " -101 ") [lit "7"]).
  reflexivity.
Defined.




(** ** The steps *)




(** The steps of the two character converters: the character, its code
    point, and the code point in binary and in hexadecimal as
    [dec_to_bin] and [dec_to_hex] print it. *)
Theorem character_steps (x : Z) :
  0 <= x <= 1114111 ->
  exists b h,
    yields true (dec_to_bin x true) b
    /\ yields true (dec_to_hex x true) h
    /\ char_to_ascii [x] true
       = Return (WithSteps x [lit "Character: '" ++ [x] ++ lit "'";
                              lit "ASCII/Unicode code point: " ++ str_of_int x;
                              lit "Binary representation: " ++ b;
                              lit "Hexadecimal representation: " ++ h])
    /\ ascii_to_char x true
       = Return (WithSteps [x] [lit "Code point: " ++ str_of_int x;
                                lit "Character: '" ++ [x] ++ lit "'";
                                lit "Binary representation: " ++ b;
                                lit "Hexadecimal representation: " ++ h]).
Proof.
  intros Hx. exists (dec_to_bin_numeral x), (signed_numeral 16 x).
  assert (Hf : formattable x = true) by (apply formattable_small; lia).
  split.
  { apply dec_to_bin_value. unfold loop_start. now destruct (Z.ltb_spec x 0); [lia|]. }
  split; [now apply dec_to_hex_value|].
  unfold dec_to_bin_numeral, signed_numeral.
  destruct (Z.ltb_spec x 0); [lia|]. rewrite Z.abs_eq by lia. cbn [sign_str app].
  rewrite <- py_bin_digits, <- py_hex_digits by lia. split.
  - unfold char_to_ascii, ord. change (len [x] =? 1) with true. cbn [negb bind].
    now formats.
  - unfold ascii_to_char, chr.
    destruct (Z.leb_spec 0 x), (Z.leb_spec x 1114111); try lia. cbn [andb negb bind].
    now formats.
Qed.

Lemma character_steps_witness :
  exists b h,
    yields true (dec_to_bin 8364 true) b
    /\ yields true (dec_to_hex 8364 true) h
    /\ char_to_ascii [8364] true
       = Return (WithSteps 8364 [lit "Character: '" ++ [8364] ++ lit "'";
                                 lit "ASCII/Unicode code point: " ++ str_of_int 8364;
                                 lit "Binary representation: " ++ b;
                                 lit "Hexadecimal representation: " ++ h])
    /\ ascii_to_char 8364 true
       = Return (WithSteps [8364] [lit "Code point: " ++ str_of_int 8364;
                                   lit "Character: '" ++ [8364] ++ lit "'";
                                   lit "Binary representation: " ++ b;
                                   lit "Hexadecimal representation: " ++ h]).
Proof. apply (character_steps 8364). lia. Defined.
